(** * splunk-hive-mind: the tool sandbox and the orchestration loop

    A shallow embedding of the five tools ([src/tools/*.ts]), of the tool
    registry and of the query agent ([src/agent/splunkQueryAgent.ts]),
    followed by the properties of the design document that the code
    satisfies, and by the concrete inputs at which it departs from it.

    Conventions of the embedding:
    - a JavaScript string is the list of its UTF-16 code units ([jsstring]);
    - a JavaScript value coming from the model (tool parameters, the parsed
      tool decision) is a [jsval];
    - asynchronous, fallible code lives in the monad [M]: a computation
      threads the trace of the effects performed so far and either returns
      a value or throws;
    - the platform (filesystem, process environment, child processes, the
      language model, [JSON.parse]) is a record of oracles, [World], whose
      answers may depend on everything that happened before;
    - logging is left out: the logger is taken to return, and what it is
      given is evaluated where the source evaluates it. *)

From Stdlib Require Import ZArith NArith List String Ascii Bool Lia.
From Stdlib Require Import DecimalString.
From stdpp Require Import base decidable option list gmap.
Import ListNotations.

Set Warnings "-register-all".

Open Scope N_scope.

(** ** JavaScript strings *)

Module JS.

(** A string is a sequence of UTF-16 code units. *)
Definition jsstring := list N.

(** A literal of the source, given by its ASCII characters. *)
Definition str (s : string) : jsstring :=
  map N_of_ascii (list_ascii_of_string s).

(** ECMAScript [WhiteSpace] and [LineTerminator] code units: what
    [String.prototype.trim] strips and what [\s] matches. *)
Definition isWhiteSpace (c : N) : bool :=
  (9 <=? c) && (c <=? 13)
  || (c =? 32) || (c =? 160) || (c =? 5760)
  || (8192 <=? c) && (c <=? 8202)
  || (c =? 8232) || (c =? 8233) || (c =? 8239) || (c =? 8287)
  || (c =? 12288) || (c =? 65279).

(** [LineTerminator]: what [.] refuses without the [s] flag. *)
Definition isLineTerminator (c : N) : bool :=
  (c =? 10) || (c =? 13) || (c =? 8232) || (c =? 8233).

Fixpoint trimStart (s : jsstring) : jsstring :=
  match s with
  | [] => []
  | c :: s' => if isWhiteSpace c then trimStart s' else s
  end.

Definition trimEnd (s : jsstring) : jsstring := rev (trimStart (rev s)).

(** [s.trim()] *)
Definition trim (s : jsstring) : jsstring := trimEnd (trimStart s).

(** [s.startsWith(p)] *)
Fixpoint startsWith (s p : jsstring) : bool :=
  match p, s with
  | [], _ => true
  | _ :: _, [] => false
  | a :: p', b :: s' => (a =? b) && startsWith s' p'
  end.

(** [s.includes(p)] on strings: [p] occurs somewhere in [s]. *)
Fixpoint includes (s p : jsstring) : bool :=
  startsWith s p ||
  match s with
  | [] => false
  | _ :: s' => includes s' p
  end.

(** [s.split(sep)[0]] for a one-unit separator: the units before the first
    separator, the whole string when there is none. *)
Fixpoint splitHead (sep : N) (s : jsstring) : jsstring :=
  match s with
  | [] => []
  | c :: s' => if c =? sep then [] else c :: splitHead sep s'
  end.

(** [s.split(sep)] for a one-unit separator. *)
Fixpoint split (sep : N) (s : jsstring) : list jsstring :=
  match s with
  | [] => [[]]
  | c :: s' =>
      if c =? sep then [] :: split sep s'
      else match split sep s' with
           | [] => [[c]]
           | w :: ws => (c :: w) :: ws
           end
  end.

(** [parts.join(sep)] *)
Fixpoint join (sep : jsstring) (parts : list jsstring) : jsstring :=
  match parts with
  | [] => []
  | [p] => p
  | p :: ps => p ++ sep ++ join sep ps
  end.

(** [arr.includes(x)] on an array of strings. *)
Definition arrayIncludes (l : list jsstring) (x : jsstring) : bool :=
  existsb (fun y => bool_decide (x = y)) l.

(** A string is truthy when it is not empty. *)
Definition truthy (s : jsstring) : bool :=
  match s with [] => false | _ => true end.

(** Template interpolation of an integral number. *)
Definition numberToString (z : Z) : jsstring :=
  match z with
  | Z0 => str "0"
  | Zpos p => str (NilEmpty.string_of_uint (Pos.to_uint p))
  | Zneg p => str "-" ++ str (NilEmpty.string_of_uint (Pos.to_uint p))
  end.

End JS.
Export JS.

(** ** Regular expressions

    The patterns of the source that only ask whether a match exists
    ([RegExp.prototype.test], and [replace] of a one-unit class) are
    regular: they are embedded as syntax and run by derivatives. *)

Module Regex.

Inductive regex : Type :=
| RNone                       (* matches nothing *)
| REps                        (* the empty string *)
| RSet (p : N -> bool)        (* one code unit satisfying [p] *)
| RSeq (r1 r2 : regex)
| RAlt (r1 r2 : regex)
| RStar (r : regex).

(** One given code unit. *)
Definition chr (c : N) : regex := RSet (N.eqb c).

(** A character class [[...]] listing its members. *)
Definition oneOf (cs : jsstring) : regex :=
  RSet (fun c => existsb (N.eqb c) cs).

(** [\s] *)
Definition ws : regex := RSet isWhiteSpace.

(** [.] without the [s] flag *)
Definition dot : regex := RSet (fun c => negb (isLineTerminator c)).

(** A literal run of code units. *)
Fixpoint lit (s : jsstring) : regex :=
  match s with
  | [] => REps
  | c :: s' => RSeq (chr c) (lit s')
  end.

(** [r+] *)
Definition plus (r : regex) : regex := RSeq r (RStar r).

Fixpoint nullable (r : regex) : bool :=
  match r with
  | RNone => false
  | REps => true
  | RSet _ => false
  | RSeq r1 r2 => nullable r1 && nullable r2
  | RAlt r1 r2 => nullable r1 || nullable r2
  | RStar _ => true
  end.

Fixpoint deriv (c : N) (r : regex) : regex :=
  match r with
  | RNone => RNone
  | REps => RNone
  | RSet p => if p c then REps else RNone
  | RSeq r1 r2 =>
      if nullable r1
      then RAlt (RSeq (deriv c r1) r2) (deriv c r2)
      else RSeq (deriv c r1) r2
  | RAlt r1 r2 => RAlt (deriv c r1) (deriv c r2)
  | RStar r1 => RSeq (deriv c r1) (RStar r1)
  end.

(** The whole of [s] is matched by [r]. *)
Fixpoint accepts (r : regex) (s : jsstring) : bool :=
  match s with
  | [] => nullable r
  | c :: s' => accepts (deriv c r) s'
  end.

(** Some prefix of [s] is matched by [r]. *)
Fixpoint matchesPrefix (r : regex) (s : jsstring) : bool :=
  nullable r ||
  match s with
  | [] => false
  | c :: s' => matchesPrefix (deriv c r) s'
  end.

(** [r.test(s)] for an unanchored pattern without flags: some substring of
    [s] is matched by [r]. *)
Fixpoint test (r : regex) (s : jsstring) : bool :=
  matchesPrefix r s ||
  match s with
  | [] => false
  | _ :: s' => test r s'
  end.

(** [s.replace(/[cs]/g, '\\$&')]: every unit of the class is preceded by a
    backslash. *)
Fixpoint escapeClass (cs : jsstring) (s : jsstring) : jsstring :=
  match s with
  | [] => []
  | c :: s' =>
      if existsb (N.eqb c) cs then 92 :: c :: escapeClass cs s'
      else c :: escapeClass cs s'
  end.

(** The language of a pattern, independently of the way it is run. *)
Inductive Matches : regex -> jsstring -> Prop :=
| MEps : Matches REps []
| MSet p c : p c = true -> Matches (RSet p) [c]
| MSeq r1 r2 s1 s2 :
    Matches r1 s1 -> Matches r2 s2 -> Matches (RSeq r1 r2) (s1 ++ s2)
| MAltL r1 r2 s : Matches r1 s -> Matches (RAlt r1 r2) s
| MAltR r1 r2 s : Matches r2 s -> Matches (RAlt r1 r2) s
| MStarNil r : Matches (RStar r) []
| MStarCons r s1 s2 :
    Matches r s1 -> Matches (RStar r) s2 -> Matches (RStar r) (s1 ++ s2).

(** [s] has a substring in the language of [r]. *)
Definition Occurs (r : regex) (s : jsstring) : Prop :=
  exists pre m post, s = pre ++ m ++ post /\ Matches r m.

End Regex.
Export Regex.

(** ** The verdict of a guard: [{ valid: boolean; error?: string }] *)

Module Validation.

Record t : Type := mk {
  valid : bool;
  error : option jsstring
}.

(** [{ valid: true }] *)
Definition accepted : t := mk true None.

(** [{ valid: false, error: msg }] *)
Definition rejected (msg : jsstring) : t := mk false (Some msg).

End Validation.

(** ** Paths: the POSIX [path] module of the platform *)

Module Path.

Definition slash : N := 47.
Definition period : N := 46.

Definition isAbsolute (p : jsstring) : bool :=
  match p with
  | c :: _ => c =? slash
  | [] => false
  end.

(** [normalizeString] of an absolute path: empty and [.] segments are
    dropped, [..] removes the segment before it and is dropped at the root.
    [acc] is the stack of the segments kept so far, the last one first. *)
Fixpoint normalizeSegments (segs acc : list jsstring) : list jsstring :=
  match segs with
  | [] => rev acc
  | seg :: rest =>
      if bool_decide (seg = []) || bool_decide (seg = [period]) then
        normalizeSegments rest acc
      else if bool_decide (seg = [period; period]) then
        normalizeSegments rest (tail acc)
      else normalizeSegments rest (seg :: acc)
  end.

(** [path.resolve(p)] in a process whose working directory is [cwd]. *)
Definition resolve (cwd p : jsstring) : jsstring :=
  let full := if isAbsolute p then p else cwd ++ [slash] ++ p in
  slash :: join [slash] (normalizeSegments (split slash full) []).

(** The position of the last occurrence of [c], counted from the left. *)
Fixpoint lastIndexOf (c : N) (s : jsstring) : option nat :=
  match s with
  | [] => None
  | d :: s' =>
      match lastIndexOf c s' with
      | Some i => Some (S i)
      | None => if d =? c then Some O else None
      end
  end.

(** [path.extname(p)]: from the last period of the last segment, slashes
    at the end left aside, unless that period opens the segment or the
    segment is [..]. *)
Definition extname (p : jsstring) : jsstring :=
  let base := List.last (List.filter truthy (split slash p)) [] in
  match lastIndexOf period base with
  | None => []
  | Some O => []
  | Some i => if bool_decide (base = [period; period]) then []
              else drop i base
  end.

(** [path.join(dir, name)] for a resolved [dir] and an entry name. *)
Definition joinEntry (dir name : jsstring) : jsstring :=
  slash :: join [slash]
             (normalizeSegments (split slash (dir ++ [slash] ++ name)) []).

End Path.

(** ** Values, exceptions and effects *)

Module Runtime.

(** A value as [JSON.parse] builds it, or [undefined]. Numbers are kept
    integral: no tool reads a number. *)
Inductive jsval : Type :=
| VUndefined
| VNull
| VBool (b : bool)
| VNum (z : Z)
| VStr (s : jsstring)
| VArr (items : list jsval)
| VObj (fields : list (jsstring * jsval)).

(** What a [throw] carries: an [Error] with its message, or anything
    else. *)
Inductive exn : Type :=
| JsError (message : jsstring)
| JsThrown.

(** [error instanceof Error ? error.message : 'Unknown error'] *)
Definition errorMessage (e : exn) : jsstring :=
  match e with
  | JsError m => m
  | JsThrown => str "Unknown error"
  end.

Inductive outcome (A : Type) : Type :=
| Ret (a : A)
| Throw (e : exn).
Arguments Ret {A} a.
Arguments Throw {A} e.

(** Options of [child_process.exec]; an option that the call leaves out is
    [None]. *)
Record ExecOptions : Type := mkExecOptions {
  timeout : option Z;
  maxBuffer : option Z;
  cwd : option jsstring;
  env : option (gmap jsstring jsstring)
}.

Inductive Message : Type :=
| SystemMessage (content : jsstring)
| HumanMessage (content : jsstring).

(** The effects a request performs, in the order it performs them.
    [EvToolExecute] marks a call of [tool.execute] by the agent. *)
Inductive event : Type :=
| EvStat (path : jsstring)
| EvAccess (path : jsstring)
| EvReaddir (path : jsstring)
| EvReadFile (path : jsstring) (utf8 : bool)
| EvExec (command : jsstring) (options : ExecOptions)
| EvInvoke (messages : list Message)
| EvToolExecute (name : jsstring) (parameters : jsval).

Definition trace := list event.

(** A computation: from the trace so far to an outcome and the extended
    trace. *)
Definition M (A : Type) : Type := trace -> outcome A * trace.

Definition ret {A} (a : A) : M A := fun t => (Ret a, t).

Definition throw {A} (e : exn) : M A := fun t => (Throw e, t).

Definition bind {A B} (m : M A) (k : A -> M B) : M B :=
  fun t =>
    match m t with
    | (Ret a, t') => k a t'
    | (Throw e, t') => (Throw e, t')
    end.

(** [try { body } catch (error) { handler }] *)
Definition tryCatch {A} (body : M A) (handler : exn -> M A) : M A :=
  fun t =>
    match body t with
    | (Ret a, t') => (Ret a, t')
    | (Throw e, t') => handler e t'
    end.

(** Perform the effect [ev], whose answer the platform gives from the
    trace so far. *)
Definition perform {A} (ev : event) (answer : trace -> outcome A) : M A :=
  fun t => (answer t, t ++ [ev]).

(** Lift a pure outcome. *)
Definition lift {A} (o : outcome A) : M A := fun t => (o, t).

End Runtime.
Export Runtime.

Notation "'do' x <- m ; k" := (bind m (fun x => k))
  (at level 10, x name, m at level 100, k at level 200,
   format "'[v' 'do'  x  <-  m ; '/' k ']'").
Notation "'run' m ; k" := (bind m (fun _ => k))
  (at level 10, m at level 100, k at level 200,
   format "'[v' 'run'  m ; '/' k ']'").

(** ** [src/types/index.ts] *)

Module Types.

Record ToolResult : Type := mkToolResult {
  success : bool;
  output : jsstring;
  error : option jsstring
}.

Record ToolCall : Type := mkToolCall {
  tool_name : jsval;
  parameters : jsval;
  tc_output : jsstring
}.

Record ConversationTurn : Type := mkTurn {
  role : jsstring;
  content : jsstring
}.

Record FileAnalysis : Type := mkFileAnalysis {
  filePath : jsstring;
  fileType : jsstring;
  fa_content : jsstring;
  patterns : list jsstring;
  logFormats : list jsstring;
  dataFields : list jsstring;
  imports : list jsstring
}.

Record SplunkQueryContext : Type := mkContext {
  analysisResults : list FileAnalysis;
  userPrompt : jsstring;
  conversationHistory : list ConversationTurn
}.

Record QueryRequest : Type := mkRequest {
  prompt : jsstring;
  context_files : option (list jsstring);
  conversation_history : option (list ConversationTurn)
}.

Inductive Status : Type := StatusSuccess | StatusError.

Record QueryResponse : Type := mkResponse {
  status : Status;
  query : option jsstring;
  explanation : option jsstring;
  tool_calls : option (list ToolCall);
  error_message : option jsstring
}.

Record AgentConfig : Type := mkConfig {
  (** [parseInt] of the setting: [None] is [NaN] *)
  maxFileSize : option Z;
  allowedExtensions : list jsstring;
  sandboxDirectory : jsstring
}.

(** [{ success: true, output }] *)
Definition succeeded (out : jsstring) : ToolResult :=
  mkToolResult true out None.

(** [{ success: false, output: '', error: ... }] of every [catch] *)
Definition failed (e : exn) : ToolResult :=
  mkToolResult false [] (Some (errorMessage e)).

End Types.
Export Types.

(** ** The platform *)

Module Platform.

Record Stats : Type := mkStats {
  isFile : bool;
  isDirectory : bool;
  size : Z;
  (** [stats.mtime.toISOString()] *)
  mtime : jsstring
}.

Record Dirent : Type := mkDirent {
  d_name : jsstring;
  d_isDirectory : bool
}.

Record World : Type := mkWorld {
  (** [process.cwd()] *)
  process_cwd : jsstring;
  (** [process.env] *)
  process_env : gmap jsstring jsstring;
  (** [config] of [src/config/index.ts], read once at start *)
  config : AgentConfig;
  (** [fs.stat], [fs.access], [fs.readdir], [fs.readFile] *)
  fs_stat : trace -> jsstring -> outcome Stats;
  fs_access : trace -> jsstring -> outcome unit;
  fs_readdir : trace -> jsstring -> outcome (list Dirent);
  fs_readFile_utf8 : trace -> jsstring -> outcome jsstring;
  fs_readFile : trace -> jsstring -> outcome (list N);
  (** [promisify(exec)]: standard output and standard error *)
  execAsync :
    trace -> jsstring -> ExecOptions -> outcome (jsstring * jsstring);
  (** [this.llm.invoke] and the chain ending in [StringOutputParser] *)
  llm_invoke : trace -> list Message -> outcome jsstring;
  (** [JSON.parse] *)
  JSON_parse : jsstring -> outcome jsval;
  (** the message of the [TypeError] of the engine *)
  typeErrorMessage : jsstring;
  (** the message of the [TypeError] of a value that has no string form *)
  toPrimitiveErrorMessage : jsstring;
  (** [String.prototype.toLowerCase], by the Unicode tables of the engine *)
  toLowerCase : jsstring -> jsstring;
  (** [formatFileSize], computed in floating point by the source *)
  formatFileSize : Z -> jsstring;
  (** [a.localeCompare(b)] of the locale: negative, zero or positive *)
  localeCompare : jsstring -> jsstring -> Z;
  (** [CodeAnalyzer.analyzeFile], outside the sandbox *)
  analyzeFile : jsstring -> jsstring -> outcome FileAnalysis
}.

(** The settings when the environment overrides none of them. *)
Definition defaultConfig : AgentConfig :=
  {| maxFileSize := Some 10485760%Z;
     allowedExtensions :=
       map str [ ".js"; ".ts"; ".py"; ".java"; ".xml"; ".json"; ".csv";
                 ".txt"; ".log"; ".yml"; ".yaml"; ".config";
                 ".properties"; ".ini" ]%string;
     sandboxDirectory := str "/tmp/splunk-agent-sandbox" |}.

(** [parseInt(s, 10)]: white space, a sign, then the longest run of decimal
    digits; [NaN] when there is no digit. Exact as long as the value is
    within the integers that a double holds. *)
Definition isDigit (c : N) : bool := (48 <=? c) && (c <=? 57).

Fixpoint digitsValue (s : jsstring) (acc : Z) : Z :=
  match s with
  | [] => acc
  | c :: s' =>
      if isDigit c then digitsValue s' (10 * acc + Z.of_N (c - 48))%Z
      else acc
  end.

Definition parseInt (s : jsstring) : option Z :=
  let unsigned digits :=
    match digits with
    | c :: _ => if isDigit c then Some (digitsValue digits 0%Z) else None
    | [] => None
    end in
  match trimStart s with
  | 45 :: digits => option_map Z.opp (unsigned digits)
  | 43 :: digits => unsigned digits
  | digits => unsigned digits
  end.

(** [process.env.NAME || fallback] *)
Definition envOr (env : gmap jsstring jsstring) (name : string)
  (fallback : jsstring) : jsstring :=
  match env !! str name with
  | Some v => if truthy v then v else fallback
  | None => fallback
  end.

(** [config] of [src/config/index.ts], as read from the environment. *)
Definition loadConfig (env : gmap jsstring jsstring) : AgentConfig :=
  {| maxFileSize := parseInt (envOr env "MAX_FILE_SIZE" (str "10485760"));
     allowedExtensions :=
       split 44
         (envOr env "ALLOWED_FILE_EXTENSIONS"
            (str ".js,.ts,.py,.java,.xml,.json,.csv,.txt,.log,.yml,.yaml,.config,.properties,.ini"));
     sandboxDirectory :=
       envOr env "SANDBOX_DIRECTORY" (str "/tmp/splunk-agent-sandbox") |}.

Section Primitives.
Variable w : World.

Definition typeError {A} : M A := throw (JsError (typeErrorMessage w)).

(** [v.k]: reading a property of [undefined] or [null] throws. *)
Definition getProp (v : jsval) (k : jsstring) : M jsval :=
  match v with
  | VUndefined | VNull => typeError
  | VObj fields =>
      ret (match find (fun kv => bool_decide (fst kv = k)) fields with
           | Some kv => snd kv
           | None => VUndefined
           end)
  | _ => ret VUndefined
  end.

(** The receiver of a string method, or the string argument of
    [path.resolve]: anything but a string throws. *)
Definition asString (v : jsval) : M jsstring :=
  match v with
  | VStr s => ret s
  | _ => typeError
  end.

(** [`${v}`] has a value. A value of JSON is not callable: an object with
    a property [toString] of its own has no string form ([valueOf] gives
    the object back), and an array joins the string forms of its elements,
    [null] and [undefined] counting as empty. *)
Fixpoint interpolates (v : jsval) : bool :=
  match v with
  | VObj fields =>
      negb (existsb (fun kv => bool_decide (fst kv = str "toString")) fields)
  | VArr items =>
      (fix all (items : list jsval) : bool :=
         match items with
         | [] => true
         | item :: rest => interpolates item && all rest
         end) items
  | _ => true
  end.

(** [logger.info(`... ${v}`)]: the message is built before anything else
    is done, and building it throws when [v] has no string form. *)
Definition logged (v : jsval) : M unit :=
  if interpolates v then ret tt
  else throw (JsError (toPrimitiveErrorMessage w)).

(** [path.resolve(v)] *)
Definition path_resolve (v : jsval) : M jsstring :=
  do p <- asString v ; ret (Path.resolve (process_cwd w) p).

Definition stat (p : jsstring) : M Stats :=
  perform (EvStat p) (fun t => fs_stat w t p).

Definition access (p : jsstring) : M unit :=
  perform (EvAccess p) (fun t => fs_access w t p).

Definition readdir (p : jsstring) : M (list Dirent) :=
  perform (EvReaddir p) (fun t => fs_readdir w t p).

Definition readFile_utf8 (p : jsstring) : M jsstring :=
  perform (EvReadFile p true) (fun t => fs_readFile_utf8 w t p).

Definition readFile (p : jsstring) : M (list N) :=
  perform (EvReadFile p false) (fun t => fs_readFile w t p).

Definition exec (command : jsstring) (options : ExecOptions)
  : M (jsstring * jsstring) :=
  perform (EvExec command options) (fun t => execAsync w t command options).

Definition invoke (messages : list Message) : M jsstring :=
  perform (EvInvoke messages) (fun t => llm_invoke w t messages).

(** [allowedPaths.some(allowedPath =>
      absolutePath.startsWith(path.resolve(allowedPath)))] with
    [allowedPaths = [process.cwd(), config.sandboxDirectory]] *)
Definition isAllowed (absolutePath : jsstring) : bool :=
  existsb
    (fun allowedPath =>
       startsWith absolutePath (Path.resolve (process_cwd w) allowedPath))
    [process_cwd w; sandboxDirectory (config w)].

(** [absolutePath.includes('..') || absolutePath.includes('~')] *)
Definition looksTraversing (absolutePath : jsstring) : bool :=
  includes absolutePath (str "..") || includes absolutePath (str "~").

End Primitives.

End Platform.
Export Platform.

(** ** [src/tools/terminalCommand.ts] *)

Module TerminalCommandTool.

(** [allowedCommands] *)
Definition allowedCommands : list jsstring :=
  map str
    [ "ls"; "dir"; "pwd"; "whoami"; "date"; "uptime";
      "find"; "locate"; "which"; "type";
      "head"; "tail"; "cat"; "wc"; "sort"; "uniq";
      "ps"; "top"; "df"; "du"; "free";
      "node"; "npm"; "python"; "python3"; "java";
      "git" ]%string.

(** [dangerousPatterns], in the order of the source. *)
Definition shellMetacharacters : regex := oneOf (str ";&|`$(){}[]").
Definition directoryTraversal : regex := lit (str "..").
Definition systemDirectories : regex :=
  RAlt (lit (str "/dev/")) (RAlt (lit (str "/proc/")) (lit (str "/sys/"))).
Definition destructiveCommands : regex :=
  RSeq (lit (str "rm")) (RSeq (plus ws) (lit (str "-rf"))).
Definition privilegeEscalation : regex :=
  RAlt (lit (str "sudo")) (lit (str "su")).
Definition permissionChanges : regex :=
  RAlt (lit (str "chmod")) (lit (str "chown")).
Definition downloadsToFiles : regex :=
  RAlt (lit (str "wget"))
       (RSeq (lit (str "curl")) (RSeq (RStar dot) (lit (str "-o")))).
Definition fileRedirections : regex :=
  RAlt (RSeq (chr 62) (RSeq (RStar ws) (chr 47))) (lit (str ">>")).

Definition dangerousPatterns : list regex :=
  [ shellMetacharacters; directoryTraversal; systemDirectories;
    destructiveCommands; privilegeEscalation; permissionChanges;
    downloadsToFiles; fileRedirections ].

(** [validateCommand] *)
Definition validateCommand (command : jsstring) : Validation.t :=
  let trimmedCommand := trim command in
  if negb (truthy trimmedCommand) then
    Validation.rejected (str "Command cannot be empty")
  else if existsb (fun pattern => test pattern trimmedCommand)
                  dangerousPatterns then
    Validation.rejected (str "Command contains dangerous patterns")
  else
    let baseCommand := splitHead 32 trimmedCommand in
    if negb (truthy baseCommand)
       || negb (arrayIncludes allowedCommands baseCommand) then
      Validation.rejected (str "Command '"
                ++ (if truthy baseCommand then baseCommand else str "empty")
                ++ str "' is not in the allowed list")
    else Validation.accepted.

(** [sanitizeCommand] *)
Definition sanitizeCommand (command : jsstring) : jsstring := trim command.

(** The options of the call of [execAsync]. *)
Definition execOptions (w : World) : ExecOptions :=
  {| timeout := Some 30000%Z;
     maxBuffer := Some (1024 * 1024)%Z;
     cwd := Some (process_cwd w);
     (* { ...process.env, PATH: process.env.PATH || '' } *)
     env := Some (<[str "PATH" := default [] (process_env w !! str "PATH")]>
                    (process_env w)) |}.

(** [execute] *)
Definition execute (w : World) (parameters : jsval) : M ToolResult :=
  tryCatch
    (do command <- getProp w parameters (str "command") ;
     run logged w command ;
     do command <- asString w command ;
     let validationResult := validateCommand command in
     if negb (Validation.valid validationResult) then
       throw (JsError (default [] (Validation.error validationResult)))
     else
       let sanitizedCommand := sanitizeCommand command in
       do out <- exec w sanitizedCommand (execOptions w) ;
       let '(stdout, stderr) := out in
       ret (succeeded
              (stdout ++ (if truthy stderr
                          then [10] ++ str "Stderr: " ++ stderr
                          else []))))
    (fun error => ret (failed error)).

End TerminalCommandTool.

(** ** [src/tools/fileSystemGrep.ts] *)

Module FileSystemGrepTool.

(** [validatePath] *)
Definition validatePath (w : World) (inputPath : jsval) : M Validation.t :=
  tryCatch
    (do absolutePath <- path_resolve w inputPath ;
     run access w absolutePath ;
     if looksTraversing absolutePath then
       ret (Validation.rejected (str "Path traversal not allowed"))
     else if negb (isAllowed w absolutePath) then
       ret (Validation.rejected (str "Access to this path is not allowed"))
     else ret Validation.accepted)
    (fun _ =>
       ret (Validation.rejected
              (str "Path does not exist or is not accessible"))).

(** The class of [/[`$;|&<>()]/g] *)
Definition escapedCharacters : jsstring := str "`$;|&<>()".

(** [sanitizePattern] *)
Definition sanitizePattern (pattern : jsstring) : jsstring :=
  escapeClass escapedCharacters pattern.

(** [sanitizePath] *)
Definition sanitizePath (inputPath : jsstring) : jsstring :=
  escapeClass escapedCharacters inputPath.

(** [ext.replace('.', '')]: the first period goes. *)
Fixpoint dropFirstPeriod (ext : jsstring) : jsstring :=
  match ext with
  | [] => []
  | c :: ext' => if c =? Path.period then ext' else c :: dropFirstPeriod ext'
  end.

Definition quote : N := 34.

(** The command line that [execute] builds. *)
Definition grepCommand (w : World) (sanitizedPattern sanitizedPath : jsstring)
  : jsstring :=
  str "grep -r -n -H --include=" ++ [quote] ++ str "*.{"
  ++ join (str ",") (map dropFirstPeriod (allowedExtensions (config w)))
  ++ str "}" ++ [quote] ++ str " "
  ++ [quote] ++ sanitizedPattern ++ [quote] ++ str " "
  ++ [quote] ++ sanitizedPath ++ [quote].

Definition execOptions : ExecOptions :=
  {| timeout := Some 30000%Z;
     maxBuffer := Some (1024 * 1024)%Z;
     cwd := None;
     env := None |}.

(** [execute] *)
Definition execute (w : World) (parameters : jsval) : M ToolResult :=
  tryCatch
    (do pattern <- getProp w parameters (str "pattern") ;
     run logged w pattern ;
     do path <- getProp w parameters (str "path") ;
     run logged w path ;
     do validationResult <- validatePath w path ;
     if negb (Validation.valid validationResult) then
       throw (JsError (default [] (Validation.error validationResult)))
     else
       do pattern <- asString w pattern ;
       let sanitizedPattern := sanitizePattern pattern in
       do path <- asString w path ;
       let sanitizedPath := sanitizePath path in
       do out <- exec w (grepCommand w sanitizedPattern sanitizedPath)
                   execOptions ;
       let '(stdout, _) := out in
       ret (succeeded (if truthy stdout then stdout
                       else str "No matches found")))
    (fun error => ret (failed error)).

End FileSystemGrepTool.

(** ** [src/tools/folderIndexing.ts] *)

Module FolderIndexingTool.

(** [validatePath] *)
Definition validatePath (w : World) (inputPath : jsval) : M Validation.t :=
  tryCatch
    (do absolutePath <- path_resolve w inputPath ;
     do stats <- stat w absolutePath ;
     if negb (isDirectory stats) then
       ret (Validation.rejected (str "Path is not a directory"))
     else if looksTraversing absolutePath then
       ret (Validation.rejected (str "Path traversal not allowed"))
     else if negb (isAllowed w absolutePath) then
       ret (Validation.rejected
              (str "Access to this directory is not allowed"))
     else ret Validation.accepted)
    (fun _ =>
       ret (Validation.rejected
              (str "Directory does not exist or is not accessible"))).

(** The comparison given to [entries.sort]: directories first, then the
    names in the order of the locale. *)
Definition compareEntries (w : World) (a b : Dirent) : Z :=
  if d_isDirectory a && negb (d_isDirectory b) then (-1)%Z
  else if negb (d_isDirectory a) && d_isDirectory b then 1%Z
  else localeCompare w (d_name a) (d_name b).

Fixpoint insertEntry (w : World) (x : Dirent) (l : list Dirent)
  : list Dirent :=
  match l with
  | [] => [x]
  | y :: l' =>
      if (compareEntries w x y <=? 0)%Z then x :: y :: l'
      else y :: insertEntry w x l'
  end.

(** [entries.sort(...)], a stable sort. *)
Definition sortEntries (w : World) (entries : list Dirent) : list Dirent :=
  foldr (insertEntry w) [] entries.

(** ['  '.repeat(depth)] *)
Fixpoint indentation (depth : nat) : jsstring :=
  match depth with
  | O => []
  | S d => str "  " ++ indentation d
  end.

Definition folderIcon : jsstring := [55357; 56513].
Definition pageIcon : jsstring := [55357; 56516].
Definition gearIcon : jsstring := [9881; 65039].

(** [iconMap] *)
Definition iconMap : list (jsstring * jsstring) :=
  [ (str ".js", pageIcon); (str ".ts", pageIcon);
    (str ".py", [55357; 56333]); (str ".java", [9749]);
    (str ".json", [55357; 56523]); (str ".xml", [55357; 56523]);
    (str ".csv", [55357; 56522]); (str ".txt", [55357; 56541]);
    (str ".log", [55357; 56540]); (str ".yml", gearIcon);
    (str ".yaml", gearIcon); (str ".config", gearIcon);
    (str ".properties", gearIcon); (str ".ini", gearIcon) ].

(** [getFileIcon] *)
Definition getFileIcon (extension : jsstring) : jsstring :=
  match find (fun kv => bool_decide (fst kv = extension)) iconMap with
  | Some kv => snd kv
  | None => pageIcon
  end.

(** [error instanceof Error ? error.message : 'unknown'] *)
Definition messageOrUnknown (e : exn) : jsstring :=
  match e with
  | JsError m => m
  | JsThrown => str "unknown"
  end.

(** The body of [listDirectoryContents] at a depth within the ceiling;
    [remaining] is [maxDepth - depth], so that [depth < maxDepth] reads
    [remaining = S _]. *)
Fixpoint listEntries (w : World) (remaining : nat) (dirPath : jsstring)
  (depth : nat) {struct remaining} : M jsstring :=
  tryCatch
    (do entries <- readdir w dirPath ;
     (fix loop (sortedEntries : list Dirent) (result : jsstring)
        : M jsstring :=
        match sortedEntries with
        | [] => ret result
        | entry :: rest =>
            let indent := indentation depth in
            let entryPath := Path.joinEntry dirPath (d_name entry) in
            if d_isDirectory entry then
              let result :=
                result ++ indent ++ folderIcon ++ str " " ++ d_name entry
                ++ str "/" ++ [10] in
              match remaining with
              | S r =>
                  do sub <-
                    tryCatch (listEntries w r entryPath (S depth))
                      (fun error =>
                         ret (indent ++ str "  (error reading directory: "
                              ++ messageOrUnknown error ++ str ")"
                              ++ [10])) ;
                  loop rest (result ++ sub)
              | O => loop rest result
              end
            else
              do stats <- stat w entryPath ;
              let size := formatFileSize w (size stats) in
              let extension := Path.extname (d_name entry) in
              let isAllowedFile :=
                arrayIncludes (allowedExtensions (config w)) extension
                || bool_decide (extension = []) in
              let icon := getFileIcon extension in
              let marker :=
                if isAllowedFile then [] else str " (restricted)" in
              loop rest
                (result ++ indent ++ icon ++ str " " ++ d_name entry
                 ++ str " (" ++ size ++ str ")" ++ marker ++ [10])
        end) (sortEntries w entries) [])
    (fun error =>
       ret (indentation depth ++ str "Error reading directory: "
            ++ messageOrUnknown error ++ [10])).

(** [listDirectoryContents] *)
Definition listDirectoryContents (w : World) (dirPath : jsstring)
  (depth maxDepth : nat) : M jsstring :=
  if (maxDepth <? depth)%nat then
    ret (indentation depth ++ str "... (max depth reached)" ++ [10])
  else listEntries w (maxDepth - depth) dirPath depth.

(** [execute] *)
Definition execute (w : World) (parameters : jsval) : M ToolResult :=
  tryCatch
    (do path <- getProp w parameters (str "path") ;
     run logged w path ;
     do validationResult <- validatePath w path ;
     if negb (Validation.valid validationResult) then
       throw (JsError (default [] (Validation.error validationResult)))
     else
       do absolutePath <- path_resolve w path ;
       do contents <- listDirectoryContents w absolutePath 0 3 ;
       ret (succeeded contents))
    (fun error => ret (failed error)).

End FolderIndexingTool.

(** ** [src/tools/readFile.ts] *)

Module ReadFileTool.

(** The reason given for a file above the ceiling. *)
Definition tooLarge (size maxFileSize : Z) : jsstring :=
  str "File size (" ++ numberToString size
  ++ str " bytes) exceeds maximum allowed size ("
  ++ numberToString maxFileSize ++ str " bytes)".

(** [stats.size > config.maxFileSize], false against [NaN] *)
Definition exceeds (size : Z) (maxFileSize : option Z) : option Z :=
  match maxFileSize with
  | Some m => if (m <? size)%Z then Some m else None
  | None => None
  end.

(** [validateFile] *)
Definition validateFile (w : World) (filePath : jsval) : M Validation.t :=
  tryCatch
    (do absolutePath <- path_resolve w filePath ;
     do stats <- stat w absolutePath ;
     if negb (isFile stats) then
       ret (Validation.rejected (str "Path is not a file"))
     else
       match exceeds (size stats) (maxFileSize (config w)) with
       | Some m => ret (Validation.rejected (tooLarge (size stats) m))
       | None =>
           if looksTraversing absolutePath then
             ret (Validation.rejected (str "Path traversal not allowed"))
           else
             let extension := Path.extname absolutePath in
             if negb (arrayIncludes (allowedExtensions (config w)) extension)
                && negb (bool_decide (extension = [])) then
               ret (Validation.rejected
                      (str "File extension '" ++ extension
                       ++ str "' is not allowed"))
             else if negb (isAllowed w absolutePath) then
               ret (Validation.rejected
                      (str "Access to this file location is not allowed"))
             else ret Validation.accepted
       end)
    (fun _ =>
       ret (Validation.rejected
              (str "File does not exist or is not accessible"))).

Definition hexDigit (n : N) : N := if n <? 10 then 48 + n else 87 + n.

(** [buffer.toString('hex')] *)
Definition toHex (bytes : list N) : jsstring :=
  flat_map (fun b => [hexDigit (b / 16); hexDigit (b mod 16)]) bytes.

(** [binaryError instanceof Error ? binaryError.message : 'unknown error'] *)
Definition messageOrUnknown (e : exn) : jsstring :=
  match e with
  | JsError m => m
  | JsThrown => str "unknown error"
  end.

(** [readFileContent] *)
Definition readFileContent (w : World) (filePath : jsstring) : M jsstring :=
  tryCatch
    (do content <- readFile_utf8 w filePath ;
     do stats <- stat w filePath ;
     let extension := Path.extname filePath in
     let header :=
       str "File: " ++ filePath ++ [10]
       ++ str "Size: " ++ formatFileSize w (size stats) ++ [10]
       ++ str "Last Modified: " ++ mtime stats ++ [10]
       ++ str "Extension: "
       ++ (if truthy extension then extension else str "none") ++ [10]
       ++ [10] ++ str "--- File Content ---" ++ [10] in
     ret (header ++ content))
    (fun _ =>
       tryCatch
         (do buffer <- readFile w filePath ;
          ret (str "File: " ++ filePath ++ [10]
               ++ str "Note: Binary file detected, showing first 200 bytes as hex:"
               ++ [10] ++ [10]
               ++ toHex (take 200 buffer) ++ [10] ++ [10]
               ++ str "... (file is "
               ++ numberToString (Z.of_nat (length buffer))
               ++ str " bytes total)"))
         (fun binaryError =>
            throw (JsError (str "Failed to read file: "
                            ++ messageOrUnknown binaryError)))).

(** The two texts that [readFileContent] returns: the content under its
    header, and the first bytes in hexadecimal. *)
Definition textReport (w : World) (filePath : jsstring) (stats : Stats)
  (content : jsstring) : jsstring :=
  (str "File: " ++ filePath ++ [10]
   ++ str "Size: " ++ formatFileSize w (size stats) ++ [10]
   ++ str "Last Modified: " ++ mtime stats ++ [10]
   ++ str "Extension: "
   ++ (if truthy (Path.extname filePath)
       then Path.extname filePath else str "none") ++ [10]
   ++ [10] ++ str "--- File Content ---" ++ [10])
  ++ content.

Definition hexReport (filePath : jsstring) (buffer : list N) : jsstring :=
  str "File: " ++ filePath ++ [10]
  ++ str "Note: Binary file detected, showing first 200 bytes as hex:"
  ++ [10] ++ [10]
  ++ toHex (take 200 buffer) ++ [10] ++ [10]
  ++ str "... (file is "
  ++ numberToString (Z.of_nat (length buffer))
  ++ str " bytes total)".

(** [execute] *)
Definition execute (w : World) (parameters : jsval) : M ToolResult :=
  tryCatch
    (do filepath <- getProp w parameters (str "filepath") ;
     run logged w filepath ;
     do validationResult <- validateFile w filepath ;
     if negb (Validation.valid validationResult) then
       throw (JsError (default [] (Validation.error validationResult)))
     else
       do absolutePath <- path_resolve w filepath ;
       do content <- readFileContent w absolutePath ;
       ret (succeeded content))
    (fun error => ret (failed error)).

End ReadFileTool.

(** ** [src/tools/webSearch.ts] *)

Module WebSearchTool.

Definition bestPractices : jsstring :=
  str "
## Splunk Query Best Practices

### Common Search Commands:
- search: Basic search command
- stats: Statistical operations
- timechart: Time-based charting
- eval: Field evaluation and calculation
- where: Conditional filtering
- sort: Result sorting
- head/tail: Limit results

### Query Structure:
1. Search terms (index, sourcetype, keywords)
2. Filtering (where, search)
3. Field extraction and evaluation (eval, rex)
4. Aggregation (stats, timechart)
5. Formatting (sort, head, tail)

### Examples:
- index=main sourcetype=access_log status=404 | stats count by client_ip
- index=security sourcetype=firewall action=blocked | timechart count by src_ip
- index=app_logs error | eval hour=strftime(_time, "
  ++ [34]
  ++ str "%H"
  ++ [34]
  ++ str ") | stats count by hour
      ".

Definition splGuide : jsstring :=
  str "
## Splunk Search Processing Language (SPL) Guide

### Field Extraction:
- rex: Regular expression extraction
- extract: Automatic field extraction
- eval: Create calculated fields

### Aggregation Functions:
- count, sum, avg, min, max
- dc (distinct count)
- values, list
- percentile

### Time Functions:
- strftime, strptime
- earliest, latest
- bucket, span
      ".

(** [getMockSearchResults] *)
Definition getMockSearchResults (w : World) (query : jsval) : M jsstring :=
  do query <- asString w query ;
  let lowerQuery := toLowerCase w query in
  if includes lowerQuery (str "splunk") && includes lowerQuery (str "query")
  then ret bestPractices
  else if includes lowerQuery (str "spl")
          || includes lowerQuery (str "search processing language")
  then ret splGuide
  else ret (str "Mock search results for query: "
            ++ [34]
            ++ query
            ++ [34]
               ++ str ". In production, this would return real web search results about Splunk queries and best practices.").

(** [execute] *)
Definition execute (w : World) (parameters : jsval) : M ToolResult :=
  tryCatch
    (do query <- getProp w parameters (str "query") ;
     run logged w query ;
     do mockResults <- getMockSearchResults w query ;
     ret (succeeded mockResults))
    (fun error => ret (failed error)).

End WebSearchTool.

(** ** [src/tools/index.ts]: the registry *)

Module ToolRegistry.

Record Tool : Type := mkTool {
  name : jsstring;
  description : jsstring;
  execute : World -> jsval -> M ToolResult
}.

Definition toolInstances : list Tool :=
  [ mkTool (str "web_search")
      (str "Search the web for Splunk documentation, best practices, and query patterns")
      WebSearchTool.execute;
    mkTool (str "file_system_grep")
      (str "Search for patterns in files using grep with security restrictions")
      FileSystemGrepTool.execute;
    mkTool (str "terminal_command")
      (str "Execute shell commands with strict security restrictions")
      TerminalCommandTool.execute;
    mkTool (str "folder_file_indexing")
      (str "List contents of directories with security restrictions")
      FolderIndexingTool.execute;
    mkTool (str "read_file")
      (str "Read file contents with security and size restrictions")
      ReadFileTool.execute ].

(** [registerTools]: [this.tools.set(tool.name, tool)] for each instance,
    in order. *)
Definition registerTools (instances : list Tool) : gmap jsstring Tool :=
  fold_left (fun tools tool => <[name tool := tool]> tools) instances ∅.

(** [toolRegistry] *)
Definition toolRegistry : gmap jsstring Tool := registerTools toolInstances.

(** [getTool]: a key that is not a string is the key of no tool. *)
Definition getTool (tools : gmap jsstring Tool) (key : jsval) : option Tool :=
  match key with
  | VStr s => tools !! s
  | _ => None
  end.

(** [getToolNames], in the order of insertion. *)
Definition getToolNames : list jsstring := map name toolInstances.

End ToolRegistry.

(** ** [src/agent/splunkQueryAgent.ts] *)

Module SplunkQueryAgent.

Import ToolRegistry.

Definition systemPreamble : jsstring :=
  str "You are an expert Splunk query assistant. Your role is to generate accurate and efficient Splunk Search Processing Language (SPL) queries based on user requests and provided context.

## Your Capabilities:
1. Analyze code patterns, log formats, and data structures
2. Generate syntactically correct SPL queries
3. Provide clear explanations for your queries
4. Use appropriate Splunk commands and functions
5. Consider performance and best practices

## Key Splunk Commands and Concepts:
- Basic search: index=main sourcetype=access_log
- Filtering: where, search, regex
- Field extraction: rex, extract, eval
- Aggregation: stats, timechart, chart
- Sorting and formatting: sort, head, tail, table
- Time handling: earliest, latest, strftime, strptime
- Functions: count, sum, avg, max, min, dc (distinct count)

## Context Analysis:".

Definition systemInstructions : jsstring :=
  str "

## Instructions:
1. Generate a Splunk query that addresses the user's specific request
2. Use the analyzed context to inform field names, data patterns, and search criteria
3. Ensure the query is syntactically correct and follows SPL best practices
4. Provide a clear explanation of what the query does
5. Consider performance implications and suggest optimizations if relevant

## Response Format:
Provide your response in the following format:
QUERY: [Your SPL query here]

EXPLANATION: [Clear explanation of what the query does and why you chose this approach]".

(** One [**File: ...**] block of the system message. *)
Definition analysisBlock (analysis : FileAnalysis) : jsstring :=
  [10] ++ str "**File: " ++ filePath analysis ++ str "**" ++ [10]
  ++ str "- Type: " ++ fileType analysis ++ [10]
  ++ str "- Patterns: " ++ join (str ", ") (take 10 (patterns analysis))
  ++ (if (10 <? length (patterns analysis))%nat then str "..." else [])
  ++ [10]
  ++ str "- Log Formats: " ++ join (str ", ") (logFormats analysis) ++ [10]
  ++ str "- Data Fields: " ++ join (str ", ") (take 20 (dataFields analysis))
  ++ (if (20 <? length (dataFields analysis))%nat then str "..." else [])
  ++ [10]
  ++ str "- Imports: " ++ join (str ", ") (take 5 (imports analysis))
  ++ (if (5 <? length (imports analysis))%nat then str "..." else [])
  ++ [10].

(** [buildSystemMessage] *)
Definition buildSystemMessage (context : SplunkQueryContext) : Message :=
  SystemMessage
    (systemPreamble
     ++ (match analysisResults context with
         | [] => []
         | results =>
             [10; 10] ++ str "### Analyzed Files:" ++ [10]
             ++ concat (map analysisBlock results)
         end)
     ++ (match conversationHistory context with
         | [] => []
         | turns =>
             [10; 10] ++ str "### Conversation History:" ++ [10]
             ++ concat (map (fun turn =>
                               role turn ++ str ": " ++ content turn ++ [10])
                            turns)
         end)
     ++ systemInstructions).

(** [buildUserMessage] *)
Definition buildUserMessage (context : SplunkQueryContext) : jsstring :=
  str "Please generate a Splunk query for the following request:

"
  ++ userPrompt context
  ++ str "

Use the provided context analysis and apply Splunk best practices. Focus on creating an efficient and accurate query that addresses the specific requirements.".

(** [toolDecisionPrompt] *)
Definition toolDecisionPrompt (context : SplunkQueryContext) : jsstring :=
  str "Given the user's request and the context provided, determine which tools (if any) you need to use to gather additional information before generating a Splunk query.

Available tools:
- web_search: Search for Splunk documentation and best practices
- file_system_grep: Search for patterns in files
- terminal_command: Execute safe shell commands
- folder_file_indexing: List directory contents
- read_file: Read file contents

User request: "
  ++ userPrompt context
  ++ str "

Respond with a JSON object indicating which tools to use and their parameters, or "
  ++ [34]
  ++ str "none"
  ++ [34]
  ++ str " if no additional tools are needed.
Format: {"
  ++ [34]
  ++ str "tools"
  ++ [34]
  ++ str ": [{"
  ++ [34]
  ++ str "name"
  ++ [34]
  ++ str ": "
  ++ [34]
  ++ str "tool_name"
  ++ [34]
  ++ str ", "
  ++ [34]
  ++ str "parameters"
  ++ [34]
  ++ str ": {...}}]} or {"
  ++ [34]
  ++ str "tools"
  ++ [34]
  ++ str ": "
  ++ [34]
  ++ str "none"
  ++ [34]
  ++ str "}".

(** [buildFinalQueryPrompt] *)
Definition buildFinalQueryPrompt (context : SplunkQueryContext)
  (additionalContext : jsstring) : jsstring :=
  str "Generate a Splunk query for: " ++ userPrompt context
  ++ (if truthy additionalContext
      then [10; 10] ++ str "Additional context from tools:"
           ++ additionalContext
      else [])
  ++ str "

Provide the response in the exact format:
QUERY: [Your SPL query]

EXPLANATION: [Your explanation]".

(** The text after the leftmost occurrence of [label], if there is one. *)
Fixpoint afterFirst (label s : jsstring) : option jsstring :=
  if startsWith s label then Some (drop (length label) s)
  else match s with
       | [] => None
       | _ :: s' => afterFirst label s'
       end.

(** What the lazy group [(.*?)] takes before the lookahead
    [(?=\n\nEXPLANATION:|$)] holds: the shortest run up to the separated
    explanation label, or up to the end. *)
Fixpoint upToExplanation (s : jsstring) : jsstring :=
  if startsWith s ([10; 10] ++ str "EXPLANATION:") then []
  else match s with
       | [] => []
       | c :: s' => c :: upToExplanation s'
       end.

(** Group 1 of [response.match(/QUERY:\s*(.*?)(?=\n\nEXPLANATION:|$)/s)]:
    the match starts at the leftmost label, [\s*] takes all the white space
    that follows (whatever comes next, the rest of the pattern matches, so
    nothing is given back), and [.] crosses lines under the [s] flag. *)
Definition queryMatch (response : jsstring) : option jsstring :=
  match afterFirst (str "QUERY:") response with
  | Some rest => Some (upToExplanation (trimStart rest))
  | None => None
  end.

(** Group 1 of [response.match(/EXPLANATION:\s*(.*?)$/s)]: without the [m]
    flag [$] is the end of the input, so the group runs to the end. *)
Definition explanationMatch (response : jsstring) : option jsstring :=
  match afterFirst (str "EXPLANATION:") response with
  | Some rest => Some (trimStart rest)
  | None => None
  end.

(** [m?.[1]?.trim() || fallback] *)
Definition groupOr (m : option jsstring) (fallback : jsstring) : jsstring :=
  match m with
  | Some g => if truthy (trim g) then trim g else fallback
  | None => fallback
  end.

Definition noExplanation : jsstring := str "No explanation provided".

(** [parseQueryResponse] *)
Definition parseQueryResponse (response : jsstring) : jsstring * jsstring :=
  let query := groupOr (queryMatch response) (trim response) in
  let explanation := groupOr (explanationMatch response) noExplanation in
  (query, explanation).

(** The locals that the tool loop updates: [additionalContext] and
    [toolCalls]. *)
Record Locals : Type := mkLocals {
  additionalContext : jsstring;
  toolCalls : list ToolCall
}.

Definition noLocals : Locals := mkLocals [] [].

(** Record on the trace that [tool.execute] is entered. *)
Definition enter (tool : Tool) (params : jsval) : M unit :=
  fun t => (Ret tt, t ++ [EvToolExecute (name tool) params]).

(** [`${v}`] where it is reached: [v] is then the name of a registered
    tool, a string. *)
Definition interpolate (v : jsval) : jsstring :=
  match v with
  | VStr s => s
  | _ => []
  end.

(** One turn of [for (const toolSpec of toolDecision.tools)]. The locals
    change after the last step that can throw. *)
Definition dispatch (w : World) (toolSpec : jsval) (locals : Locals)
  : M Locals :=
  do toolName <- getProp w toolSpec (str "name") ;
  match getTool toolRegistry toolName with
  | Some tool =>
      do params <- getProp w toolSpec (str "parameters") ;
      run enter tool params ;
      do result <- execute tool w params ;
      let calls :=
        toolCalls locals ++ [mkToolCall toolName params (output result)] in
      if success result then
        ret (mkLocals
               (additionalContext locals
                ++ [10; 10] ++ str "--- " ++ interpolate toolName
                ++ str " Output ---" ++ [10] ++ output result)
               calls)
      else ret (mkLocals (additionalContext locals) calls)
  | None => ret locals
  end.

(** The loop inside the [try]: a throw leaves the loop, and the [catch]
    that follows keeps the locals as they are at that point. *)
Fixpoint forEachTool (w : World) (toolSpecs : list jsval) (locals : Locals)
  : M Locals :=
  match toolSpecs with
  | [] => ret locals
  | toolSpec :: rest =>
      do next <- tryCatch (do l <- dispatch w toolSpec locals ; ret (Some l))
                   (fun _ => ret None) ;
      match next with
      | Some locals' => forEachTool w rest locals'
      | None => ret locals
      end
  end.

(** The [try { JSON.parse ... } catch { logger.warn }] of
    [runQueryGeneration]. *)
Definition executeTools (w : World) (toolDecisionResponse : jsstring)
  : M Locals :=
  tryCatch
    (do toolDecision <- lift (JSON_parse w toolDecisionResponse) ;
     do tools <- getProp w toolDecision (str "tools") ;
     (* tools !== 'none' && Array.isArray(tools) *)
     match tools with
     | VArr toolSpecs => forEachTool w toolSpecs noLocals
     | _ => ret noLocals
     end)
    (fun _ => ret noLocals).

(** [runQueryGeneration] *)
Definition runQueryGeneration (w : World) (context : SplunkQueryContext)
  : M QueryResponse :=
  let systemMessage := buildSystemMessage context in
  do toolDecisionResponse <-
    invoke w [systemMessage; HumanMessage (toolDecisionPrompt context)] ;
  do locals <- executeTools w toolDecisionResponse ;
  let finalPrompt :=
    buildFinalQueryPrompt context (additionalContext locals) in
  do response <- invoke w [systemMessage; HumanMessage finalPrompt] ;
  let '(query, explanation) := parseQueryResponse response in
  ret {| status := StatusSuccess;
         query := Some query;
         explanation := Some explanation;
         tool_calls := match toolCalls locals with
                       | [] => None
                       | calls => Some calls
                       end;
         error_message := None |}.

(** [analyzeContextFiles] *)
Fixpoint analyzeContextFiles (w : World) (filePaths : list jsstring)
  : M (list FileAnalysis) :=
  match filePaths with
  | [] => ret []
  | filePath :: rest =>
      do found <-
        tryCatch
          (do readResult <-
             ReadFileTool.execute w
               (VObj [(str "filepath", VStr filePath)]) ;
           if success readResult then
             do analysis <- lift (analyzeFile w filePath (output readResult)) ;
             ret [analysis]
           else ret [])
          (fun _ => ret []) ;
      do others <- analyzeContextFiles w rest ;
      ret (found ++ others)
  end.

(** [generateQuery] *)
Definition generateQuery (w : World) (request : QueryRequest)
  : M QueryResponse :=
  tryCatch
    (do analysisResults <-
       analyzeContextFiles w (default [] (context_files request)) ;
     let context :=
       {| analysisResults := analysisResults;
          userPrompt := prompt request;
          conversationHistory :=
            default [] (conversation_history request) |} in
     runQueryGeneration w context)
    (fun error =>
       ret {| status := StatusError;
              query := None;
              explanation := None;
              tool_calls := None;
              error_message :=
                Some (match error with
                      | JsError m => m
                      | JsThrown => str "Unknown error occurred"
                      end) |}).

End SplunkQueryAgent.

(** * The notions of the design document

    The words of the design document that the source does not define, written
    down as they read, to be compared with what the source computes. *)

Module Design.

Import TerminalCommandTool.

(** The first token delimited by white space. *)
Fixpoint firstToken (s : jsstring) : jsstring :=
  match s with
  | [] => []
  | c :: s' => if isWhiteSpace c then [] else c :: firstToken s'
  end.

(** No dangerous pattern occurs in [s]. *)
Definition matchesNoPattern (s : jsstring) : Prop :=
  forall p, In p dangerousPatterns -> ~ Occurs p s.

(** A command is acceptable: its trimmed form is not empty, matches none
    of the dangerous patterns, and its leading token, taken by [tokenOf],
    is on the allow-list. *)
Definition commandAccepted (tokenOf : jsstring -> jsstring)
  (command : jsstring) : Prop :=
  trim command <> []
  /\ matchesNoPattern (trim command)
  /\ In (tokenOf (trim command)) allowedCommands.

(** A path lies within a root, with regard to the directory boundary: it
    is the root, or it continues the root after a separator. *)
Definition withinRoot (root path : jsstring) : bool :=
  bool_decide (path = root) || startsWith path (root ++ [Path.slash]).

(** The roots of the sandbox, resolved. *)
Definition roots (w : World) : list jsstring :=
  map (Path.resolve (process_cwd w))
    [process_cwd w; sandboxDirectory (config w)].

(** A shell reading a word after its opening double quote: the text left
    after the quote that closes it, if one does. A backslash takes the
    unit after it along. *)
Fixpoint afterClosingQuote (s : jsstring) : option jsstring :=
  match s with
  | [] => None
  | c :: s' =>
      if c =? 34 then Some s'
      else if c =? 92 then
        match s' with
        | [] => None
        | _ :: s'' => afterClosingQuote s''
        end
      else afterClosingQuote s'
  end.

(** The value of the [tools] property when it is an array. *)
Definition toolsArray (v : jsval) : option (list jsval) :=
  match v with
  | VObj fields =>
      match find (fun kv => bool_decide (fst kv = str "tools")) fields with
      | Some (_, VArr toolSpecs) => Some toolSpecs
      | _ => None
      end
  | _ => None
  end.

(** An element of the array that the decision prompt asks for:
    [{"name": "tool_name", "parameters": {...}}]. *)
Definition toolSpecShaped (v : jsval) : bool :=
  match v with
  | VObj fields =>
      match find (fun kv => bool_decide (fst kv = str "name")) fields,
            find (fun kv => bool_decide (fst kv = str "parameters")) fields
      with
      | Some (_, VStr _), Some (_, VObj _) => true
      | _, _ => false
      end
  | _ => false
  end.

(** The structure that the decision prompt asks for:
    [{"tools": [{"name": ..., "parameters": {...}}, ...]}] or
    [{"tools": "none"}]. *)
Definition expectedStructure (v : jsval) : bool :=
  match v with
  | VObj fields =>
      match find (fun kv => bool_decide (fst kv = str "tools")) fields with
      | Some (_, VStr s) => bool_decide (s = str "none")
      | Some (_, VArr toolSpecs) => forallb toolSpecShaped toolSpecs
      | _ => false
      end
  | _ => false
  end.

(** The tool decision does not parse as an array of tools: [JSON.parse]
    throws, or what it builds has no array of tools. *)
Definition notParseable (w : World) (response : jsstring) : Prop :=
  forall v, JSON_parse w response = Ret v -> toolsArray v = None.

(** [label] occurs nowhere in [s]. *)
Definition absent (label s : jsstring) : Prop :=
  forall pre post, s <> pre ++ label ++ post.

(** [m] returns on every trace, with a value in [P]: it throws on none. *)
Definition Returns {A} (P : A -> Prop) (m : M A) : Prop :=
  forall t, exists a t', m t = (Ret a, t') /\ P a.

(** Whenever [m] returns, its value is in [P]. *)
Definition Yields {A} (P : A -> Prop) (m : M A) : Prop :=
  forall t a t', m t = (Ret a, t') -> P a.

(** A result is a success carrying its output, or the failure made of a
    caught exception. *)
Definition Shaped (r : ToolResult) : Prop :=
  (exists out, r = succeeded out) \/ (exists e, r = failed e).

(** What a tool result must satisfy. *)
Definition resultInvariant (r : ToolResult) : Prop :=
  (success r = false -> output r = [])
  /\ (success r = true -> error r = None).

End Design.

(** * A sample deployment

    A process started in [/home/app] with the default settings, an API key
    in its environment, and a directory next to the sandbox whose name
    continues the name of the sandbox. *)

Module Sample.

Definition notes : jsstring :=
  str "/tmp/splunk-agent-sandbox-evil/notes.txt".

Definition bigLog : jsstring := str "/home/app/big.log".

Definition lowerAscii (s : jsstring) : jsstring :=
  map (fun c => if (65 <=? c) && (c <=? 90) then c + 32 else c) s.

Definition world : World :=
  {| process_cwd := str "/home/app";
     process_env :=
       <[str "PATH" := str "/usr/bin"]>
         (<[str "ANTHROPIC_API_KEY" := str "sk-secret"]> ∅);
     config :=
       loadConfig
         (<[str "PATH" := str "/usr/bin"]>
            (<[str "ANTHROPIC_API_KEY" := str "sk-secret"]> ∅));
     fs_stat := fun _ p =>
       if bool_decide (p = notes) then
         Ret (mkStats true false 10 (str "2024-01-01T00:00:00.000Z"))
       else if bool_decide (p = bigLog) then
         Ret (mkStats true false 20000000 (str "2024-01-01T00:00:00.000Z"))
       else Throw (JsError (str "ENOENT: no such file or directory"));
     fs_access := fun _ _ => Ret tt;
     fs_readdir := fun _ _ => Ret [];
     fs_readFile_utf8 := fun _ _ => Ret (str "hello");
     fs_readFile := fun _ _ => Ret [];
     execAsync := fun _ _ _ => Ret ([], []);
     llm_invoke := fun _ _ => Ret (str "index=main error");
     JSON_parse := fun _ => Throw (JsError (str "Unexpected token"));
     typeErrorMessage := str "Cannot read properties of undefined";
     toPrimitiveErrorMessage := str "Cannot convert object to primitive value";
     toLowerCase := lowerAscii;
     formatFileSize := fun z => numberToString z ++ str " B";
     localeCompare := fun _ _ => 0%Z;
     analyzeFile := fun _ _ => Throw JsThrown |}.

(** The sample deployment on another platform: the file system, the child
    processes and [JSON.parse] answer as given. *)
Definition deployment
  (fs_stat' : trace -> jsstring -> outcome Stats)
  (fs_readdir' : trace -> jsstring -> outcome (list Dirent))
  (fs_readFile_utf8' : trace -> jsstring -> outcome jsstring)
  (fs_readFile' : trace -> jsstring -> outcome (list N))
  (execAsync' :
     trace -> jsstring -> ExecOptions -> outcome (jsstring * jsstring))
  (JSON_parse' : jsstring -> outcome jsval) : World :=
  {| process_cwd := process_cwd world;
     process_env := process_env world;
     config := config world;
     fs_stat := fs_stat';
     fs_access := fs_access world;
     fs_readdir := fs_readdir';
     fs_readFile_utf8 := fs_readFile_utf8';
     fs_readFile := fs_readFile';
     execAsync := execAsync';
     llm_invoke := llm_invoke world;
     JSON_parse := JSON_parse';
     typeErrorMessage := typeErrorMessage world;
     toPrimitiveErrorMessage := toPrimitiveErrorMessage world;
     toLowerCase := toLowerCase world;
     formatFileSize := formatFileSize world;
     localeCompare := localeCompare world;
     analyzeFile := analyzeFile world |}.

Definition directoryStats : Stats :=
  mkStats false true 4096 (str "2024-01-01T00:00:00.000Z").

(** Every path is a directory that the process may not read. *)
Definition unreadable : World :=
  deployment
    (fun _ _ => Ret directoryStats)
    (fun _ _ => Throw (JsError (str "EACCES: permission denied")))
    (fs_readFile_utf8 world) (fs_readFile world) (execAsync world)
    (JSON_parse world).

(** Every directory holds one directory, [a]: a tree without a bottom. *)
Definition deep : World :=
  deployment
    (fun _ _ => Ret directoryStats)
    (fun _ _ => Ret [mkDirent (str "a") true])
    (fs_readFile_utf8 world) (fs_readFile world) (execAsync world)
    (JSON_parse world).

(** Reading as text fails; reading as bytes gives three bytes. *)
Definition textless : World :=
  deployment
    (fs_stat world) (fs_readdir world)
    (fun _ _ => Throw (JsError (str "EIO: i/o error")))
    (fun _ _ => Ret [0; 255; 16])
    (execAsync world) (JSON_parse world).



Definition lsSpec : jsval :=
  VObj [(str "name", VStr (str "terminal_command"));
        (str "parameters", VObj [(str "command", VStr (str "ls"))])].

Definition quoted (s : jsstring) : jsstring := [34] ++ s ++ [34].

(** The text
    [{"tools":[{"name":"terminal_command","parameters":{"command":"ls"}},null]}] *)
Definition decisionText : jsstring :=
  str "{" ++ quoted (str "tools") ++ str ":[{"
  ++ quoted (str "name") ++ str ":" ++ quoted (str "terminal_command")
  ++ str "," ++ quoted (str "parameters") ++ str ":{"
  ++ quoted (str "command") ++ str ":" ++ quoted (str "ls")
  ++ str "}},null]}".

(** The model answers the tool decision with [decisionText], an array of
    tools whose second element is [null], and every other call with a
    query and its explanation. *)
Definition eager : World :=
  {| process_cwd := process_cwd world;
     process_env := process_env world;
     config := config world;
     fs_stat := fs_stat world;
     fs_access := fs_access world;
     fs_readdir := fs_readdir world;
     fs_readFile_utf8 := fs_readFile_utf8 world;
     fs_readFile := fs_readFile world;
     execAsync := execAsync world;
     llm_invoke := fun t _ =>
       match t with
       | [] => Ret decisionText
       | _ => Ret (str "QUERY: index=main | head 5" ++ [10; 10]
                   ++ str "EXPLANATION: The first events.")
       end;
     JSON_parse := fun s =>
       if bool_decide (s = decisionText)
       then Ret (VObj [(str "tools", VArr [lsSpec; VNull])])
       else Throw (JsError (str "Unexpected token"));
     typeErrorMessage := typeErrorMessage world;
     toPrimitiveErrorMessage := toPrimitiveErrorMessage world;
     toLowerCase := toLowerCase world;
     formatFileSize := formatFileSize world;
     localeCompare := localeCompare world;
     analyzeFile := analyzeFile world |}.

End Sample.

(** * What the tool loop keeps *)

Module Orchestration.

Import SplunkQueryAgent.

(** [after] comes from [before] by recording at most [n] tool calls: calls
    are appended, the additional context is continued, and it is continued
    only if a call is recorded. *)
Definition extends (n : nat) (before after : Locals) : Prop :=
  exists calls context,
    toolCalls after = toolCalls before ++ calls
    /\ (length calls <= n)%nat
    /\ additionalContext after = additionalContext before ++ context
    /\ (calls = [] -> context = []).

(** A response is well formed: a success carries a query and an explanation
    and no error message, and its tool calls, if any, are not an empty
    list; an error carries a message and nothing else. *)
Definition wellFormed (r : QueryResponse) : Prop :=
  match status r with
  | StatusSuccess =>
      query r <> None /\ explanation r <> None /\ error_message r = None
      /\ tool_calls r <> Some []
  | StatusError =>
      query r = None /\ explanation r = None /\ tool_calls r = None
      /\ error_message r <> None
  end.

End Orchestration.

(** * What a computation does to the world *)

Module Effects.

(** Every effect that [m] performs, from any history, is in [Q]. *)
Definition Emits {A} (Q : event -> Prop) (m : M A) : Prop :=
  forall t, exists events, snd (m t) = t ++ events /\ Forall Q events.

(** The name of an entry as a directory holds it: not empty, without a
    separator, and neither [.] nor [..]. *)
Definition plainName (name : jsstring) : bool :=
  truthy name
  && negb (existsb (N.eqb Path.slash) name)
  && negb (bool_decide (name = [Path.period]))
  && negb (bool_decide (name = [Path.period; Path.period])).

(** Every directory of the file system holds plain names only. *)
Definition plainEntries (w : World) : Prop :=
  forall t dir entries,
    fs_readdir w t dir = Ret entries ->
    Forall (fun entry => plainName (d_name entry) = true) entries.

(** The absolute path made of [segments]. *)
Definition pathOf (segments : list jsstring) : jsstring :=
  Path.slash :: join [Path.slash] segments.

(** The segments of [path.resolve(p)]. *)
Definition resolvedSegments (w : World) (p : jsstring) : list jsstring :=
  Path.normalizeSegments
    (split Path.slash
       (if Path.isAbsolute p then p
        else process_cwd w ++ [Path.slash] ++ p)) [].

(** [path] is the directory of segments [root], or lies at most [n]
    levels below it: its segments are those of [root] followed by at most
    [n] plain names. *)
Definition below (n : nat) (root : list jsstring) (path : jsstring) : Prop :=
  exists names,
    (length names <= n)%nat
    /\ Forall (fun name => plainName name = true) names
    /\ path = pathOf (root ++ names).

(** The effects of a listing that stays within [n] levels below [root]:
    directories are read down to level [n], their entries are looked at
    with [stat], and nothing else is done. *)
Definition listingWithin (n : nat) (root : list jsstring) (ev : event)
  : Prop :=
  match ev with
  | EvReaddir path => below n root path
  | EvStat path => below (S n) root path
  | _ => False
  end.

(** The text path of [readFileContent] fails at [t], leaving the trace
    [t0]: the file does not read as text, or it does and [stat] throws. *)
Definition textFails (w : World) (filePath : jsstring) (t t0 : trace)
  : Prop :=
  ((exists e, fs_readFile_utf8 w t filePath = Throw e)
   /\ t0 = t ++ [EvReadFile filePath true])
  \/ ((exists content e,
          fs_readFile_utf8 w t filePath = Ret content
          /\ fs_stat w (t ++ [EvReadFile filePath true]) filePath = Throw e)
      /\ t0 = t ++ [EvReadFile filePath true; EvStat filePath]).

(** Kinds of effects. *)
Definition noEffect (ev : event) : Prop := False.

Definition spawns (ev : event) : Prop :=
  match ev with EvExec _ _ => True | _ => False end.

Definition probesOrSpawns (ev : event) : Prop :=
  match ev with EvAccess _ | EvExec _ _ => True | _ => False end.

Definition looksAtDirectories (ev : event) : Prop :=
  match ev with EvStat _ | EvReaddir _ => True | _ => False end.

Definition looksAtFiles (ev : event) : Prop :=
  match ev with EvStat _ | EvReadFile _ _ => True | _ => False end.

End Effects.

(** * [src/analysis/codeAnalyzer.ts]: the patterns of a log *)

Module CodeAnalyzer.

(** [\d] *)
Definition digit : regex := RSet isDigit.

(** [r{n}] *)
Fixpoint times (n : nat) (r : regex) : regex :=
  match n with
  | O => REps
  | S n' => RSeq r (times n' r)
  end.

(** [r{1,3}] *)
Definition oneToThree (r : regex) : regex :=
  RSeq r (RAlt REps (RSeq r (RAlt REps r))).

(** [\d{4}-\d{2}-\d{2}], which the source anchors at the start of the
    line *)
Definition isoDate : regex :=
  RSeq (times 4 digit)
    (RSeq (chr 45) (RSeq (times 2 digit) (RSeq (chr 45) (times 2 digit)))).

(** [\[INFO\]|\[ERROR\]|\[WARN\]|\[DEBUG\]] *)
Definition bracketedLevel : regex :=
  RAlt (lit (str "[INFO]"))
    (RAlt (lit (str "[ERROR]"))
       (RAlt (lit (str "[WARN]")) (lit (str "[DEBUG]")))).

(** [\d{1,3}\.\d{1,3}\.\d{1,3}\.\d{1,3}] *)
Definition ipAddress : regex :=
  RSeq (oneToThree digit)
    (RSeq (chr 46)
       (RSeq (oneToThree digit)
          (RSeq (chr 46)
             (RSeq (oneToThree digit)
                (RSeq (chr 46) (oneToThree digit)))))).

(** The three labels that [extractLogPatterns] can push. *)
Definition logLabels : list jsstring :=
  [ str "Log Format: ISO Date";
    str "Log Format: Bracketed Level";
    str "Log Format: Contains IP" ].

(** What one line pushes. *)
Definition linePatterns (line : jsstring) : list jsstring :=
  if truthy (trim line) then
    (if matchesPrefix isoDate line
     then [str "Log Format: ISO Date"] else [])
    ++ (if test bracketedLevel line
        then [str "Log Format: Bracketed Level"] else [])
    ++ (if test ipAddress line
        then [str "Log Format: Contains IP"] else [])
  else [].

(** [[...new Set(patterns)]]: the first occurrence of each element, in
    order; [seen] holds what was met before. *)
Fixpoint dedupeFrom (seen l : list jsstring) : list jsstring :=
  match l with
  | [] => []
  | x :: l' =>
      if arrayIncludes seen x then dedupeFrom seen l'
      else x :: dedupeFrom (x :: seen) l'
  end.

(** [extractLogPatterns] *)
Definition extractLogPatterns (content : jsstring) : list jsstring :=
  let lines := take 50 (split 10 content) in
  dedupeFrom [] (flat_map linePatterns lines).

End CodeAnalyzer.

(** * Properties *)

(** ** Strings *)

Section StringFacts.

Lemma trimStart_keeps (pre post : jsstring) (c : N) :
  isWhiteSpace c = false ->
  exists pre', trimStart (pre ++ c :: post) = pre' ++ c :: post.
Proof.
  intros Hc. induction pre as [|a pre IH]; simpl.
  - rewrite Hc. now exists [].
  - destruct (isWhiteSpace a).
    + exact IH.
    + now exists (a :: pre).
Qed.

Lemma trimEnd_keeps (pre post : jsstring) (c : N) :
  isWhiteSpace c = false ->
  exists post', trimEnd (pre ++ c :: post) = pre ++ c :: post'.
Proof.
  intros Hc. unfold trimEnd.
  rewrite rev_app_distr. simpl. rewrite <- app_assoc. simpl.
  destruct (trimStart_keeps (rev post) (rev pre) c Hc) as [q Hq].
  rewrite Hq, rev_app_distr. simpl.
  rewrite rev_involutive, <- app_assoc. simpl.
  now exists (rev q).
Qed.

(** A run of two units that are not white space survives [trim]. *)
Lemma trim_keeps_pair (pre post : jsstring) (a b : N) :
  isWhiteSpace a = false -> isWhiteSpace b = false ->
  exists pre' post', trim (pre ++ a :: b :: post) = pre' ++ a :: b :: post'.
Proof.
  intros Ha Hb. unfold trim.
  destruct (trimStart_keeps pre (b :: post) a Ha) as [pre' Hs].
  rewrite Hs.
  replace (pre' ++ a :: b :: post) with ((pre' ++ [a]) ++ b :: post)
    by now rewrite <- app_assoc.
  destruct (trimEnd_keeps (pre' ++ [a]) post b Hb) as [post' He].
  rewrite He. exists pre', post'. now rewrite <- app_assoc.
Qed.

(** A unit that is not white space survives [trim]. *)
Lemma trim_keeps (pre post : jsstring) (c : N) :
  isWhiteSpace c = false ->
  exists pre' post', trim (pre ++ c :: post) = pre' ++ c :: post'.
Proof.
  intros Hc. unfold trim.
  destruct (trimStart_keeps pre post c Hc) as [pre' Hs]. rewrite Hs.
  destruct (trimEnd_keeps pre' post c Hc) as [post' He]. rewrite He.
  now exists pre', post'.
Qed.

Lemma startsWith_app (p rest : jsstring) : startsWith (p ++ rest) p = true.
Proof.
  induction p as [|a p IH]; simpl.
  - now destruct rest.
  - now rewrite N.eqb_refl, IH.
Qed.

Lemma startsWith_split (p s : jsstring) :
  startsWith s p = true -> exists rest, s = p ++ rest.
Proof.
  revert s. induction p as [|a p IH]; intros s H.
  - now exists s.
  - destruct s as [|b s]; simpl in H; [discriminate|].
    apply andb_true_iff in H as [Hab Hs].
    apply N.eqb_eq in Hab. subst b.
    destruct (IH s Hs) as [rest ->]. now exists rest.
Qed.

Lemma truthy_nonempty (s : jsstring) : truthy s = true <-> s <> [].
Proof. destruct s; simpl; split; congruence. Qed.

Lemma arrayIncludes_In (l : list jsstring) (x : jsstring) :
  arrayIncludes l x = true <-> In x l.
Proof.
  unfold arrayIncludes. rewrite existsb_exists. split.
  - intros (y & Hy & Heq). apply bool_decide_eq_true in Heq. now subst.
  - intros Hx. exists x. split; [assumption|]. now apply bool_decide_eq_true.
Qed.

End StringFacts.

(** ** Patterns: running by derivatives decides the language *)

Section RegexFacts.

Lemma nullable_Matches (r : regex) : nullable r = true <-> Matches r [].
Proof.
  split.
  - induction r; simpl; intros H; try discriminate.
    + constructor.
    + apply andb_true_iff in H as [H1 H2].
      change (@nil N) with (@nil N ++ @nil N). constructor; auto.
    + apply orb_true_iff in H as [H|H]; [apply MAltL|apply MAltR]; auto.
    + constructor.
  - intros H. remember (@nil N) as s eqn:Hs.
    induction H; simpl; subst; try discriminate; auto.
    + apply app_eq_nil in Hs as [-> ->].
      rewrite IHMatches1, IHMatches2; auto.
    + rewrite IHMatches; auto.
    + rewrite IHMatches; auto using orb_true_r.
Qed.

Lemma Matches_deriv (r : regex) (cs : jsstring) :
  Matches r cs -> forall c s, cs = c :: s -> Matches (deriv c r) s.
Proof.
  induction 1 as [ | p c0 Hp | r1 r2 s1 s2 H1 IH1 H2 IH2
                 | r1 r2 s0 H0 IH | r1 r2 s0 H0 IH
                 | r0 | r0 s1 s2 H1 IH1 H2 IH2 ];
    intros c s E; simpl.
  - discriminate.
  - injection E as -> <-. rewrite Hp. constructor.
  - destruct s1 as [|a s1'].
    + simpl in E. subst s2.
      apply nullable_Matches in H1. rewrite H1.
      apply MAltR. now apply IH2.
    + simpl in E. injection E as Ea Es. subst a s.
      specialize (IH1 c s1' eq_refl).
      destruct (nullable r1).
      * apply MAltL. now constructor.
      * now constructor.
  - apply MAltL. now apply IH.
  - apply MAltR. now apply IH.
  - discriminate.
  - destruct s1 as [|a s1'].
    + simpl in E. subst s2. now apply IH2.
    + simpl in E. injection E as Ea Es. subst a s.
      constructor; [now apply IH1 | assumption].
Qed.

Lemma deriv_Matches (c : N) (r : regex) :
  forall s, Matches (deriv c r) s -> Matches r (c :: s).
Proof.
  induction r as [ | | p | r1 IH1 r2 IH2 | r1 IH1 r2 IH2 | r1 IH1 ];
    simpl; intros s H.
  - inversion H.
  - inversion H.
  - destruct (p c) eqn:Hp; inversion H; subst. now constructor.
  - destruct (nullable r1) eqn:Hn.
    + inversion H as [ | | | ? ? ? HL | ? ? ? HR | | ]; subst.
      * inversion HL as [ | | ? ? s1 s2 Ha Hb | | | | ]; subst.
        change (c :: s1 ++ s2) with ((c :: s1) ++ s2).
        constructor; auto.
      * change (c :: s) with ([] ++ c :: s).
        constructor; [now apply nullable_Matches | auto].
    + inversion H as [ | | ? ? s1 s2 Ha Hb | | | | ]; subst.
      change (c :: s1 ++ s2) with ((c :: s1) ++ s2).
      constructor; auto.
  - inversion H; subst; [apply MAltL | apply MAltR]; auto.
  - inversion H as [ | | ? ? s1 s2 Ha Hb | | | | ]; subst.
    change (c :: s1 ++ s2) with ((c :: s1) ++ s2).
    constructor; auto.
Qed.

Lemma accepts_Matches (s : jsstring) :
  forall r, accepts r s = true <-> Matches r s.
Proof.
  induction s as [|c s IH]; intros r; simpl.
  - apply nullable_Matches.
  - rewrite IH. split.
    + apply deriv_Matches.
    + intros H. now apply (Matches_deriv r (c :: s)).
Qed.

Lemma matchesPrefix_spec (s : jsstring) :
  forall r, matchesPrefix r s = true <->
            exists m post, s = m ++ post /\ Matches r m.
Proof.
  induction s as [|c s IH]; intros r; simpl.
  - rewrite orb_false_r, nullable_Matches. split.
    + intros H. now exists [], [].
    + intros (m & post & E & H).
      symmetry in E. apply app_eq_nil in E as [-> _]. assumption.
  - rewrite orb_true_iff, IH, nullable_Matches. split.
    + intros [H | (m & post & -> & H)].
      * now exists [], (c :: s).
      * exists (c :: m), post. split; [reflexivity|].
        now apply deriv_Matches.
    + intros (m & post & E & H). destruct m as [|a m].
      * now left.
      * simpl in E. injection E as <- ->. right.
        exists m, post. split; [reflexivity|].
        now apply (Matches_deriv r (c :: m)).
Qed.

(** [test] holds exactly of the strings in which the pattern occurs. *)
Lemma test_Occurs (r : regex) (s : jsstring) :
  test r s = true <-> Occurs r s.
Proof.
  unfold Occurs. induction s as [|c s IH].
  - change (test r []) with (matchesPrefix r [] || false).
    rewrite orb_false_r, matchesPrefix_spec. split.
    + intros (m & post & E & H). now exists [], m, post.
    + intros (pre & m & post & E & H).
      symmetry in E. apply app_eq_nil in E as [-> E].
      apply app_eq_nil in E as [-> ->]. now exists [], [].
  - change (test r (c :: s)) with (matchesPrefix r (c :: s) || test r s).
    rewrite orb_true_iff, IH, matchesPrefix_spec. split.
    + intros [(m & post & E & H) | (pre & m & post & -> & H)].
      * now exists [], m, post.
      * now exists (c :: pre), m, post.
    + intros (pre & m & post & E & H). destruct pre as [|a pre].
      * left. now exists m, post.
      * simpl in E. injection E as <- ->. right. now exists pre, m, post.
Qed.

Lemma Matches_lit (s : jsstring) : Matches (lit s) s.
Proof.
  induction s as [|c s IH]; simpl.
  - constructor.
  - change (c :: s) with ([c] ++ s). constructor; [|assumption].
    constructor. apply N.eqb_refl.
Qed.

Lemma Occurs_app (r : regex) (pre s post : jsstring) :
  Occurs r s -> Occurs r (pre ++ s ++ post).
Proof.
  intros (a & m & b & -> & H). exists (pre ++ a), m, (b ++ post).
  split; [|assumption]. now rewrite <- !app_assoc.
Qed.

End RegexFacts.

(** ** The command guard *)

Section CommandGuardFacts.

Import TerminalCommandTool Design.

(** Reduce the conditionals of a guard once their tests are known. *)
Ltac reduce_verdict :=
  cbn [negb orb andb Validation.valid Validation.error
       Validation.rejected Validation.accepted].

Lemma existsb_test_false (s : jsstring) (l : list regex) :
  existsb (fun pattern => test pattern s) l = false <->
  (forall p, In p l -> ~ Occurs p s).
Proof.
  rewrite <- not_true_iff_false, existsb_exists. split.
  - intros H p Hp Ho. apply H. exists p. split; [assumption|].
    now apply test_Occurs.
  - intros H (p & Hp & Ht). apply (H p Hp). now apply test_Occurs.
Qed.

Lemma allowedCommands_plain (x : jsstring) :
  In x allowedCommands ->
  truthy x = true /\ forallb (fun c => negb (isWhiteSpace c)) x = true.
Proof.
  assert (H : forallb (fun x => truthy x
                        && forallb (fun c => negb (isWhiteSpace c)) x)
                allowedCommands = true) by (vm_compute; reflexivity).
  rewrite forallb_forall in H. intros Hx.
  now apply andb_true_iff, H.
Qed.

(** Up to the first white space and up to the first space agree when the
    latter holds no white space. *)
Lemma firstToken_splitHead (s : jsstring) :
  forallb (fun c => negb (isWhiteSpace c)) (splitHead 32 s) = true ->
  firstToken s = splitHead 32 s.
Proof.
  induction s as [|c s IH]; simpl; [reflexivity|].
  destruct (c =? 32) eqn:Hc.
  - apply N.eqb_eq in Hc. subst c. reflexivity.
  - simpl. intros H. apply andb_true_iff in H as [Hw Hr].
    apply negb_true_iff in Hw. rewrite Hw. f_equal. now apply IH.
Qed.

(** The verdict of [validateCommand], with the token that the source
    takes. *)
Lemma validateCommand_valid (command : jsstring) :
  Validation.valid (validateCommand command) = true <->
  commandAccepted (splitHead 32) command.
Proof.
  unfold validateCommand, commandAccepted, matchesNoPattern.
  destruct (truthy (trim command)) eqn:Ht; reduce_verdict.
  - destruct (existsb (fun pattern => test pattern (trim command))
                dangerousPatterns) eqn:Hp; reduce_verdict.
    + split; [discriminate|]. intros (_ & Hno & _).
      apply (proj2 (existsb_test_false _ _)) in Hno. congruence.
    + pose proof (proj1 (existsb_test_false _ _) Hp) as Hno.
      destruct (truthy (splitHead 32 (trim command))) eqn:Hb;
        reduce_verdict.
      * destruct (arrayIncludes allowedCommands
                    (splitHead 32 (trim command))) eqn:Ha; reduce_verdict.
        -- split; [|reflexivity]. intros _. repeat split.
           ++ now apply truthy_nonempty.
           ++ exact Hno.
           ++ now apply arrayIncludes_In.
        -- split; [discriminate|]. intros (_ & _ & Hin).
           apply arrayIncludes_In in Hin. congruence.
      * split; [discriminate|]. intros (_ & _ & Hin).
        apply allowedCommands_plain in Hin as [Hin _]. congruence.
  - split; [discriminate|]. intros (Hne & _).
    apply truthy_nonempty in Hne. congruence.
Qed.

(** A command in which a pattern occurs after trimming is refused for
    that reason. *)
Lemma validateCommand_dangerous (command : jsstring) (p : regex) :
  In p dangerousPatterns -> Occurs p (trim command) ->
  validateCommand command
  = Validation.rejected (str "Command contains dangerous patterns").
Proof.
  intros Hp Ho. unfold validateCommand.
  assert (Hne : truthy (trim command) = true).
  { apply truthy_nonempty. intros E. rewrite E in Ho.
    assert (Hf : existsb (fun q => test q []) dangerousPatterns = false)
      by (vm_compute; reflexivity).
    now apply (proj1 (existsb_test_false _ _) Hf p). }
  assert (He : existsb (fun q => test q (trim command)) dangerousPatterns
               = true).
  { apply existsb_exists. exists p. split; [assumption|].
    now apply test_Occurs. }
  rewrite Hne, He. reflexivity.
Qed.

End CommandGuardFacts.

Section CommandGuardClaims.

Import TerminalCommandTool Design.

Lemma metacharacter_occurs (command : jsstring) (c : N) :
  In c (str ";&|`$(){}[]") -> In c command ->
  Occurs shellMetacharacters (trim command).
Proof.
  intros Hc Hin.
  assert (Hw : isWhiteSpace c = false).
  { assert (H : forallb (fun c => negb (isWhiteSpace c))
                  (str ";&|`$(){}[]") = true) by (vm_compute; reflexivity).
    rewrite forallb_forall in H. now apply negb_true_iff, H. }
  apply in_split in Hin as (pre & post & ->).
  destruct (trim_keeps pre post c Hw) as (pre' & post' & ->).
  exists pre', [c], post'. split; [reflexivity|].
  constructor. apply existsb_exists. exists c. split; [assumption|].
  apply N.eqb_refl.
Qed.

(** What [validateCommand] computes: it answers valid exactly when the
    trimmed command is not empty, none of the dangerous patterns occurs in
    it, and its text before the first space (U+0020) is on the allow-list.
    A command holding a shell metacharacter is refused whatever its
    leading token, and a command whose first token delimited by white
    space is not on the allow-list is refused whatever else it holds. *)
Lemma validateCommand_characterised :
  (forall command,
      Validation.valid (validateCommand command) = true <->
      commandAccepted (splitHead 32) command)
  /\ (forall command c,
         In c (str ";&|`$(){}[]") -> In c command ->
         Validation.valid (validateCommand command) = false)
  /\ (forall command,
         ~ In (firstToken (trim command)) allowedCommands ->
         Validation.valid (validateCommand command) = false).
Proof.
  split; [exact validateCommand_valid | split].
  - intros command c Hc Hin.
    rewrite (validateCommand_dangerous command shellMetacharacters).
    + reflexivity.
    + simpl. auto.
    + now apply (metacharacter_occurs command c).
  - intros command Hnot.
    destruct (Validation.valid (validateCommand command)) eqn:Hv;
      [|reflexivity].
    exfalso. apply Hnot.
    apply validateCommand_valid in Hv as (_ & _ & Hin).
    rewrite firstToken_splitHead; [assumption|].
    now apply allowedCommands_plain.
Qed.

(** C3, at the input where it fails. The arguments of [ls<TAB>-la]
    follow a tab: the trimmed command is not empty, no dangerous pattern
    occurs in it, and its first word, the token delimited by white space,
    is [ls], which is on the allow-list. [validateCommand] refuses it all
    the same: [split(' ')[0]], which the source calls the first word, is
    the text before the first space, here the whole command, and the
    terminal tool fails without running anything. The same command with
    a space in place of the tab is accepted. *)
Theorem C3_tab_separated_refused :
  commandAccepted firstToken (str "ls" ++ [9] ++ str "-la")
  /\ firstToken (trim (str "ls" ++ [9] ++ str "-la")) = str "ls"
  /\ splitHead 32 (trim (str "ls" ++ [9] ++ str "-la"))
     = str "ls" ++ [9] ++ str "-la"
  /\ validateCommand (str "ls" ++ [9] ++ str "-la")
     = Validation.rejected
         (str "Command 'ls" ++ [9] ++ str "-la' is not in the allowed list")
  /\ execute Sample.world
       (VObj [(str "command", VStr (str "ls" ++ [9] ++ str "-la"))]) []
     = (Ret {| success := false;
               output := [];
               error :=
                 Some (str "Command 'ls" ++ [9]
                       ++ str "-la' is not in the allowed list") |},
        [])
  /\ validateCommand (str "ls -la") = Validation.accepted.
Proof.
  split; [repeat split|].
  - intros E. vm_compute in E. discriminate.
  - refine (proj1 (existsb_test_false _ _) _). vm_compute. reflexivity.
  - apply arrayIncludes_In. vm_compute. reflexivity.
  - repeat apply conj; vm_compute; reflexivity.
Qed.

(** C10. Every command line in which the two letters [su] occur next to
    each other, at any place and inside any word, is refused by
    [validateCommand] as containing a dangerous pattern; so is
    [ls results.txt], whose leading token is on the allow-list. *)
Theorem C10_su_substring_refused :
  (forall pre post,
      validateCommand (pre ++ str "su" ++ post)
      = Validation.rejected (str "Command contains dangerous patterns"))
  /\ In (str "ls") allowedCommands
  /\ validateCommand (str "ls results.txt")
     = Validation.rejected (str "Command contains dangerous patterns").
Proof.
  split; [|split].
  - intros pre post.
    apply (validateCommand_dangerous _ privilegeEscalation).
    + simpl. auto 10.
    + change (pre ++ str "su" ++ post) with (pre ++ 115 :: 117 :: post).
      destruct (trim_keeps_pair pre post 115 117 eq_refl eq_refl)
        as (pre' & post' & ->).
      exists pre', (str "su"), post'. split; [reflexivity|].
      apply MAltR. apply Matches_lit.
  - apply arrayIncludes_In. vm_compute. reflexivity.
  - vm_compute. reflexivity.
Qed.

End CommandGuardClaims.

(** ** Computations *)

Section Computations.

Import Design.

Lemma Yields_ret {A} (P : A -> Prop) (a : A) : P a -> Yields P (ret a).
Proof. intros H t a' t' E. injection E as <- _. exact H. Qed.

Lemma Yields_throw {A} (P : A -> Prop) (e : exn) : Yields P (throw e).
Proof. intros t a t' E. discriminate. Qed.

Lemma Yields_bind {A B} (P : B -> Prop) (m : M A) (k : A -> M B) :
  (forall a, Yields P (k a)) -> Yields P (bind m k).
Proof.
  intros H t b t' E. unfold bind in E.
  destruct (m t) as [[a|e] t1]; [|discriminate].
  exact (H a t1 b t' E).
Qed.

(** The shape of every [execute]: a body whose returns are successes,
    inside a [catch] that turns what is thrown into a failure. *)
Lemma caught_Returns (P : ToolResult -> Prop) (body : M ToolResult) :
  Yields P body -> (forall e, P (failed e)) ->
  Returns P (tryCatch body (fun error => ret (failed error))).
Proof.
  intros Hb Hf t. unfold tryCatch.
  destruct (body t) as [[r|e] t1] eqn:E.
  - exists r, t1. split; [reflexivity|]. exact (Hb t r t1 E).
  - exists (failed e), t1. split; [reflexivity|]. apply Hf.
Qed.

End Computations.

(** Decompose a body into its steps, down to its [ret]s and [throw]s. *)
Ltac yields :=
  repeat first
    [ apply Yields_ret
    | apply Yields_throw
    | apply Yields_bind; intros ?
    | progress cbv zeta
    | match goal with
      | |- Design.Yields _ (if ?b then _ else _) => destruct b
      | |- Design.Yields _ (let '(_, _) := ?p in _) => destruct p
      end ].

(** ** The five tools *)

Section ToolFacts.

Import ToolRegistry Design.

Lemma execute_Shaped :
  Forall (fun tool => forall w parameters,
              Returns Shaped (execute tool w parameters))
         toolInstances.
Proof.
  unfold toolInstances.
  repeat (apply List.Forall_cons;
          [ intros w parameters; simpl;
            apply caught_Returns;
            [ yields; left; eexists; reflexivity
            | intros e; right; now exists e ]
          | ]).
  apply List.Forall_nil.
Qed.

(** C9. Every [ToolResult] that one of the five tools produces satisfies:
    [success = false] implies that [output] is the empty string, and
    [success = true] implies that [error] is absent. *)
Theorem C9_tool_result_invariant :
  Forall (fun tool =>
            forall w parameters t,
            exists result t',
              execute tool w parameters t = (Ret result, t')
              /\ resultInvariant result)
         toolInstances.
Proof.
  eapply List.Forall_impl; [|exact execute_Shaped].
  intros tool H w parameters t.
  destruct (H w parameters t) as (r & t' & E & Hr).
  exists r, t'. split; [exact E|].
  destruct Hr as [[out ->] | [e ->]]; split; simpl; congruence.
Qed.

End ToolFacts.

(** ** The file-read tool and the size ceiling *)

Section FileReadFacts.

Import ReadFileTool.

Variable w : World.

Lemma exceeds_above (size ceiling : Z) :
  (ceiling < size)%Z -> exceeds size (Some ceiling) = Some ceiling.
Proof.
  intros H. unfold exceeds.
  destruct (ceiling <? size)%Z eqn:E; [reflexivity|].
  apply Z.ltb_ge in E. lia.
Qed.

(** Validation of a regular file above the ceiling: one [stat], and the
    reason that names both sizes. *)
Lemma validateFile_tooLarge (filepath : jsstring) (t : trace)
  (stats : Stats) (ceiling : Z) :
  fs_stat w t (Path.resolve (process_cwd w) filepath) = Ret stats ->
  isFile stats = true ->
  maxFileSize (config w) = Some ceiling ->
  (ceiling < size stats)%Z ->
  validateFile w (VStr filepath) t
  = (Ret (Validation.rejected (tooLarge (size stats) ceiling)),
     t ++ [EvStat (Path.resolve (process_cwd w) filepath)]).
Proof.
  intros Hstat Hfile Hmax Hlt.
  unfold validateFile, tryCatch, bind, path_resolve, asString, bind, ret,
    stat, perform.
  rewrite Hstat, Hfile, Hmax, (exceeds_above _ _ Hlt). reflexivity.
Qed.

(** C6. A request to read a regular file whose size is above the
    configured maximum fails with the reason that validation gives, which
    names the size of the file and the maximum; the only effect of the
    request is the [stat] of validation: the content of the file is not
    read. *)
Theorem C6_oversized_file_not_read (parameters : jsval)
  (filepath : jsstring) (t : trace) (stats : Stats) (ceiling : Z) :
  getProp w parameters (str "filepath") = ret (VStr filepath) ->
  fs_stat w t (Path.resolve (process_cwd w) filepath) = Ret stats ->
  isFile stats = true ->
  maxFileSize (config w) = Some ceiling ->
  (ceiling < size stats)%Z ->
  execute w parameters t
  = (Ret {| success := false;
            output := [];
            error := Some (tooLarge (size stats) ceiling) |},
     t ++ [EvStat (Path.resolve (process_cwd w) filepath)])
  /\ validateFile w (VStr filepath) t
     = (Ret (Validation.rejected (tooLarge (size stats) ceiling)),
        t ++ [EvStat (Path.resolve (process_cwd w) filepath)])
  /\ (forall path utf8,
         ~ In (EvReadFile path utf8)
             [EvStat (Path.resolve (process_cwd w) filepath)]).
Proof.
  intros Hprop Hstat Hfile Hmax Hlt.
  pose proof (validateFile_tooLarge filepath t stats ceiling
                Hstat Hfile Hmax Hlt) as Hv.
  split; [|split; [exact Hv|]].
  - unfold execute, tryCatch. unfold bind at 1. rewrite Hprop.
    unfold ret at 1. unfold logged. cbn [interpolates].
    unfold bind at 1, ret at 1. unfold bind at 1. rewrite Hv. reflexivity.
  - intros path utf8 [H|[]]. discriminate.
Qed.

End FileReadFacts.

(** C6 at work: the 20 MB log of the sample deployment, under the default
    ceiling of 10 MB. *)
Lemma C6_oversized_file_witness :
  ReadFileTool.execute Sample.world
    (VObj [(str "filepath", VStr (str "big.log"))]) []
  = (Ret {| success := false;
            output := [];
            error := Some (str "File size (20000000 bytes) exceeds maximum allowed size (10485760 bytes)") |},
     [EvStat (str "/home/app/big.log")]).
Proof.
  refine (proj1 (C6_oversized_file_not_read Sample.world
                   (VObj [(str "filepath", VStr (str "big.log"))])
                   (str "big.log") []
                   (mkStats true false 20000000
                      (str "2024-01-01T00:00:00.000Z"))
                   10485760%Z _ _ _ _ _)).
  - reflexivity.
  - vm_compute. reflexivity.
  - reflexivity.
  - reflexivity.
  - simpl. lia.
Defined.

(** ** Where the code departs from its own comments *)

Section Departures.

Import Design.

(** Whatever the process has in its environment reaches the child: the
    options of the terminal tool carry every variable beside [PATH]. *)
Lemma execOptions_env_forwards (w : World) (k : jsstring) :
  k <> str "PATH" ->
  exists vars,
    env (TerminalCommandTool.execOptions w) = Some vars
    /\ vars !! k = process_env w !! k.
Proof.
  intros Hk. eexists. split; [reflexivity|].
  apply lookup_insert_ne. congruence.
Qed.

(** An accepted command runs trimmed, once, under [execOptions]. *)
Lemma terminal_accepted_runs (w : World) (parameters : jsval)
  (command : jsstring) (t : trace) :
  getProp w parameters (str "command") = ret (VStr command) ->
  Validation.valid (TerminalCommandTool.validateCommand command) = true ->
  snd (TerminalCommandTool.execute w parameters t)
  = t ++ [EvExec (trim command) (TerminalCommandTool.execOptions w)].
Proof.
  intros Hp Hv.
  unfold TerminalCommandTool.execute, tryCatch. unfold bind at 1.
  rewrite Hp. unfold ret at 1. unfold logged. cbn [interpolates].
  unfold bind at 1, ret at 1. unfold asString, bind at 1. unfold ret at 1.
  rewrite Hv. cbn [negb]. unfold bind, exec, perform,
    TerminalCommandTool.sanitizeCommand.
  destruct (execAsync w t (trim command) (TerminalCommandTool.execOptions w))
    as [[stdout stderr]|e]; reflexivity.
Qed.

(** What [isAllowed] asks of a path: that one of the resolved roots is a
    prefix of it, as a string. *)
Lemma isAllowed_prefix (w : World) (path : jsstring) :
  isAllowed w path = true <->
  exists root rest, In root (roots w) /\ path = root ++ rest.
Proof.
  unfold isAllowed, roots. rewrite existsb_exists. split.
  - intros (allowedPath & Hin & Hs).
    apply startsWith_split in Hs as [rest ->].
    exists (Path.resolve (process_cwd w) allowedPath), rest.
    split; [|reflexivity]. now apply in_map.
  - intros (root & rest & Hin & ->).
    apply in_map_iff in Hin as (allowedPath & <- & Hin).
    exists allowedPath. split; [assumption|]. apply startsWith_app.
Qed.

(** C1, at the input where it fails. In the sample deployment the
    accepted command [ls] is run with a timeout of 30 s, a buffer of 1 MB
    and the working directory of the process, but with an environment in
    which the API key of the process is present beside [PATH]. *)
Theorem C1_ambient_environment_forwarded :
  Validation.valid (TerminalCommandTool.validateCommand (str "ls")) = true
  /\ TerminalCommandTool.execute Sample.world
       (VObj [(str "command", VStr (str "ls"))]) []
     = (Ret (succeeded []),
        [EvExec (str "ls") (TerminalCommandTool.execOptions Sample.world)])
  /\ timeout (TerminalCommandTool.execOptions Sample.world) = Some 30000%Z
  /\ maxBuffer (TerminalCommandTool.execOptions Sample.world)
     = Some 1048576%Z
  /\ cwd (TerminalCommandTool.execOptions Sample.world)
     = Some (str "/home/app")
  /\ exists vars,
       env (TerminalCommandTool.execOptions Sample.world) = Some vars
       /\ vars !! str "PATH" = Some (str "/usr/bin")
       /\ vars !! str "ANTHROPIC_API_KEY" = Some (str "sk-secret").
Proof.
  repeat split.
  eexists. split; [reflexivity|]. split.
  - apply lookup_insert_eq.
  - rewrite lookup_insert_ne by discriminate.
    simpl. rewrite lookup_insert_ne by discriminate.
    apply lookup_insert_eq.
Qed.

(** C2, at the input where it fails. [/tmp/splunk-agent-sandbox-evil] is
    a sibling of the sandbox whose name continues the name of the
    sandbox. A file in it is its own canonical path and lies within
    neither root, yet the file-read tool and the search tool take it as
    allowed, because [isAllowed] compares by [startsWith] without regard
    to the separator. *)
Theorem C2_sibling_directory_accepted :
  Path.resolve (process_cwd Sample.world) Sample.notes = Sample.notes
  /\ existsb (fun root => withinRoot root Sample.notes) (roots Sample.world)
     = false
  /\ isAllowed Sample.world Sample.notes = true
  /\ ReadFileTool.validateFile Sample.world (VStr Sample.notes) []
     = (Ret Validation.accepted, [EvStat Sample.notes])
  /\ FileSystemGrepTool.validatePath Sample.world (VStr Sample.notes) []
     = (Ret Validation.accepted, [EvAccess Sample.notes]).
Proof. repeat split; vm_compute; reflexivity. Qed.

(** C4, at the input where it fails. [sanitizePattern] leaves a double
    quote as it is. With the pattern [" /etc/passwd "] the command line
    that the search tool runs closes its pattern argument at the first
    quote of the pattern, so that [/etc/passwd] stands on the command
    line as a word of its own. *)
Theorem C4_double_quote_not_escaped :
  let pattern := [34] ++ str " /etc/passwd " ++ [34] in
  FileSystemGrepTool.sanitizePattern pattern = pattern
  /\ afterClosingQuote
       (FileSystemGrepTool.sanitizePattern pattern
        ++ [34] ++ str " " ++ [34] ++ str "/home/app" ++ [34])
     = Some (str " /etc/passwd " ++ [34; 34] ++ str " "
             ++ [34] ++ str "/home/app" ++ [34])
  /\ snd (FileSystemGrepTool.execute Sample.world
            (VObj [(str "pattern", VStr pattern);
                   (str "path", VStr (str "/home/app"))]) [])
     = [EvAccess (str "/home/app");
        EvExec
          (str "grep -r -n -H --include=" ++ [34]
           ++ str "*.{js,ts,py,java,xml,json,csv,txt,log,yml,yaml,config,properties,ini}"
           ++ [34] ++ str " " ++ [34; 34] ++ str " /etc/passwd " ++ [34; 34]
           ++ str " " ++ [34] ++ str "/home/app" ++ [34])
          FileSystemGrepTool.execOptions].
Proof. repeat split; vm_compute; reflexivity. Qed.

End Departures.

(** ** The orchestration loop *)

Section AgentFacts.

Import SplunkQueryAgent Design.

Lemma afterFirst_unfold (label s : jsstring) :
  afterFirst label s
  = if startsWith s label then Some (drop (length label) s)
    else match s with
         | [] => None
         | _ :: s' => afterFirst label s'
         end.
Proof. destruct s; reflexivity. Qed.

(** [afterFirst] finds the label exactly when it occurs. *)
Lemma afterFirst_None (label s : jsstring) :
  afterFirst label s = None <-> absent label s.
Proof.
  unfold absent. induction s as [|c s IH]; rewrite afterFirst_unfold.
  - destruct (startsWith [] label) eqn:E.
    + split; [discriminate|]. intros H.
      apply startsWith_split in E as [rest E]. now destruct (H [] rest).
    + split; [|reflexivity]. intros _ pre post Eq.
      symmetry in Eq. apply app_eq_nil in Eq as [-> Eq].
      apply app_eq_nil in Eq as [-> ->]. discriminate.
  - destruct (startsWith (c :: s) label) eqn:E.
    + split; [discriminate|]. intros H.
      apply startsWith_split in E as [rest E]. now destruct (H [] rest).
    + rewrite IH. split.
      * intros H pre post Eq. destruct pre as [|a pre].
        -- simpl in Eq. rewrite Eq, startsWith_app in E. discriminate.
        -- simpl in Eq. injection Eq as _ Eq. now apply (H pre post).
      * intros H pre post Eq. apply (H (c :: pre) post).
        simpl. now rewrite Eq.
Qed.

(** C8, as amended. When the explanation label is absent from the final
    output, the explanation is the fixed text [No explanation provided];
    when the query label is absent, the query is the whole output with the
    white space around it trimmed. [parseQueryResponse] is a total
    function: no output makes the parsing fail. *)
Theorem C8_parseQueryResponse_fallbacks (response : jsstring) :
  (absent (str "EXPLANATION:") response ->
   snd (parseQueryResponse response) = str "No explanation provided")
  /\ (absent (str "QUERY:") response ->
      fst (parseQueryResponse response) = trim response)
  /\ exists query explanation,
       parseQueryResponse response = (query, explanation).
Proof.
  unfold parseQueryResponse, queryMatch, explanationMatch.
  split; [|split].
  - intros H. apply afterFirst_None in H. simpl. now rewrite H.
  - intros H. apply afterFirst_None in H. simpl. now rewrite H.
  - eauto.
Qed.

(** C8 at work: an output that carries neither label. *)
Lemma C8_fallbacks_witness :
  snd (parseQueryResponse (str "index=main error"))
  = str "No explanation provided"
  /\ fst (parseQueryResponse (str "index=main error"))
     = trim (str "index=main error").
Proof.
  destruct (C8_parseQueryResponse_fallbacks (str "index=main error"))
    as (He & Hq & _).
  split.
  - apply He. apply afterFirst_None. vm_compute. reflexivity.
  - apply Hq. apply afterFirst_None. vm_compute. reflexivity.
Defined.

(** C8, as stated, fails on an output with white space around it: the
    query label is absent, and the query is not the raw output but the
    output trimmed. *)
Lemma C8_fallback_is_trimmed :
  absent (str "QUERY:") (str " index=main ")
  /\ fst (parseQueryResponse (str " index=main ")) = str "index=main"
  /\ fst (parseQueryResponse (str " index=main ")) <> str " index=main ".
Proof.
  split; [|split].
  - apply afterFirst_None. vm_compute. reflexivity.
  - vm_compute. reflexivity.
  - vm_compute. discriminate.
Qed.

(** A decision that does not parse leaves the locals of the loop as they
    start, and performs no effect. *)
Lemma executeTools_notParseable (w : World) (decision : jsstring)
  (t : trace) :
  notParseable w decision ->
  executeTools w decision t = (Ret noLocals, t).
Proof.
  intros H. unfold executeTools, tryCatch, bind, lift.
  destruct (JSON_parse w decision) as [v|e] eqn:E; [|reflexivity].
  specialize (H v E).
  destruct v as [ | | b | z | s | items | fields ]; try reflexivity.
  unfold toolsArray in H. simpl.
  destruct (find (fun kv => bool_decide (fst kv = str "tools")) fields)
    as [[k [ | | b | z | s | items | fs ]]|]; try reflexivity.
  discriminate.
Qed.

End AgentFacts.

(** ** The definitions at work *)

Section Examples.

Import TerminalCommandTool SplunkQueryAgent.

Example validateCommand_ls : validateCommand (str "  ls -la ") = Validation.accepted.
Proof. vm_compute. reflexivity. Qed.

Example validateCommand_empty :
  validateCommand (str "   ")
  = Validation.rejected (str "Command cannot be empty").
Proof. vm_compute. reflexivity. Qed.

Example validateCommand_rm :
  validateCommand (str "rm -rf /")
  = Validation.rejected (str "Command contains dangerous patterns").
Proof. vm_compute. reflexivity. Qed.

Example validateCommand_pipe :
  validateCommand (str "ls | wc")
  = Validation.rejected (str "Command contains dangerous patterns").
Proof. vm_compute. reflexivity. Qed.

Example validateCommand_curl :
  validateCommand (str "curl http://x -o y")
  = Validation.rejected (str "Command contains dangerous patterns").
Proof. vm_compute. reflexivity. Qed.

Example validateCommand_unlisted :
  validateCommand (str "echo hi")
  = Validation.rejected (str "Command 'echo' is not in the allowed list").
Proof. vm_compute. reflexivity. Qed.

Example resolve_relative :
  Path.resolve (str "/home/app") (str "../x/./y.txt") = str "/home/x/y.txt".
Proof. vm_compute. reflexivity. Qed.

Example resolve_absolute :
  Path.resolve (str "/home/app") (str "/tmp//a/../b/") = str "/tmp/b".
Proof. vm_compute. reflexivity. Qed.

Example extname_txt : Path.extname (str "/tmp/a.b/notes.txt") = str ".txt".
Proof. vm_compute. reflexivity. Qed.

Example extname_hidden : Path.extname (str "/tmp/.bashrc") = [].
Proof. vm_compute. reflexivity. Qed.

Example extname_trailing_slash :
  Path.extname (str "/tmp/notes.txt/") = str ".txt".
Proof. vm_compute. reflexivity. Qed.

Example interpolates_toString :
  interpolates (VObj [(str "toString", VNum 5)]) = false
  /\ interpolates (VArr [VNull; VObj []]) = true.
Proof. split; reflexivity. Qed.

Example parse_both_labels :
  parseQueryResponse
    (str "QUERY: index=main | stats count" ++ [10; 10]
     ++ str "EXPLANATION: counts the events" ++ [10])
  = (str "index=main | stats count", str "counts the events").
Proof. vm_compute. reflexivity. Qed.

Example parse_no_label :
  parseQueryResponse (str "index=main")
  = (str "index=main", str "No explanation provided").
Proof. vm_compute. reflexivity. Qed.

Example sanitizePattern_dollar :
  FileSystemGrepTool.sanitizePattern (str "$(id)") = str "\$\(id\)".
Proof. vm_compute. reflexivity. Qed.

Example loadConfig_default : loadConfig ∅ = defaultConfig.
Proof. vm_compute. reflexivity. Qed.

Example loadConfig_sample : config Sample.world = defaultConfig.
Proof. vm_compute. reflexivity. Qed.

Example parseInt_units : parseInt (str " 12px") = Some 12%Z.
Proof. vm_compute. reflexivity. Qed.

Example parseInt_NaN : parseInt (str "ten") = None.
Proof. vm_compute. reflexivity. Qed.

Example registry_names :
  ToolRegistry.getToolNames
  = map str [ "web_search"; "file_system_grep"; "terminal_command";
              "folder_file_indexing"; "read_file" ]%string.
Proof. vm_compute. reflexivity. Qed.

(** Scenario C of the design document: [rm -rf /] chosen by the model is
    refused before anything is spawned. *)
Example execute_rm :
  TerminalCommandTool.execute Sample.world
    (VObj [(str "command", VStr (str "rm -rf /"))]) []
  = (Ret {| success := false;
            output := [];
            error := Some (str "Command contains dangerous patterns") |},
     []).
Proof. vm_compute. reflexivity. Qed.

End Examples.

(** * Further properties of the code *)

(** ** Trimming *)

Section TrimFacts.

Lemma trimStart_blank (s : jsstring) :
  forallb isWhiteSpace s = true -> trimStart s = [].
Proof.
  induction s as [|c s IH]; simpl; [reflexivity|].
  intros H. apply andb_true_iff in H as [Hc Hs]. rewrite Hc. now apply IH.
Qed.

Lemma trim_blank (s : jsstring) :
  forallb isWhiteSpace s = true -> trim s = [].
Proof.
  intros H. unfold trim. now rewrite (trimStart_blank s H).
Qed.

(** What [trimStart] leaves is empty or opens with a unit that is not white
    space. *)
Lemma trimStart_head (s : jsstring) :
  trimStart s = []
  \/ exists c rest, trimStart s = c :: rest /\ isWhiteSpace c = false.
Proof.
  induction s as [|c s IH]; simpl; [now left|].
  destruct (isWhiteSpace c) eqn:Hc; [exact IH|].
  right. now exists c, s.
Qed.

Lemma trimStart_idempotent (s : jsstring) :
  trimStart (trimStart s) = trimStart s.
Proof.
  destruct (trimStart_head s) as [-> | (c & rest & -> & Hc)];
    [reflexivity|].
  simpl. now rewrite Hc.
Qed.

Lemma trimEnd_idempotent (s : jsstring) : trimEnd (trimEnd s) = trimEnd s.
Proof.
  unfold trimEnd. now rewrite rev_involutive, trimStart_idempotent.
Qed.

(** [trimEnd] does not bring white space to the front. *)
Lemma trimStart_trimEnd (s : jsstring) :
  trimStart s = s -> trimStart (trimEnd s) = trimEnd s.
Proof.
  intros Hs. destruct (trimStart_head s) as [E | (c & rest & E & Hc)];
    rewrite Hs in E; subst s.
  - reflexivity.
  - destruct (trimEnd_keeps [] rest c Hc) as [post E]. simpl in E.
    rewrite E. simpl. now rewrite Hc.
Qed.

Lemma trim_idempotent (s : jsstring) : trim (trim s) = trim s.
Proof.
  unfold trim.
  rewrite (trimStart_trimEnd (trimStart s) (trimStart_idempotent s)).
  apply trimEnd_idempotent.
Qed.

Lemma trimStart_length (s : jsstring) :
  (length (trimStart s) <= length s)%nat.
Proof.
  induction s as [|c s IH]; simpl; [lia|].
  destruct (isWhiteSpace c); simpl; lia.
Qed.

Lemma trimStart_fixed (s : jsstring) :
  length (trimStart s) = length s -> trimStart s = s.
Proof.
  destruct s as [|c s]; simpl; [reflexivity|].
  destruct (isWhiteSpace c); [|reflexivity].
  pose proof (trimStart_length s). simpl. lia.
Qed.

Lemma trimEnd_length (s : jsstring) : (length (trimEnd s) <= length s)%nat.
Proof.
  unfold trimEnd. rewrite length_rev.
  pose proof (trimStart_length (rev s)) as H. now rewrite length_rev in H.
Qed.

(** A string that [trim] leaves as it is has no white space at either
    end. *)
Lemma trim_fixed (s : jsstring) :
  trim s = s -> trimStart s = s /\ trimEnd s = s.
Proof.
  intros H. assert (Hs : trimStart s = s).
  { apply trimStart_fixed.
    pose proof (trimStart_length s).
    pose proof (trimEnd_length (trimStart s)) as He.
    unfold trim in H. rewrite H in He. lia. }
  split; [exact Hs|]. unfold trim in H. now rewrite Hs in H.
Qed.

End TrimFacts.

(** ** Reading parameters *)

Section ParameterFacts.

Variable w : World.

(** Reading a property performs no effect. *)
Lemma getProp_pure (v : jsval) (k : jsstring) (t : trace) :
  exists o, getProp w v k t = (o, t).
Proof. destruct v; simpl; eauto. Qed.

Lemma asString_pure (v : jsval) (t : trace) :
  asString w v t
  = match v with
    | VStr s => (Ret s, t)
    | _ => (Throw (JsError (typeErrorMessage w)), t)
    end.
Proof. destruct v; reflexivity. Qed.

Lemma logged_pure (v : jsval) (t : trace) :
  logged w v t
  = if interpolates v then (Ret tt, t)
    else (Throw (JsError (toPrimitiveErrorMessage w)), t).
Proof. unfold logged. destruct (interpolates v); reflexivity. Qed.

Lemma path_resolve_pure (v : jsval) (t : trace) :
  path_resolve w v t
  = match v with
    | VStr s => (Ret (Path.resolve (process_cwd w) s), t)
    | _ => (Throw (JsError (typeErrorMessage w)), t)
    end.
Proof. destruct v; reflexivity. Qed.

End ParameterFacts.

(** ** The terminal tool *)

Section TerminalFacts.

Import TerminalCommandTool.

Lemma trimStart_nil_blank (s : jsstring) :
  trimStart s = [] -> forallb isWhiteSpace s = true.
Proof.
  induction s as [|c s IH]; simpl; [reflexivity|].
  destruct (isWhiteSpace c); [exact IH | discriminate].
Qed.

Lemma trim_nil_blank (s : jsstring) :
  trim s = [] -> forallb isWhiteSpace s = true.
Proof.
  unfold trim, trimEnd. intros H.
  destruct (trimStart_head s) as [E | (c & rest & E & Hc)].
  - now apply trimStart_nil_blank.
  - exfalso. rewrite E in H.
    apply (f_equal (@rev N)) in H. rewrite rev_involutive in H. simpl in H.
    apply trimStart_nil_blank in H.
    rewrite forallb_app in H. simpl in H. rewrite Hc in H.
    apply andb_true_iff in H as [_ H]. discriminate.
Qed.

(** The commands refused as empty are exactly those made of white space
    only, the empty string among them. *)
Theorem validateCommand_empty_iff (command : jsstring) :
  validateCommand command
  = Validation.rejected (str "Command cannot be empty")
  <-> forallb isWhiteSpace command = true.
Proof.
  split.
  - intros H. apply trim_nil_blank. unfold validateCommand in H.
    destruct (trim command) as [|c s]; [reflexivity|]. exfalso.
    cbn [truthy negb] in H.
    destruct (existsb (fun pattern => test pattern (c :: s))
                dangerousPatterns).
    + vm_compute in H. discriminate.
    + destruct (negb (truthy (splitHead 32 (c :: s)))
                || negb (arrayIncludes allowedCommands
                           (splitHead 32 (c :: s)))).
      * unfold Validation.rejected in H. injection H as H.
        vm_compute in H. discriminate.
      * discriminate.
  - intros H. unfold validateCommand. now rewrite (trim_blank _ H).
Qed.

(** The verdict on a command is the verdict on the command that is run:
    [sanitizeCommand] changes nothing that [validateCommand] looks at. *)
Theorem validateCommand_sanitized (command : jsstring) :
  validateCommand (sanitizeCommand command) = validateCommand command.
Proof.
  unfold validateCommand, sanitizeCommand. now rewrite trim_idempotent.
Qed.

(** [execute], step by step. *)
Lemma terminal_execute_steps (w : World) (parameters : jsval) (t : trace) :
  execute w parameters t
  = match getProp w parameters (str "command") t with
    | (Ret (VStr command), t1) =>
        if Validation.valid (validateCommand command) then
          match execAsync w t1 (trim command) (execOptions w) with
          | Ret (stdout, stderr) =>
              (Ret (succeeded
                      (stdout ++ (if truthy stderr
                                  then [10] ++ str "Stderr: " ++ stderr
                                  else []))),
               t1 ++ [EvExec (trim command) (execOptions w)])
          | Throw e =>
              (Ret (failed e), t1 ++ [EvExec (trim command) (execOptions w)])
          end
        else
          (Ret (failed (JsError (default []
                                   (Validation.error
                                      (validateCommand command))))), t1)
    | (Ret v, t1) =>
        (Ret (failed (JsError (if interpolates v then typeErrorMessage w
                               else toPrimitiveErrorMessage w))), t1)
    | (Throw e, t1) => (Ret (failed e), t1)
    end.
Proof.
  unfold execute, tryCatch. unfold bind at 1.
  destruct (getProp w parameters (str "command") t) as [[v|e] t1];
    [|reflexivity].
  unfold bind at 1. rewrite logged_pure.
  destruct (interpolates v) eqn:Hi;
    [|destruct v; try discriminate Hi; reflexivity].
  unfold bind at 1. rewrite asString_pure.
  destruct v as [ | | b | z | command | items | fields ]; try reflexivity.
  destruct (Validation.valid (validateCommand command)); cbn [negb];
    [|reflexivity].
  unfold bind, exec, perform, sanitizeCommand.
  destruct (execAsync w t1 (trim command) (execOptions w))
    as [[stdout stderr]|e]; reflexivity.
Qed.

(** The terminal tool performs at most one effect: either it fails without
    any, or the command is a string that [validateCommand] accepts and the
    one effect is the run of the trimmed command under [execOptions]. *)
Theorem terminal_spawns_only_validated (w : World) (parameters : jsval)
  (t : trace) :
  (exists e, execute w parameters t = (Ret (failed e), t))
  \/ (exists command result,
         getProp w parameters (str "command") t = (Ret (VStr command), t)
         /\ Validation.valid (validateCommand command) = true
         /\ execute w parameters t
            = (Ret result, t ++ [EvExec (trim command) (execOptions w)])).
Proof.
  rewrite terminal_execute_steps.
  destruct (getProp_pure w parameters (str "command") t) as [o Ho].
  rewrite Ho. destruct o as [v|e]; [|left; now exists e].
  destruct v as [ | | b | z | command | items | fields ];
    try (left; eexists; reflexivity).
  cbv beta iota.
  destruct (Validation.valid (validateCommand command)) eqn:Hv.
  - right. exists command.
    destruct (execAsync w t (trim command) (execOptions w))
      as [[stdout stderr]|e]; eexists;
      (split; [reflexivity | split; [exact Hv | reflexivity]]).
  - left. eexists. reflexivity.
Qed.

End TerminalFacts.

(** [validateCommand_empty_iff] at work. *)
Lemma validateCommand_empty_witness :
  TerminalCommandTool.validateCommand [32; 9; 10]
  = Validation.rejected (str "Command cannot be empty").
Proof.
  apply (proj2 (validateCommand_empty_iff [32; 9; 10])).
  vm_compute. reflexivity.
Defined.

(** ** Escaping for the search command *)

Section SanitizeFacts.

Import FileSystemGrepTool.

Lemma escapeClass_preceded (cs : jsstring) (s : jsstring) :
  existsb (N.eqb 92) cs = false ->
  forall pre c post,
    existsb (N.eqb c) cs = true ->
    escapeClass cs s = pre ++ c :: post ->
    exists pre', pre = pre' ++ [92].
Proof.
  intros Hb. induction s as [|x s IH]; intros pre c post Hc E; simpl in E.
  - now destruct pre.
  - destruct (existsb (N.eqb x) cs) eqn:Hx.
    + destruct pre as [|a [|b pre]]; simpl in E.
      * injection E as <- _. congruence.
      * injection E as <- _ _. now exists [].
      * injection E as <- <- E.
        destruct (IH pre c post Hc E) as [pre' ->].
        now exists (92 :: x :: pre').
    + destruct pre as [|a pre]; simpl in E.
      * injection E as <- _. congruence.
      * injection E as <- E.
        destruct (IH pre c post Hc E) as [pre' ->].
        now exists (x :: pre').
Qed.

Lemma escapeClass_fixed (cs : jsstring) (s : jsstring) :
  escapeClass cs s = s <->
  forallb (fun c => negb (existsb (N.eqb c) cs)) s = true.
Proof.
  induction s as [|x s IH]; simpl; [easy|].
  destruct (existsb (N.eqb x) cs) eqn:Hx; simpl.
  - split; [|discriminate]. intros E. exfalso.
    assert (L : forall u, (length u <= length (escapeClass cs u))%nat).
    { induction u as [|y u IHu]; simpl; [lia|].
      destruct (existsb (N.eqb y) cs); simpl; lia. }
    apply (f_equal (@length N)) in E. simpl in E.
    pose proof (L s). lia.
  - rewrite <- IH. split; [now intros [= E] | now intros ->].
Qed.

(** In what [sanitizePattern] and [sanitizePath] return, every one of the
    characters [` $ ; | & < > ( )] stands right after a backslash; a string
    that holds none of them, and only such a string, is returned as it
    is. *)
Theorem sanitizePattern_escapes (pattern : jsstring) :
  (forall pre c post,
      In c escapedCharacters ->
      sanitizePattern pattern = pre ++ c :: post ->
      exists pre', pre = pre' ++ [92])
  /\ (sanitizePattern pattern = pattern <->
      forall c, In c pattern -> ~ In c escapedCharacters)
  /\ sanitizePath pattern = sanitizePattern pattern.
Proof.
  split; [|split; [|reflexivity]].
  - intros pre c post Hc E.
    apply (escapeClass_preceded escapedCharacters pattern eq_refl
             pre c post); [|exact E].
    apply existsb_exists. exists c. split; [exact Hc | apply N.eqb_refl].
  - unfold sanitizePattern. rewrite escapeClass_fixed, forallb_forall.
    split; intros H c Hc.
    + intros Hin. specialize (H c Hc). apply negb_true_iff in H.
      assert (existsb (N.eqb c) escapedCharacters = true); [|congruence].
      apply existsb_exists. exists c. split; [exact Hin | apply N.eqb_refl].
    + apply negb_true_iff, not_true_iff_false. intros Hex.
      apply existsb_exists in Hex as (d & Hd & Heq).
      apply N.eqb_eq in Heq. subst d. now apply (H c Hc).
Qed.

End SanitizeFacts.

(** ** The web search tool *)

Section WebSearchFacts.

Import WebSearchTool.

(** The web search tool touches nothing: whatever it is given, it returns
    without any effect, and it succeeds exactly when the query is a
    string. *)
Theorem webSearch_no_effect (w : World) (parameters : jsval) (t : trace) :
  exists result,
    execute w parameters t = (Ret result, t)
    /\ (success result = true <->
        exists query,
          getProp w parameters (str "query") t = (Ret (VStr query), t)).
Proof.
  unfold execute, tryCatch. unfold bind at 1.
  destruct (getProp_pure w parameters (str "query") t) as [o Ho].
  rewrite Ho. destruct o as [v|e].
  - unfold bind at 1. rewrite logged_pure.
    destruct (interpolates v) eqn:Hi;
      [|destruct v; try discriminate Hi;
        (eexists; split; [reflexivity|];
         split; [discriminate | intros [q [=]]])].
    unfold bind at 1, getMockSearchResults. unfold bind at 1.
    rewrite asString_pure.
    destruct v as [ | | b | z | query | items | fields ];
      try (eexists; split; [reflexivity|];
           split; [discriminate | intros [q [=]]]).
    destruct (includes (toLowerCase w query) (str "splunk")
              && includes (toLowerCase w query) (str "query"));
      [|destruct (includes (toLowerCase w query) (str "spl")
                  || includes (toLowerCase w query)
                       (str "search processing language"))];
      (eexists; split; [reflexivity|]; split; [now exists query | reflexivity]).
  - eexists. split; [reflexivity|].
    split; [discriminate | intros [q [=]]].
Qed.

End WebSearchFacts.

(** ** The registry *)

Section RegistryFacts.

Import ToolRegistry.

Lemma registerTools_other (instances : list Tool) (tools : gmap jsstring Tool)
  (key : jsstring) :
  ~ In key (map name instances) ->
  fold_left (fun tools tool => <[name tool := tool]> tools) instances tools
    !! key
  = tools !! key.
Proof.
  revert tools. induction instances as [|x l IH]; intros tools H; simpl.
  - reflexivity.
  - simpl in H. rewrite IH by tauto.
    apply lookup_insert_ne. tauto.
Qed.

Lemma registerTools_found (instances : list Tool)
  (tools : gmap jsstring Tool) (key : jsstring) (tool : Tool) :
  fold_left (fun tools tool => <[name tool := tool]> tools) instances tools
    !! key = Some tool ->
  (name tool = key /\ In tool instances) \/ tools !! key = Some tool.
Proof.
  revert tools. induction instances as [|x l IH]; intros tools H; simpl in *.
  - now right.
  - destruct (IH _ H) as [[Hn Hin] | Hl]; [left; tauto|].
    destruct (decide (name x = key)) as [E|E].
    + subst key. rewrite lookup_insert_eq in Hl. injection Hl as ->.
      left. tauto.
    + rewrite lookup_insert_ne in Hl by exact E. now right.
Qed.

(** Registration and lookup: when the names of the instances differ, each
    instance is found under its own name. *)
Theorem getTool_registered (instances : list Tool) (tool : Tool) :
  List.NoDup (map name instances) ->
  In tool instances ->
  getTool (registerTools instances) (VStr (name tool)) = Some tool.
Proof.
  unfold getTool, registerTools. generalize (∅ : gmap jsstring Tool).
  induction instances as [|x l IH]; intros tools Hnd Hin; simpl in *.
  - contradiction.
  - apply List.NoDup_cons_iff in Hnd as [Hx Hnd].
    destruct Hin as [-> | Hin].
    + rewrite registerTools_other by exact Hx. apply lookup_insert_eq.
    + now apply IH.
Qed.

(** What a lookup returns was registered under the key that was asked, and
    the key is a string: anything else finds no tool. *)
Theorem getTool_sound (instances : list Tool) (key : jsval) (tool : Tool) :
  getTool (registerTools instances) key = Some tool ->
  exists s, key = VStr s /\ name tool = s /\ In tool instances.
Proof.
  unfold getTool, registerTools. intros H.
  destruct key as [ | | b | z | s | items | fields ]; try discriminate.
  exists s. split; [reflexivity|].
  apply registerTools_found in H as [H | H]; [exact H|].
  rewrite lookup_empty in H. discriminate.
Qed.

Lemma toolInstances_NoDup : List.NoDup (map name toolInstances).
Proof.
  unfold toolInstances. cbn [map name].
  repeat (apply List.NoDup_cons;
          [ intros H; vm_compute in H; intuition discriminate | ]).
  apply List.NoDup_nil.
Qed.

End RegistryFacts.

(** [getTool_registered] at work: the file-read tool in the registry of the
    five tools. *)
Lemma getTool_registered_witness :
  ToolRegistry.getTool ToolRegistry.toolRegistry (VStr (str "read_file"))
  = Some (ToolRegistry.mkTool (str "read_file")
            (str "Read file contents with security and size restrictions")
            ReadFileTool.execute).
Proof.
  apply (getTool_registered ToolRegistry.toolInstances
           (ToolRegistry.mkTool (str "read_file")
              (str "Read file contents with security and size restrictions")
              ReadFileTool.execute)).
  - exact toolInstances_NoDup.
  - simpl. tauto.
Defined.

(** [getTool_sound] at work. *)
Lemma getTool_sound_witness :
  exists s,
    VStr (str "web_search") = VStr s
    /\ str "web_search" = s
    /\ In (ToolRegistry.mkTool (str "web_search")
             (str "Search the web for Splunk documentation, best practices, and query patterns")
             WebSearchTool.execute)
          ToolRegistry.toolInstances.
Proof.
  apply (getTool_sound ToolRegistry.toolInstances
           (VStr (str "web_search"))
           (ToolRegistry.mkTool (str "web_search")
              (str "Search the web for Splunk documentation, best practices, and query patterns")
              WebSearchTool.execute)).
  vm_compute. reflexivity.
Defined.

(** ** Parsing the final output *)

Section ParseFacts.

Import SplunkQueryAgent Design.

Lemma startsWith_crossing (label a s : jsstring) (c : N) :
  ~ In c label ->
  startsWith (a ++ c :: s) label = true ->
  exists rest, a = label ++ rest.
Proof.
  revert a. induction label as [|x label IH]; intros a Hc H.
  - now exists a.
  - destruct a as [|y a]; simpl in H.
    + apply andb_true_iff in H as [H _]. apply N.eqb_eq in H.
      exfalso. apply Hc. now left.
    + apply andb_true_iff in H as [Hxy H]. apply N.eqb_eq in Hxy. subst y.
      destruct (IH a) as [rest ->]; [intros Hin; apply Hc; now right | exact H |].
      now exists rest.
Qed.

(** A stretch in which the label does not occur, closed by a unit that the
    label does not hold, is passed over. *)
Lemma afterFirst_skip (label a s : jsstring) (c : N) :
  ~ In c label -> absent label a ->
  afterFirst label (a ++ c :: s) = afterFirst label s.
Proof.
  intros Hc. induction a as [|y a IH]; intros Ha;
    rewrite afterFirst_unfold.
  - destruct (startsWith ([] ++ c :: s) label) eqn:E; [|reflexivity].
    apply startsWith_crossing in E as [rest E]; [|exact Hc].
    exfalso. apply (Ha [] rest). now rewrite <- E.
  - destruct (startsWith ((y :: a) ++ c :: s) label) eqn:E.
    + apply startsWith_crossing in E as [rest E]; [|exact Hc].
      exfalso. now apply (Ha [] rest).
    + simpl. apply IH. intros pre post Eq.
      apply (Ha (y :: pre) post). simpl. now rewrite Eq.
Qed.

Lemma afterFirst_prefix (label rest : jsstring) :
  afterFirst label (label ++ rest) = Some rest.
Proof.
  rewrite afterFirst_unfold, startsWith_app.
  rewrite drop_app, drop_all, Nat.sub_diag. reflexivity.
Qed.

Lemma upToExplanation_unfold (s : jsstring) :
  upToExplanation s
  = if startsWith s ([10; 10] ++ str "EXPLANATION:") then []
    else match s with
         | [] => []
         | c :: s' => c :: upToExplanation s'
         end.
Proof. destruct s; reflexivity. Qed.

(** The lazy group stops at the separated label when the label does not
    occur before. *)
Lemma upToExplanation_stops (q rest : jsstring) :
  absent (str "EXPLANATION:") q ->
  upToExplanation (q ++ [10; 10] ++ str "EXPLANATION:" ++ rest) = q.
Proof.
  induction q as [|c q IH]; intros Ha; rewrite upToExplanation_unfold.
  - replace ([] ++ [10; 10] ++ str "EXPLANATION:" ++ rest)
      with (([10; 10] ++ str "EXPLANATION:") ++ rest) by reflexivity.
    now rewrite startsWith_app.
  - assert (E : startsWith
                  ((c :: q) ++ [10; 10] ++ str "EXPLANATION:" ++ rest)
                  ([10; 10] ++ str "EXPLANATION:") = false).
    { apply not_true_iff_false. intros E.
      change ([10; 10] ++ str "EXPLANATION:")
        with (10 :: 10 :: str "EXPLANATION:") in E.
      simpl in E. apply andb_true_iff in E as [_ E].
      destruct q as [|d q].
      - vm_compute in E. discriminate.
      - simpl in E. apply andb_true_iff in E as [_ E].
        apply (startsWith_crossing (str "EXPLANATION:") q) in E
          as [r E].
        + apply (Ha [c; d] r). now rewrite E.
        + vm_compute. intuition discriminate. }
    rewrite E. simpl. f_equal. apply IH.
    intros pre post Eq. apply (Ha (c :: pre) post). simpl. now rewrite Eq.
Qed.

Lemma trimStart_app_fixed (q rest : jsstring) :
  q <> [] -> trimStart q = q -> trimStart (q ++ rest) = q ++ rest.
Proof.
  intros Hne Hq. destruct (trimStart_head q) as [E | (c & r & E & Hc)];
    rewrite Hq in E; subst q; [contradiction|].
  simpl. now rewrite Hc.
Qed.

(** The format that the final prompt asks for parses back: from
    [QUERY: q] and, after a blank line, [EXPLANATION: e], the parser
    returns [q] and [e], for a query and an explanation that are not empty,
    have no white space at their ends, and with a query in which the
    explanation label does not occur. *)
Theorem parseQueryResponse_roundtrip (q e : jsstring) :
  q <> [] -> trim q = q -> absent (str "EXPLANATION:") q ->
  e <> [] -> trim e = e ->
  parseQueryResponse
    (str "QUERY: " ++ q ++ [10; 10] ++ str "EXPLANATION: " ++ e)
  = (q, e).
Proof.
  intros Hq Htq Ha He Hte.
  destruct (trim_fixed q Htq) as [Hsq _].
  destruct (trim_fixed e Hte) as [Hse _].
  unfold parseQueryResponse, queryMatch, explanationMatch.
  change (str "QUERY: " ++ q ++ [10; 10] ++ str "EXPLANATION: " ++ e)
    with (str "QUERY:"
          ++ 32 :: q ++ 10 :: [] ++ 10 :: str "EXPLANATION:" ++ 32 :: e).
  f_equal.
  - rewrite afterFirst_prefix.
    change (trimStart
              (32 :: q ++ 10 :: [] ++ 10 :: str "EXPLANATION:" ++ 32 :: e))
      with (trimStart (q ++ [10; 10] ++ str "EXPLANATION:" ++ 32 :: e)).
    rewrite (trimStart_app_fixed q _ Hq Hsq).
    rewrite (upToExplanation_stops q _ Ha).
    unfold groupOr. rewrite Htq.
    now destruct q.
  - rewrite (afterFirst_skip (str "EXPLANATION:") (str "QUERY:") _ 32).
    2: { vm_compute. intuition discriminate. }
    2: { apply afterFirst_None. vm_compute. reflexivity. }
    rewrite (afterFirst_skip (str "EXPLANATION:") q _ 10).
    2: { vm_compute. intuition discriminate. }
    2: { exact Ha. }
    rewrite (afterFirst_skip (str "EXPLANATION:") [] _ 10).
    2: { vm_compute. intuition discriminate. }
    2: { apply afterFirst_None. vm_compute. reflexivity. }
    rewrite afterFirst_prefix.
    change (trimStart (32 :: e)) with (trimStart e).
    rewrite Hse. unfold groupOr. rewrite Hte.
    now destruct e.
Qed.

End ParseFacts.

(** [parseQueryResponse_roundtrip] at work. *)
Lemma parseQueryResponse_roundtrip_witness :
  SplunkQueryAgent.parseQueryResponse
    (str "QUERY: " ++ str "index=main | stats count" ++ [10; 10]
     ++ str "EXPLANATION: " ++ str "counts the events")
  = (str "index=main | stats count", str "counts the events").
Proof.
  apply (parseQueryResponse_roundtrip
           (str "index=main | stats count") (str "counts the events")).
  - vm_compute. discriminate.
  - vm_compute. reflexivity.
  - apply afterFirst_None. vm_compute. reflexivity.
  - vm_compute. discriminate.
  - vm_compute. reflexivity.
Defined.

(** ** More on computations *)

Section MoreComputations.

Import Design.

Lemma Returns_ret {A} (P : A -> Prop) (a : A) : P a -> Returns P (ret a).
Proof. intros H t. now exists a, t. Qed.

Lemma Returns_bind {A B} (Q : A -> Prop) (P : B -> Prop) (m : M A)
  (k : A -> M B) :
  Returns Q m -> (forall a, Q a -> Returns P (k a)) -> Returns P (bind m k).
Proof.
  intros Hm Hk t. destruct (Hm t) as (a & t1 & E & Ha).
  unfold bind. rewrite E. apply (Hk a Ha).
Qed.

Lemma Returns_weaken {A} (P Q : A -> Prop) (m : M A) :
  (forall a, P a -> Q a) -> Returns P m -> Returns Q m.
Proof.
  intros H Hm t. destruct (Hm t) as (a & t1 & E & Ha).
  exists a, t1. auto.
Qed.

Lemma Yields_bind_with {A B} (Q : A -> Prop) (P : B -> Prop) (m : M A)
  (k : A -> M B) :
  Yields Q m -> (forall a, Q a -> Yields P (k a)) -> Yields P (bind m k).
Proof.
  intros Hm Hk t b t' E. unfold bind in E.
  destruct (m t) as [[a|e] t1] eqn:Em; [|discriminate].
  exact (Hk a (Hm t a t1 Em) t1 b t' E).
Qed.

Lemma Returns_Yields {A} (P : A -> Prop) (m : M A) :
  Returns P m -> Yields P m.
Proof.
  intros H t a t' E. destruct (H t) as (a' & t1 & E' & Ha).
  rewrite E in E'. now injection E' as -> _.
Qed.

(** A [try] whose handler returns does not throw. *)
Lemma tryCatch_Returns {A} (P : A -> Prop) (body : M A)
  (handler : exn -> M A) :
  Yields P body -> (forall e, Returns P (handler e)) ->
  Returns P (tryCatch body handler).
Proof.
  intros Hb Hh t. unfold tryCatch.
  destruct (body t) as [[a|e] t1] eqn:E.
  - exists a, t1. split; [reflexivity|]. exact (Hb t a t1 E).
  - apply Hh.
Qed.

End MoreComputations.

(** ** The tool loop and the request *)

Section LoopFacts.

Import SplunkQueryAgent ToolRegistry Design Orchestration.

Lemma extends_refl (n : nat) (l : Locals) : extends n l l.
Proof.
  exists [], []. rewrite !app_nil_r. repeat split; auto. simpl. lia.
Qed.

Lemma extends_trans (n m : nat) (a b c : Locals) :
  extends n a b -> extends m b c -> extends (n + m) a c.
Proof.
  intros (c1 & x1 & E1 & L1 & X1 & N1) (c2 & x2 & E2 & L2 & X2 & N2).
  exists (c1 ++ c2), (x1 ++ x2). repeat split.
  - now rewrite E2, E1, app_assoc.
  - rewrite length_app. lia.
  - now rewrite X2, X1, app_assoc.
  - intros E. apply app_eq_nil in E as [Ea Eb].
    now rewrite (N1 Ea), (N2 Eb).
Qed.

(** One turn of the loop records at most one call. *)
Lemma dispatch_extends (w : World) (toolSpec : jsval) (locals : Locals) :
  Yields (extends 1 locals) (dispatch w toolSpec locals).
Proof.
  unfold dispatch. apply Yields_bind. intros toolName.
  destruct (getTool toolRegistry toolName) as [tool|].
  - yields.
    + eexists [_], _. repeat split; simpl; eauto. discriminate.
    + eexists [_], []. rewrite app_nil_r. repeat split; simpl; eauto.
  - apply Yields_ret, extends_refl.
Qed.

Lemma forEachTool_Returns (w : World) (toolSpecs : list jsval)
  (locals : Locals) :
  Returns (extends (length toolSpecs) locals) (forEachTool w toolSpecs locals).
Proof.
  revert locals. induction toolSpecs as [|toolSpec rest IH]; intros locals.
  - apply Returns_ret, extends_refl.
  - cbn [forEachTool length].
    apply (Returns_bind
             (fun next => match next with
                          | Some locals' => extends 1 locals locals'
                          | None => True
                          end)).
    + apply tryCatch_Returns.
      * apply (Yields_bind_with (extends 1 locals));
          [apply dispatch_extends|].
        intros l Hl. now apply Yields_ret.
      * intros e. now apply Returns_ret.
    + intros [locals'|] H.
      * apply (Returns_weaken (extends (length rest) locals')); [|apply IH].
        intros l Hl. apply (extends_trans 1 (length rest) _ _ _ H Hl).
      * apply Returns_ret. destruct (extends_refl 0 locals)
          as (c & x & E & L & X & N).
        exists c, x. repeat split; auto. lia.
Qed.

(** The loop does not throw, whatever the tool specifications are and
    whatever the tools do; it records at most one call per specification,
    and continues the additional context only when it records a call. *)
Theorem forEachTool_extends (w : World) (toolSpecs : list jsval)
  (locals : Locals) :
  Returns (extends (length toolSpecs) locals) (forEachTool w toolSpecs locals).
Proof. apply forEachTool_Returns. Qed.

(** Whatever the model answers to the tool decision, [executeTools]
    returns: a decision that does not parse, a specification that is
    malformed and a tool that fails leave the request going. Additional
    context exists only beside recorded tool calls. *)
Theorem executeTools_never_throws (w : World) (decision : jsstring)
  (t : trace) :
  exists locals t',
    executeTools w decision t = (Ret locals, t')
    /\ (toolCalls locals = [] -> additionalContext locals = []).
Proof.
  assert (H : Returns (fun l => toolCalls l = [] -> additionalContext l = [])
                (executeTools w decision)).
  { unfold executeTools. apply tryCatch_Returns.
    - apply Yields_bind. intros toolDecision.
      apply Yields_bind. intros tools.
      destruct tools as [ | | b | z | s | toolSpecs | fields ];
        try (now apply Yields_ret).
      apply Returns_Yields.
      apply (Returns_weaken (extends (length toolSpecs) noLocals));
        [|apply forEachTool_Returns].
      intros l (c & x & E & L & X & N) Hl. simpl in E, X.
      rewrite X. apply N. now rewrite <- E.
    - intros e. now apply Returns_ret. }
  exact (H t).
Qed.

(** [analyzeContextFiles] does not throw: a file that cannot be read or
    analyzed is left out, and the others are kept. *)
Theorem analyzeContextFiles_never_throws (w : World)
  (filePaths : list jsstring) :
  Returns (fun results => (length results <= length filePaths)%nat)
    (analyzeContextFiles w filePaths).
Proof.
  induction filePaths as [|filePath rest IH].
  - apply Returns_ret. simpl. lia.
  - cbn [analyzeContextFiles length].
    apply (Returns_bind (fun found => (length found <= 1)%nat)).
    + apply tryCatch_Returns.
      * yields; simpl; lia.
      * intros e. apply Returns_ret. simpl. lia.
    + intros found Hf.
      apply (Returns_bind
               (fun others => (length others <= length rest)%nat));
        [exact IH|].
      intros others Ho. apply Returns_ret. rewrite length_app. lia.
Qed.

(** [generateQuery] does not throw, and what it returns is well formed: a
    success with a query and an explanation, or an error with a message
    and neither query, explanation nor tool calls. *)
Theorem generateQuery_wellFormed (w : World) (request : QueryRequest) :
  Returns wellFormed (generateQuery w request).
Proof.
  unfold generateQuery. apply tryCatch_Returns.
  - apply Yields_bind. intros analysisResults.
    unfold runQueryGeneration. yields.
    unfold wellFormed. simpl. repeat split; try discriminate.
    destruct (toolCalls a0); discriminate.
  - intros e. apply Returns_ret.
    unfold wellFormed. simpl. repeat split. discriminate.
Qed.

(** When the first call of the model fails, the request made without
    context files ends as an error that carries the message of the
    failure, and nothing else is done. *)
Theorem generateQuery_upstream_failure (w : World) (userPrompt : jsstring)
  (history : option (list ConversationTurn)) (t : trace) (e : exn) :
  let context := mkContext [] userPrompt (default [] history) in
  let first :=
    [buildSystemMessage context; HumanMessage (toolDecisionPrompt context)] in
  llm_invoke w t first = Throw e ->
  generateQuery w (mkRequest userPrompt None history) t
  = (Ret {| status := StatusError;
            query := None;
            explanation := None;
            tool_calls := None;
            error_message :=
              Some (match e with
                    | JsError m => m
                    | JsThrown => str "Unknown error occurred"
                    end) |},
     t ++ [EvInvoke first]).
Proof.
  intros context first H.
  unfold generateQuery, tryCatch, bind. simpl.
  unfold runQueryGeneration, bind, invoke, perform. simpl.
  fold context. fold first. rewrite H. reflexivity.
Qed.

End LoopFacts.

(** [generateQuery_upstream_failure] at work: a model that is down. *)
Lemma generateQuery_upstream_failure_witness :
  let down :=
    {| process_cwd := process_cwd Sample.world;
       process_env := process_env Sample.world;
       config := config Sample.world;
       fs_stat := fs_stat Sample.world;
       fs_access := fs_access Sample.world;
       fs_readdir := fs_readdir Sample.world;
       fs_readFile_utf8 := fs_readFile_utf8 Sample.world;
       fs_readFile := fs_readFile Sample.world;
       execAsync := execAsync Sample.world;
       llm_invoke := fun _ _ => Throw (JsError (str "503 overloaded"));
       JSON_parse := JSON_parse Sample.world;
       typeErrorMessage := typeErrorMessage Sample.world;
       toPrimitiveErrorMessage := toPrimitiveErrorMessage Sample.world;
       toLowerCase := toLowerCase Sample.world;
       formatFileSize := formatFileSize Sample.world;
       localeCompare := localeCompare Sample.world;
       analyzeFile := analyzeFile Sample.world |} in
  fst (SplunkQueryAgent.generateQuery down
         (mkRequest (str "errors of the last hour") None None) [])
  = Ret {| status := StatusError;
           query := None;
           explanation := None;
           tool_calls := None;
           error_message := Some (str "503 overloaded") |}.
Proof.
  intros down.
  rewrite (generateQuery_upstream_failure down
             (str "errors of the last hour") None []
             (JsError (str "503 overloaded"))); reflexivity.
Defined.

(** ** The tool decision *)

Section DecisionFacts.

Import SplunkQueryAgent ToolRegistry Design Orchestration.

Variable w : World.

(** Whatever the decision is, [executeTools] returns. *)
Lemma executeTools_returns (decision : jsstring) (t : trace) :
  exists locals t', executeTools w decision t = (Ret locals, t').
Proof.
  assert (H : Returns (fun _ => True) (executeTools w decision)).
  { unfold executeTools. apply tryCatch_Returns.
    - intros ? ? ? _. exact I.
    - intros e. now apply Returns_ret. }
  destruct (H t) as (locals & t' & E & _). now exists locals, t'.
Qed.

(** A decision that parses to an array of tools is worked through by the
    loop. *)
Lemma executeTools_array (decision : jsstring) (v : jsval)
  (toolSpecs : list jsval) (t : trace) :
  JSON_parse w decision = Ret v ->
  toolsArray v = Some toolSpecs ->
  executeTools w decision t = forEachTool w toolSpecs noLocals t.
Proof.
  intros Hparse Harray.
  unfold executeTools, tryCatch. unfold bind at 1. unfold lift.
  rewrite Hparse. unfold toolsArray in Harray.
  destruct v as [ | | b | z | s | items | fields ]; try discriminate.
  unfold bind at 1. cbn [getProp]. unfold ret at 1.
  destruct (find (fun kv => bool_decide (fst kv = str "tools")) fields)
    as [[k [ | | b | z | s | items | fs ]]|]; try discriminate.
  injection Harray as ->. cbn [snd].
  destruct (forEachTool_Returns w toolSpecs noLocals t)
    as (locals & t' & E & _).
  now rewrite E.
Qed.

(** [null] among the tool specifications ends the loop: what stands
    before it is worked through, what stands after it is not looked at. *)
Lemma forEachTool_null (specs rest : list jsval) :
  forall locals t,
    forEachTool w (specs ++ VNull :: rest) locals t
    = forEachTool w specs locals t.
Proof.
  induction specs as [|spec specs IH]; intros locals t.
  - reflexivity.
  - cbn [app forEachTool]. unfold bind at 1 3.
    destruct (tryCatch (do l <- dispatch w spec locals; ret (Some l))
                (fun _ => ret None) t) as [[[next|]|e] t1];
      [apply IH | reflexivity | reflexivity].
Qed.

(** A specification that names no registered tool is passed over. *)
Lemma forEachTool_unknown (spec name : jsval) (rest : list jsval)
  (locals : Locals) (t : trace) :
  getProp w spec (str "name") t = (Ret name, t) ->
  getTool toolRegistry name = None ->
  forEachTool w (spec :: rest) locals t = forEachTool w rest locals t.
Proof.
  intros Hname Hnone. cbn [forEachTool].
  unfold bind at 1, tryCatch, dispatch. unfold bind at 1. unfold bind at 1.
  rewrite Hname, Hnone. reflexivity.
Qed.

(** C7, as amended. Whatever the model answers to the tool decision, the
    request goes on to the final call of the model, made with the system
    message built from the analysed files and the conversation, and the
    decision fails nothing. When [JSON.parse] throws or what it builds
    has no array of tools, no tool is executed and no other effect takes
    place between the two calls, the final prompt carries no additional
    context, and the response carries no tool call. When it builds an
    array of tools, the array is worked through in order, whatever its
    elements are: [null] ends the loop, the elements before it having been
    dispatched, and an element that names no registered tool is passed
    over. *)
Theorem C7_decision_never_fails_the_request
  (context : SplunkQueryContext) (t : trace) (decision : jsstring) :
  let systemMessage :=
    SystemMessage
      (systemPreamble
       ++ (match analysisResults context with
           | [] => []
           | results =>
               [10; 10] ++ str "### Analyzed Files:" ++ [10]
               ++ concat (map analysisBlock results)
           end)
       ++ (match conversationHistory context with
           | [] => []
           | turns =>
               [10; 10] ++ str "### Conversation History:" ++ [10]
               ++ concat (map (fun turn =>
                                 role turn ++ str ": " ++ content turn
                                 ++ [10])
                              turns)
           end)
       ++ systemInstructions) in
  let first := [systemMessage; HumanMessage (toolDecisionPrompt context)] in
  let final additional :=
    [systemMessage;
     HumanMessage
       (str "Generate a Splunk query for: " ++ userPrompt context
        ++ (if truthy additional
            then [10; 10] ++ str "Additional context from tools:"
                 ++ additional
            else [])
        ++ [10; 10] ++ str "Provide the response in the exact format:"
        ++ [10] ++ str "QUERY: [Your SPL query]" ++ [10; 10]
        ++ str "EXPLANATION: [Your explanation]")] in
  llm_invoke w t first = Ret decision ->
  (exists locals t1,
      executeTools w decision (t ++ [EvInvoke first]) = (Ret locals, t1)
      /\ runQueryGeneration w context t
         = (match llm_invoke w t1 (final (additionalContext locals)) with
            | Ret response =>
                Ret {| status := StatusSuccess;
                       query := Some (fst (parseQueryResponse response));
                       explanation :=
                         Some (snd (parseQueryResponse response));
                       tool_calls := match toolCalls locals with
                                     | [] => None
                                     | calls => Some calls
                                     end;
                       error_message := None |}
            | Throw e => Throw e
            end,
            t1 ++ [EvInvoke (final (additionalContext locals))]))
  /\ (notParseable w decision ->
      runQueryGeneration w context t
      = (match llm_invoke w (t ++ [EvInvoke first]) (final []) with
         | Ret response =>
             Ret {| status := StatusSuccess;
                    query := Some (fst (parseQueryResponse response));
                    explanation := Some (snd (parseQueryResponse response));
                    tool_calls := None;
                    error_message := None |}
         | Throw e => Throw e
         end,
         (t ++ [EvInvoke first]) ++ [EvInvoke (final [])]))
  /\ (forall v toolSpecs t0,
         JSON_parse w decision = Ret v ->
         toolsArray v = Some toolSpecs ->
         executeTools w decision t0 = forEachTool w toolSpecs noLocals t0)
  /\ (forall specs rest locals t0,
         forEachTool w (specs ++ VNull :: rest) locals t0
         = forEachTool w specs locals t0)
  /\ (forall spec name rest locals t0,
         getProp w spec (str "name") t0 = (Ret name, t0) ->
         getTool toolRegistry name = None ->
         forEachTool w (spec :: rest) locals t0
         = forEachTool w rest locals t0).
Proof.
  intros systemMessage first final Hfirst.
  assert (Hrun : forall locals t1,
             executeTools w decision (t ++ [EvInvoke first])
             = (Ret locals, t1) ->
             runQueryGeneration w context t
             = (match llm_invoke w t1 (final (additionalContext locals)) with
                | Ret response =>
                    Ret {| status := StatusSuccess;
                           query := Some (fst (parseQueryResponse response));
                           explanation :=
                             Some (snd (parseQueryResponse response));
                           tool_calls := match toolCalls locals with
                                         | [] => None
                                         | calls => Some calls
                                         end;
                           error_message := None |}
                | Throw e => Throw e
                end,
                t1 ++ [EvInvoke (final (additionalContext locals))])).
  { intros locals t1 Hlocals.
    unfold runQueryGeneration. unfold bind at 1. unfold invoke at 1.
    unfold perform at 1.
    change (buildSystemMessage context) with systemMessage.
    fold first. rewrite Hfirst.
    unfold bind at 1. rewrite Hlocals.
    change [systemMessage;
            HumanMessage
              (buildFinalQueryPrompt context (additionalContext locals))]
      with (final (additionalContext locals)).
    unfold bind, invoke, perform.
    destruct (llm_invoke w t1 (final (additionalContext locals)))
      as [response|e]; [|reflexivity].
    destruct (parseQueryResponse response) as [query explanation].
    reflexivity. }
  split; [|split; [|split; [|split]]].
  - destruct (executeTools_returns decision (t ++ [EvInvoke first]))
      as (locals & t1 & E).
    exists locals, t1. split; [exact E | now apply Hrun].
  - intros Hparse.
    exact (Hrun noLocals _ (executeTools_notParseable w decision _ Hparse)).
  - intros v toolSpecs t0. apply executeTools_array.
  - apply forEachTool_null.
  - intros spec name rest locals t0. apply forEachTool_unknown.
Qed.

End DecisionFacts.

(** C7 at work: in the sample deployment the model answers the tool
    decision in free text, which [JSON.parse] refuses. *)
Lemma C7_unparseable_decision_witness :
  SplunkQueryAgent.runQueryGeneration Sample.world
    (mkContext [] (str "errors of the last hour") []) []
  = (Ret {| status := StatusSuccess;
            query := Some (str "index=main error");
            explanation := Some (str "No explanation provided");
            tool_calls := None;
            error_message := None |},
     [EvInvoke
        [SplunkQueryAgent.buildSystemMessage
           (mkContext [] (str "errors of the last hour") []);
         HumanMessage
           (SplunkQueryAgent.toolDecisionPrompt
              (mkContext [] (str "errors of the last hour") []))];
      EvInvoke
        [SplunkQueryAgent.buildSystemMessage
           (mkContext [] (str "errors of the last hour") []);
         HumanMessage
           (SplunkQueryAgent.buildFinalQueryPrompt
              (mkContext [] (str "errors of the last hour") []) [])]]).
Proof.
  refine (proj1 (proj2 (C7_decision_never_fails_the_request Sample.world
                          (mkContext [] (str "errors of the last hour") [])
                          [] (str "index=main error") _)) _).
  - reflexivity.
  - intros v E. discriminate.
Defined.

(** C7, as stated, fails on a decision that parses but does not have the
    structure that was asked for. The model answers
    [{"tools": [{"name": "terminal_command", "parameters": {"command":
    "ls"}}, null]}]: the second element of the array is no tool
    specification. The loop has run [ls] by the time it meets [null]: one
    tool is executed, its call is recorded in the response, and the final
    prompt carries its output as additional context. *)
Lemma C7_null_element_after_a_tool :
  let context := mkContext [] (str "list the files") [] in
  let parameters := VObj [(str "command", VStr (str "ls"))] in
  llm_invoke Sample.eager []
    [SplunkQueryAgent.buildSystemMessage context;
     HumanMessage (SplunkQueryAgent.toolDecisionPrompt context)]
  = Ret Sample.decisionText
  /\ JSON_parse Sample.eager Sample.decisionText
     = Ret (VObj [(str "tools", VArr [Sample.lsSpec; VNull])])
  /\ Design.expectedStructure
       (VObj [(str "tools", VArr [Sample.lsSpec; VNull])]) = false
  /\ SplunkQueryAgent.runQueryGeneration Sample.eager context []
     = (Ret {| status := StatusSuccess;
               query := Some (str "index=main | head 5");
               explanation := Some (str "The first events.");
               tool_calls :=
                 Some [mkToolCall (VStr (str "terminal_command"))
                         parameters []];
               error_message := None |},
        [EvInvoke
           [SplunkQueryAgent.buildSystemMessage context;
            HumanMessage (SplunkQueryAgent.toolDecisionPrompt context)];
         EvToolExecute (str "terminal_command") parameters;
         EvExec (str "ls") (TerminalCommandTool.execOptions Sample.eager);
         EvInvoke
           [SplunkQueryAgent.buildSystemMessage context;
            HumanMessage
              (SplunkQueryAgent.buildFinalQueryPrompt context
                 ([10; 10] ++ str "--- terminal_command Output ---"
                  ++ [10]))]]).
Proof. repeat apply conj; vm_compute; reflexivity. Qed.

(** ** The path validators *)

Section ValidatorFacts.

Variable w : World.

(** Close a case in which the validator did not accept. *)
Ltac refuted :=
  let H := fresh in
  intros H;
  cbv beta iota delta [ret Validation.rejected Validation.accepted] in H;
  discriminate H.

(** What [validateFile] has checked when it accepts: the path is a string,
    and for its resolved form one [stat] was made, which answered a regular
    file not above the ceiling; the resolved form holds neither [..] nor
    [~], has no extension or an allowed one, and continues one of the
    roots. *)
Theorem validateFile_accepts_sound (filePath : jsval) (t t' : trace) :
  ReadFileTool.validateFile w filePath t = (Ret Validation.accepted, t') ->
  exists p stats,
    filePath = VStr p
    /\ t' = t ++ [EvStat (Path.resolve (process_cwd w) p)]
    /\ fs_stat w t (Path.resolve (process_cwd w) p) = Ret stats
    /\ isFile stats = true
    /\ (forall ceiling,
           maxFileSize (config w) = Some ceiling ->
           (size stats <= ceiling)%Z)
    /\ looksTraversing (Path.resolve (process_cwd w) p) = false
    /\ (Path.extname (Path.resolve (process_cwd w) p) = []
        \/ In (Path.extname (Path.resolve (process_cwd w) p))
              (allowedExtensions (config w)))
    /\ isAllowed w (Path.resolve (process_cwd w) p) = true.
Proof.
  unfold ReadFileTool.validateFile, tryCatch. unfold bind at 1.
  rewrite path_resolve_pure.
  destruct filePath as [ | | b | z | p | items | fields ];
    try refuted.
  unfold bind, stat, perform, ret.
  destruct (fs_stat w t (Path.resolve (process_cwd w) p)) as [stats|e]
    eqn:Hstat; [|refuted].
  destruct (isFile stats) eqn:Hfile; cbn [negb]; [|refuted].
  destruct (ReadFileTool.exceeds (size stats) (maxFileSize (config w)))
    as [m|] eqn:Hex; [refuted|].
  destruct (looksTraversing (Path.resolve (process_cwd w) p)) eqn:Htr;
    [refuted|].
  destruct (arrayIncludes (allowedExtensions (config w))
              (Path.extname (Path.resolve (process_cwd w) p))) eqn:Hext;
    destruct (bool_decide (Path.extname (Path.resolve (process_cwd w) p)
                           = [])) eqn:Hnil;
    cbn [negb andb]; try refuted;
    (destruct (isAllowed w (Path.resolve (process_cwd w) p)) eqn:Hal;
     cbn [negb]; [|refuted]);
    intros [= <-]; exists p, stats; repeat split; try reflexivity;
    try assumption;
    try (intros ceiling Hc; unfold ReadFileTool.exceeds in Hex;
         rewrite Hc in Hex;
         destruct (ceiling <? size stats)%Z eqn:Hlt; [discriminate|];
         apply Z.ltb_ge in Hlt; exact Hlt).
  - right. now apply arrayIncludes_In.
  - right. now apply arrayIncludes_In.
  - left. now apply bool_decide_eq_true in Hnil.
Qed.

Lemma grep_validatePath_accepts (inputPath : jsval) (t t' : trace) :
  FileSystemGrepTool.validatePath w inputPath t
  = (Ret Validation.accepted, t') ->
  exists p,
    inputPath = VStr p
    /\ t' = t ++ [EvAccess (Path.resolve (process_cwd w) p)]
    /\ fs_access w t (Path.resolve (process_cwd w) p) = Ret tt
    /\ looksTraversing (Path.resolve (process_cwd w) p) = false
    /\ isAllowed w (Path.resolve (process_cwd w) p) = true.
Proof.
  unfold FileSystemGrepTool.validatePath, tryCatch. unfold bind at 1.
  rewrite path_resolve_pure.
  destruct inputPath as [ | | b | z | p | items | fields ];
    try refuted.
  unfold bind, access, perform, ret.
  destruct (fs_access w t (Path.resolve (process_cwd w) p)) as [[]|e]
    eqn:Hacc; [|refuted].
  destruct (looksTraversing (Path.resolve (process_cwd w) p)) eqn:Htr;
    [refuted|].
  destruct (isAllowed w (Path.resolve (process_cwd w) p)) eqn:Hal;
    cbn [negb]; [|refuted].
  intros [= <-]. exists p. repeat split; assumption.
Qed.

Lemma folder_validatePath_accepts (inputPath : jsval) (t t' : trace) :
  FolderIndexingTool.validatePath w inputPath t
  = (Ret Validation.accepted, t') ->
  exists p stats,
    inputPath = VStr p
    /\ t' = t ++ [EvStat (Path.resolve (process_cwd w) p)]
    /\ fs_stat w t (Path.resolve (process_cwd w) p) = Ret stats
    /\ isDirectory stats = true
    /\ looksTraversing (Path.resolve (process_cwd w) p) = false
    /\ isAllowed w (Path.resolve (process_cwd w) p) = true.
Proof.
  unfold FolderIndexingTool.validatePath, tryCatch. unfold bind at 1.
  rewrite path_resolve_pure.
  destruct inputPath as [ | | b | z | p | items | fields ];
    try refuted.
  unfold bind, stat, perform, ret.
  destruct (fs_stat w t (Path.resolve (process_cwd w) p)) as [stats|e]
    eqn:Hstat; [|refuted].
  destruct (isDirectory stats) eqn:Hdir; cbn [negb]; [|refuted].
  destruct (looksTraversing (Path.resolve (process_cwd w) p)) eqn:Htr;
    [refuted|].
  destruct (isAllowed w (Path.resolve (process_cwd w) p)) eqn:Hal;
    cbn [negb]; [|refuted].
  intros [= <-]. exists p, stats. repeat split; assumption.
Qed.

(** What the validators of the search tool and of the listing tool have
    checked when they accept: the path is a string whose resolved form
    holds neither [..] nor [~] and continues one of the roots; for the
    listing tool it was also answered to be a directory. *)
Theorem validatePath_accepts_sound (inputPath : jsval) (t t' : trace) :
  (FileSystemGrepTool.validatePath w inputPath t
   = (Ret Validation.accepted, t') ->
   exists p,
     inputPath = VStr p
     /\ t' = t ++ [EvAccess (Path.resolve (process_cwd w) p)]
     /\ fs_access w t (Path.resolve (process_cwd w) p) = Ret tt
     /\ looksTraversing (Path.resolve (process_cwd w) p) = false
     /\ isAllowed w (Path.resolve (process_cwd w) p) = true)
  /\ (FolderIndexingTool.validatePath w inputPath t
      = (Ret Validation.accepted, t') ->
      exists p stats,
        inputPath = VStr p
        /\ t' = t ++ [EvStat (Path.resolve (process_cwd w) p)]
        /\ fs_stat w t (Path.resolve (process_cwd w) p) = Ret stats
        /\ isDirectory stats = true
        /\ looksTraversing (Path.resolve (process_cwd w) p) = false
        /\ isAllowed w (Path.resolve (process_cwd w) p) = true).
Proof.
  split.
  - apply grep_validatePath_accepts.
  - apply folder_validatePath_accepts.
Qed.

End ValidatorFacts.

(** ** The search tool *)

Section GrepFacts.

Import FileSystemGrepTool.

Variable w : World.

(** [validatePath] does not throw; it probes the file system with one
    [access] at most, and what it answers is a refusal or the acceptance of
    a string. *)
Lemma grep_validatePath_cases (inputPath : jsval) (t : trace) :
  exists v t',
    validatePath w inputPath t = (Ret v, t')
    /\ ((Validation.valid v = false
         /\ (t' = t \/ exists abs, t' = t ++ [EvAccess abs]))
        \/ (v = Validation.accepted
            /\ exists p,
                 inputPath = VStr p
                 /\ t' = t ++ [EvAccess (Path.resolve (process_cwd w) p)])).
Proof.
  unfold validatePath, tryCatch. unfold bind at 1.
  rewrite path_resolve_pure.
  destruct inputPath as [ | | b | z | p | items | fields ];
    try (eexists _, _; split; [reflexivity | left; split; [reflexivity | now left]]).
  unfold bind, access, perform, ret.
  destruct (fs_access w t (Path.resolve (process_cwd w) p)) as [[]|e];
    [|eexists _, _; split; [reflexivity | left; split; [reflexivity | right; eauto]]].
  destruct (looksTraversing (Path.resolve (process_cwd w) p));
    [eexists _, _; split; [reflexivity | left; split; [reflexivity | right; eauto]]|].
  destruct (negb (isAllowed w (Path.resolve (process_cwd w) p)));
    eexists _, _; (split; [reflexivity|]).
  - left. split; [reflexivity | right; eauto].
  - right. split; [reflexivity | eauto].
Qed.

(** The search tool runs [grep] only after [validatePath] has accepted the
    path: either it fails without spawning anything, or pattern and path
    are strings, the path was accepted, and the one command that is run is
    the [grep] line built from the sanitized pattern and path. *)
Theorem grep_spawns_only_validated (parameters : jsval) (t : trace) :
  (exists e events,
      execute w parameters t = (Ret (failed e), t ++ events)
      /\ forall command options, ~ In (EvExec command options) events)
  \/ (exists pattern path result,
         getProp w parameters (str "pattern") t = (Ret (VStr pattern), t)
         /\ getProp w parameters (str "path") t = (Ret (VStr path), t)
         /\ validatePath w (VStr path) t
            = (Ret Validation.accepted,
               t ++ [EvAccess (Path.resolve (process_cwd w) path)])
         /\ execute w parameters t
            = (Ret result,
               t ++ [EvAccess (Path.resolve (process_cwd w) path);
                     EvExec (grepCommand w (sanitizePattern pattern)
                               (sanitizePath path))
                       execOptions])).
Proof.
  remember (execute w parameters t) as r eqn:Er.
  unfold execute, tryCatch in Er. unfold bind at 1 in Er.
  destruct (getProp_pure w parameters (str "pattern") t) as [o1 H1].
  rewrite H1 in Er. rewrite H1.
  destruct o1 as [pattern|e].
  2: { left. exists e, []. rewrite app_nil_r. split; [exact Er | tauto]. }
  unfold bind at 1 in Er. rewrite logged_pure in Er.
  destruct (interpolates pattern) eqn:Hi1.
  2: { left. eexists _, []. rewrite app_nil_r. split; [exact Er | tauto]. }
  unfold bind at 1 in Er.
  destruct (getProp_pure w parameters (str "path") t) as [o2 H2].
  rewrite H2 in Er. rewrite H2.
  destruct o2 as [path|e].
  2: { left. exists e, []. rewrite app_nil_r. split; [exact Er | tauto]. }
  unfold bind at 1 in Er. rewrite logged_pure in Er.
  destruct (interpolates path) eqn:Hi2.
  2: { left. eexists _, []. rewrite app_nil_r. split; [exact Er | tauto]. }
  unfold bind at 1 in Er.
  destruct (grep_validatePath_cases path t)
    as (v & t1 & Hv & [[Hbad Ht1] | [-> (p & -> & ->)]]).
  - rewrite Hv, Hbad in Er. cbn [negb] in Er. unfold throw in Er.
    left. destruct Ht1 as [-> | [abs ->]].
    + eexists _, []. rewrite app_nil_r. split; [exact Er | tauto].
    + eexists _, [_]. split; [exact Er|].
      intros c o [H|[]]. discriminate.
  - rewrite Hv in Er. cbn [negb Validation.valid Validation.accepted] in Er.
    unfold bind at 1 in Er. rewrite asString_pure in Er.
    destruct pattern as [ | | b | z | pattern | items | fields ];
      try (left; eexists _, [_]; split; [exact Er|];
           intros c o [H|[]]; discriminate).
    right. exists pattern, p.
    unfold bind, asString, ret, exec, perform in Er.
    rewrite <- app_assoc in Er. simpl in Er.
    destruct (execAsync w (t ++ [EvAccess (Path.resolve (process_cwd w) p)])
                (grepCommand w (sanitizePattern pattern) (sanitizePath p))
                execOptions) as [[stdout stderr]|e];
      eexists; (split; [reflexivity | split; [reflexivity | split;
                [exact Hv | exact Er]]]).
Qed.

End GrepFacts.

(** ** The file-read tool *)

Section ReadFacts.

Import ReadFileTool.

Variable w : World.

Lemma toHex_length (bytes : list N) :
  length (toHex bytes) = (2 * length bytes)%nat.
Proof.
  induction bytes as [|b l IH]; simpl; [reflexivity|]. rewrite IH. lia.
Qed.

Lemma toHex_digits (bytes : list N) :
  Forall (fun b => b < 256) bytes ->
  Forall (fun c => In c (str "0123456789abcdef")) (toHex bytes).
Proof.
  intros H. induction H as [|b l Hb _ IH]; simpl; [constructor|].
  assert (D : forall n, n < 16 -> In (hexDigit n) (str "0123456789abcdef")).
  { intros n Hn.
    assert (C : forallb (fun n => existsb (N.eqb (hexDigit n))
                                    (str "0123456789abcdef"))
                  (map N.of_nat (seq 0 16)) = true)
      by (vm_compute; reflexivity).
    rewrite forallb_forall in C.
    assert (Hin : In n (map N.of_nat (seq 0 16))).
    { apply in_map_iff. exists (N.to_nat n).
      split; [apply N2Nat.id | apply in_seq; lia]. }
    specialize (C n Hin). apply existsb_exists in C as (c & Hc & E).
    apply N.eqb_eq in E. now rewrite E. }
  constructor; [|constructor; [|exact IH]].
  - apply D. apply N.Div0.div_lt_upper_bound. lia.
  - apply D. apply N.mod_lt. lia.
Qed.

(** [readFileContent], step by step: the text with its header when the
    file reads as text and [stat] answers; otherwise the bytes, and an
    exception only when the bytes cannot be read either. *)
Lemma readFileContent_steps (filePath : jsstring) (t : trace) :
  readFileContent w filePath t
  = let bytes t0 :=
      match fs_readFile w t0 filePath with
      | Ret buffer =>
          (Ret (hexReport filePath buffer),
           t0 ++ [EvReadFile filePath false])
      | Throw binaryError =>
          (Throw (JsError (str "Failed to read file: "
                           ++ messageOrUnknown binaryError)),
           t0 ++ [EvReadFile filePath false])
      end in
    match fs_readFile_utf8 w t filePath with
    | Ret content =>
        match fs_stat w (t ++ [EvReadFile filePath true]) filePath with
        | Ret stats =>
            (Ret (textReport w filePath stats content),
             t ++ [EvReadFile filePath true; EvStat filePath])
        | Throw _ => bytes (t ++ [EvReadFile filePath true; EvStat filePath])
        end
    | Throw _ => bytes (t ++ [EvReadFile filePath true])
    end.
Proof.
  unfold readFileContent, tryCatch, bind, readFile_utf8, readFile, stat,
    perform, ret, throw, textReport, hexReport.
  destruct (fs_readFile_utf8 w t filePath) as [content|e1].
  - destruct (fs_stat w (t ++ [EvReadFile filePath true]) filePath)
      as [stats|e2]; rewrite <- !app_assoc; simpl;
      [reflexivity|].
    destruct (fs_readFile w _ filePath) as [buffer|e3]; reflexivity.
  - destruct (fs_readFile w _ filePath) as [buffer|e3]; reflexivity.
Qed.

Lemma report_header (filePath rest : jsstring) :
  startsWith (str "File: " ++ filePath ++ [10] ++ rest)
    (str "File: " ++ filePath ++ [10]) = true.
Proof.
  replace (str "File: " ++ filePath ++ [10] ++ rest)
    with ((str "File: " ++ filePath ++ [10]) ++ rest)
    by now rewrite <- !app_assoc.
  apply startsWith_app.
Qed.

Lemma textReport_header (filePath content : jsstring) (stats : Stats) :
  startsWith (textReport w filePath stats content)
    (str "File: " ++ filePath ++ [10]) = true.
Proof. unfold textReport. rewrite <- !app_assoc. apply report_header. Qed.

Lemma hexReport_header (filePath : jsstring) (buffer : list N) :
  startsWith (hexReport filePath buffer)
    (str "File: " ++ filePath ++ [10]) = true.
Proof. unfold hexReport. apply report_header. Qed.

Lemma readFileContent_fallback (filePath : jsstring) (t t0 : trace) :
  Effects.textFails w filePath t t0 ->
  readFileContent w filePath t
  = match fs_readFile w t0 filePath with
    | Ret buffer =>
        (Ret (hexReport filePath buffer), t0 ++ [EvReadFile filePath false])
    | Throw binaryError =>
        (Throw (JsError (str "Failed to read file: "
                         ++ messageOrUnknown binaryError)),
         t0 ++ [EvReadFile filePath false])
    end.
Proof.
  rewrite readFileContent_steps. cbv zeta.
  intros [[[e H] ->] | [(content & e & H1 & H2) ->]].
  - now rewrite H.
  - now rewrite H1, H2.
Qed.

(** When a file does not read as text, [readFileContent] returns its
    first 200 bytes in hexadecimal, two digits per byte and 400 digits at
    most, between the line that names the file and the line that gives
    its length. *)
Theorem hex_preview_bounded (filePath : jsstring) (t t0 : trace)
  (buffer : list N) :
  Effects.textFails w filePath t t0 ->
  fs_readFile w t0 filePath = Ret buffer ->
  exists hex,
    readFileContent w filePath t
    = (Ret (str "File: " ++ filePath ++ [10]
            ++ str "Note: Binary file detected, showing first 200 bytes as hex:"
            ++ [10; 10] ++ hex ++ [10; 10]
            ++ str "... (file is "
            ++ numberToString (Z.of_nat (length buffer))
            ++ str " bytes total)"),
       t0 ++ [EvReadFile filePath false])
    /\ hex = toHex (take 200 buffer)
    /\ length hex = (2 * Nat.min 200 (length buffer))%nat
    /\ (length hex <= 400)%nat
    /\ (Forall (fun b => b < 256) buffer ->
        Forall (fun c => In c (str "0123456789abcdef")) hex).
Proof.
  intros Hf Hb. exists (toHex (take 200 buffer)).
  rewrite (readFileContent_fallback filePath t t0 Hf), Hb.
  split; [reflexivity|]. split; [reflexivity|].
  rewrite toHex_length, length_take. repeat split; [lia|].
  intros Hall. apply toHex_digits. now apply Forall_take.
Qed.

Lemma readFileContent_header (filePath : jsstring) (t : trace) :
  forall out t',
    readFileContent w filePath t = (Ret out, t') ->
    startsWith out (str "File: " ++ filePath ++ [10]) = true.
Proof.
  intros out t'. rewrite readFileContent_steps. cbv zeta.
  destruct (fs_readFile_utf8 w t filePath) as [content|e1].
  - destruct (fs_stat w (t ++ [EvReadFile filePath true]) filePath)
      as [stats|e2].
    + intros [= <- _]. apply textReport_header.
    + destruct (fs_readFile w _ filePath) as [buffer|e3];
        [|discriminate].
      intros [= <- _]. apply hexReport_header.
  - destruct (fs_readFile w _ filePath) as [buffer|e3]; [|discriminate].
    intros [= <- _]. apply hexReport_header.
Qed.

(** The outcomes of [readFileContent]. What it returns opens with the
    line [File: path]; when the file reads as text and [stat] answers, it
    is the header followed by the content; and it throws exactly when the
    text path fails and the bytes cannot be read either, with a message
    that carries the reason of the second failure. *)
Theorem readFileContent_outcomes (filePath : jsstring) (t : trace) :
  (forall out t',
      readFileContent w filePath t = (Ret out, t') ->
      startsWith out (str "File: " ++ filePath ++ [10]) = true)
  /\ (forall content stats,
         fs_readFile_utf8 w t filePath = Ret content ->
         fs_stat w (t ++ [EvReadFile filePath true]) filePath = Ret stats ->
         readFileContent w filePath t
         = (Ret (str "File: " ++ filePath ++ [10]
                 ++ str "Size: " ++ formatFileSize w (size stats) ++ [10]
                 ++ str "Last Modified: " ++ mtime stats ++ [10]
                 ++ str "Extension: "
                 ++ (if truthy (Path.extname filePath)
                     then Path.extname filePath else str "none") ++ [10]
                 ++ [10] ++ str "--- File Content ---" ++ [10]
                 ++ content),
            t ++ [EvReadFile filePath true; EvStat filePath]))
  /\ (forall e t',
         readFileContent w filePath t = (Throw e, t') <->
         exists t0 binaryError,
           Effects.textFails w filePath t t0
           /\ fs_readFile w t0 filePath = Throw binaryError
           /\ e = JsError (str "Failed to read file: "
                           ++ messageOrUnknown binaryError)
           /\ t' = t0 ++ [EvReadFile filePath false]).
Proof.
  split; [|split].
  - apply readFileContent_header.
  - intros content stats H1 H2. rewrite readFileContent_steps. cbv zeta.
    rewrite H1, H2. unfold textReport. now rewrite <- !app_assoc.
  - intros e t'. split.
    + rewrite readFileContent_steps. cbv zeta.
      destruct (fs_readFile_utf8 w t filePath) as [content|e1] eqn:H1.
      * destruct (fs_stat w (t ++ [EvReadFile filePath true]) filePath)
          as [stats|e2] eqn:H2; [discriminate|].
        destruct (fs_readFile w _ filePath) as [buffer|e3] eqn:H3;
          [discriminate|].
        intros [= <- <-]. eexists _, e3. split; [|split; [exact H3|]].
        -- right. split; [|reflexivity]. now exists content, e2.
        -- split; reflexivity.
      * destruct (fs_readFile w _ filePath) as [buffer|e3] eqn:H3;
          [discriminate|].
        intros [= <- <-]. eexists _, e3. split; [|split; [exact H3|]].
        -- left. split; [|reflexivity]. now exists e1.
        -- split; reflexivity.
    + intros (t0 & binaryError & Hf & Hb & -> & ->).
      now rewrite (readFileContent_fallback filePath t t0 Hf), Hb.
Qed.

(** The effects of [readFileContent] are reads of the one file it is
    given: as text, then a [stat] or the bytes or both. *)
Lemma readFileContent_events (filePath : jsstring) (t : trace) :
  exists events,
    snd (readFileContent w filePath t) = t ++ events
    /\ (events = [EvReadFile filePath true; EvStat filePath]
        \/ events = [EvReadFile filePath true; EvStat filePath;
                     EvReadFile filePath false]
        \/ events = [EvReadFile filePath true; EvReadFile filePath false]).
Proof.
  rewrite readFileContent_steps. cbv zeta.
  destruct (fs_readFile_utf8 w t filePath) as [content|e1].
  - destruct (fs_stat w (t ++ [EvReadFile filePath true]) filePath)
      as [stats|e2].
    + eexists. split; [reflexivity|]. now left.
    + destruct (fs_readFile w _ filePath) as [buffer|e3];
        (eexists; split; [simpl; rewrite <- app_assoc; reflexivity|]);
        right; now left.
  - destruct (fs_readFile w _ filePath) as [buffer|e3];
      (eexists; split; [simpl; rewrite <- app_assoc; reflexivity|]);
      right; now right.
Qed.

(** [validateFile] does not throw; it probes the file system with one
    [stat] at most, and what it answers is a refusal or the acceptance of
    a string. *)
Lemma validateFile_cases (filePath : jsval) (t : trace) :
  exists v t',
    validateFile w filePath t = (Ret v, t')
    /\ ((Validation.valid v = false
         /\ (t' = t \/ exists abs, t' = t ++ [EvStat abs]))
        \/ (v = Validation.accepted
            /\ exists p,
                 filePath = VStr p
                 /\ t' = t ++ [EvStat (Path.resolve (process_cwd w) p)])).
Proof.
  unfold validateFile, tryCatch. unfold bind at 1.
  rewrite path_resolve_pure.
  destruct filePath as [ | | b | z | p | items | fields ];
    try (eexists _, _; split; [reflexivity | left; split; [reflexivity | now left]]).
  unfold bind, stat, perform, ret.
  destruct (fs_stat w t (Path.resolve (process_cwd w) p)) as [stats|e];
    [|eexists _, _; split; [reflexivity | left; split; [reflexivity | right; eauto]]].
  destruct (negb (isFile stats));
    [eexists _, _; split; [reflexivity | left; split; [reflexivity | right; eauto]]|].
  destruct (exceeds (size stats) (maxFileSize (config w)));
    [eexists _, _; split; [reflexivity | left; split; [reflexivity | right; eauto]]|].
  destruct (looksTraversing (Path.resolve (process_cwd w) p));
    [eexists _, _; split; [reflexivity | left; split; [reflexivity | right; eauto]]|].
  destruct (negb (arrayIncludes (allowedExtensions (config w))
                    (Path.extname (Path.resolve (process_cwd w) p)))
            && negb (bool_decide
                       (Path.extname (Path.resolve (process_cwd w) p) = [])));
    [eexists _, _; split; [reflexivity | left; split; [reflexivity | right; eauto]]|].
  destruct (negb (isAllowed w (Path.resolve (process_cwd w) p)));
    eexists _, _; (split; [reflexivity|]).
  - left. split; [reflexivity | right; eauto].
  - right. split; [reflexivity | eauto].
Qed.

(** [execute] once the file path is a string and the verdict of
    [validateFile] is known. *)
Lemma read_execute_validated (parameters : jsval) (p : jsstring)
  (t t1 : trace) (v : Validation.t) :
  getProp w parameters (str "filepath") t = (Ret (VStr p), t) ->
  validateFile w (VStr p) t = (Ret v, t1) ->
  execute w parameters t
  = if Validation.valid v then
      match readFileContent w (Path.resolve (process_cwd w) p) t1 with
      | (Ret content, t2) => (Ret (succeeded content), t2)
      | (Throw e, t2) => (Ret (failed e), t2)
      end
    else
      (Ret {| success := false;
              output := [];
              error := Some (default [] (Validation.error v)) |}, t1).
Proof.
  intros Hp Hv. unfold execute, tryCatch. unfold bind at 1. rewrite Hp.
  unfold bind at 1. rewrite logged_pure. cbn [interpolates].
  unfold bind at 1. rewrite Hv.
  destruct (Validation.valid v); cbn [negb]; [|reflexivity].
  unfold bind at 1. rewrite path_resolve_pure. unfold bind, ret.
  destruct (readFileContent w (Path.resolve (process_cwd w) p) t1)
    as [[content|e] t2]; reflexivity.
Qed.

(** The file-read tool reads only what [validateFile] has accepted. Either
    it fails without reading anything; or the file path is a string that
    was accepted, and then every effect after the [stat] of validation is
    on the resolved path, the one that was validated: its read as text,
    followed by a [stat], by its read as bytes, or by both. The result is
    then what [readFileContent] makes of that path, and a success gives an
    output that opens with the line [File:] and the resolved path. *)
Theorem readFile_reads_only_validated (parameters : jsval) (t : trace) :
  (exists e events,
      execute w parameters t = (Ret (failed e), t ++ events)
      /\ forall path utf8, ~ In (EvReadFile path utf8) events)
  \/ (exists p result events,
         let absolutePath := Path.resolve (process_cwd w) p in
         getProp w parameters (str "filepath") t = (Ret (VStr p), t)
         /\ validateFile w (VStr p) t
            = (Ret Validation.accepted, t ++ [EvStat absolutePath])
         /\ execute w parameters t
            = (Ret result, (t ++ [EvStat absolutePath]) ++ events)
         /\ (events = [EvReadFile absolutePath true; EvStat absolutePath]
             \/ events = [EvReadFile absolutePath true; EvStat absolutePath;
                          EvReadFile absolutePath false]
             \/ events = [EvReadFile absolutePath true;
                          EvReadFile absolutePath false])
         /\ (result, (t ++ [EvStat absolutePath]) ++ events)
            = match readFileContent w absolutePath (t ++ [EvStat absolutePath])
              with
              | (Ret content, t') => (succeeded content, t')
              | (Throw e, t') => (failed e, t')
              end
         /\ (success result = true ->
             startsWith (output result)
               (str "File: " ++ absolutePath ++ [10])
             = true)).
Proof.
  destruct (getProp_pure w parameters (str "filepath") t) as [o1 H1].
  destruct o1 as [filepath|e].
  2: { left. exists e, []. rewrite app_nil_r. split; [|tauto].
       unfold execute, tryCatch. unfold bind at 1. now rewrite H1. }
  destruct (interpolates filepath) eqn:Hi.
  2: { left. eexists _, []. rewrite app_nil_r. split; [|tauto].
       unfold execute, tryCatch. unfold bind at 1. rewrite H1.
       unfold bind at 1. rewrite logged_pure, Hi. reflexivity. }
  destruct (validateFile_cases filepath t)
    as (v & t1 & Hv & [[Hbad Ht1] | [-> (p & -> & ->)]]).
  - left.
    assert (E : execute w parameters t
                = (Ret (failed (JsError (default [] (Validation.error v)))),
                   t1)).
    { unfold execute, tryCatch. unfold bind at 1. rewrite H1.
      unfold bind at 1. rewrite logged_pure, Hi.
      unfold bind at 1. rewrite Hv, Hbad. reflexivity. }
    destruct Ht1 as [-> | [abs ->]].
    + eexists _, []. rewrite app_nil_r. split; [exact E | tauto].
    + eexists _, [_]. split; [exact E|].
      intros c o [H|[]]. discriminate.
  - right.
    rewrite (read_execute_validated parameters p t _ _ H1 Hv).
    cbn [Validation.valid Validation.accepted].
    destruct (readFileContent_events (Path.resolve (process_cwd w) p)
                (t ++ [EvStat (Path.resolve (process_cwd w) p)]))
      as (events & Hev & Hshape).
    pose proof (readFileContent_header
                  (Path.resolve (process_cwd w) p)
                  (t ++ [EvStat (Path.resolve (process_cwd w) p)]))
      as Hhead.
    destruct (readFileContent w (Path.resolve (process_cwd w) p)
                (t ++ [EvStat (Path.resolve (process_cwd w) p)]))
      as [[content|e] t2] eqn:Er; simpl in Hev; subst t2.
    + exists p, (succeeded content), events. cbv zeta. rewrite Er.
      split; [exact H1|]. split; [exact Hv|]. split; [reflexivity|].
      split; [exact Hshape|]. split; [reflexivity|].
      intros _. exact (Hhead content _ eq_refl).
    + exists p, (failed e), events. cbv zeta. rewrite Er.
      split; [exact H1|]. split; [exact Hv|]. split; [reflexivity|].
      split; [exact Hshape|]. split; [reflexivity|]. discriminate.
Qed.

End ReadFacts.

(** [hex_preview_bounded] at work: a file of three bytes that does not
    read as text. *)
Lemma hex_preview_witness :
  ReadFileTool.readFileContent Sample.textless (str "/home/app/core") []
  = (Ret (str "File: /home/app/core
Note: Binary file detected, showing first 200 bytes as hex:

00ff10

... (file is 3 bytes total)"),
     [EvReadFile (str "/home/app/core") true;
      EvReadFile (str "/home/app/core") false]).
Proof.
  destruct (hex_preview_bounded Sample.textless (str "/home/app/core")
              [] [EvReadFile (str "/home/app/core") true] [0; 255; 16])
    as (hex & E & -> & _).
  - left. split; [eexists; reflexivity | reflexivity].
  - reflexivity.
  - rewrite E. vm_compute. reflexivity.
Defined.

(** ** The listing tool *)

Section ListingFacts.

Import FolderIndexingTool Design.

Variable w : World.

Lemma insertEntry_Permutation (x : Dirent) (l : list Dirent) :
  Permutation (insertEntry w x l) (x :: l).
Proof.
  induction l as [|y l IH]; simpl; [reflexivity|].
  destruct (compareEntries w x y <=? 0)%Z; [reflexivity|].
  rewrite IH. apply perm_swap.
Qed.

Lemma insertEntry_Forall (P : Dirent -> Prop) (x : Dirent)
  (l : list Dirent) :
  P x -> Forall P l -> Forall P (insertEntry w x l).
Proof.
  intros Hx Hl. induction Hl as [|y l Hy Hl IH]; simpl.
  - now repeat constructor.
  - destruct (compareEntries w x y <=? 0)%Z; now repeat constructor.
Qed.

(** Inserting into a list that has its directories first leaves the
    directories first, whatever the order of the locale is. *)
Lemma insertEntry_directories_first (x : Dirent) (dirs files : list Dirent) :
  Forall (fun e => d_isDirectory e = true) dirs ->
  Forall (fun e => d_isDirectory e = false) files ->
  exists dirs' files',
    insertEntry w x (dirs ++ files) = dirs' ++ files'
    /\ Forall (fun e => d_isDirectory e = true) dirs'
    /\ Forall (fun e => d_isDirectory e = false) files'.
Proof.
  intros Hd Hf. induction Hd as [|d ds Hd_d Hds IH]; simpl.
  - destruct (d_isDirectory x) eqn:Hx.
    + exists [x], files. repeat split; [|now repeat constructor | exact Hf].
      destruct Hf as [|y fs Hy Hfs]; simpl; [reflexivity|].
      unfold compareEntries. rewrite Hx, Hy. reflexivity.
    + exists [], (insertEntry w x files). repeat split; [constructor|].
      now apply insertEntry_Forall.
  - destruct (compareEntries w x d <=? 0)%Z eqn:Hc.
    + destruct (d_isDirectory x) eqn:Hx.
      * exists (x :: d :: ds), files.
        repeat split; [now repeat constructor | exact Hf].
      * unfold compareEntries in Hc. rewrite Hx, Hd_d in Hc.
        simpl in Hc. discriminate.
    + destruct IH as (dirs' & files' & E & Hd' & Hf').
      exists (d :: dirs'), files'. rewrite E.
      repeat split; [now constructor | exact Hf'].
Qed.

(** The entries are listed in an order that is a rearrangement of what the
    directory holds and has every directory before every file, whatever
    the order of the locale is. *)
Theorem sortEntries_directories_first (entries : list Dirent) :
  Permutation (sortEntries w entries) entries
  /\ exists dirs files,
       sortEntries w entries = dirs ++ files
       /\ Forall (fun e => d_isDirectory e = true) dirs
       /\ Forall (fun e => d_isDirectory e = false) files.
Proof.
  unfold sortEntries. induction entries as [|x l [IHp IHd]]; simpl.
  - split; [reflexivity|]. exists [], []. repeat split; constructor.
  - split.
    + rewrite insertEntry_Permutation. now constructor.
    + destruct IHd as (dirs & files & -> & Hd & Hf).
      now apply insertEntry_directories_first.
Qed.

(** Reading the entries of a directory does not throw: what goes wrong is
    written into the listing. *)
Lemma listEntries_Returns (remaining : nat) (dirPath : jsstring)
  (depth : nat) :
  Returns (fun _ => True) (listEntries w remaining dirPath depth).
Proof.
  destruct remaining; simpl; apply tryCatch_Returns;
    try (intros t a t' _; exact I);
    intros e; now apply Returns_ret.
Qed.

(** A directory that cannot be read is one line of the listing, at its
    depth. *)
Lemma listEntries_unreadable (remaining : nat) (dirPath : jsstring)
  (depth : nat) (t : trace) (e : exn) :
  fs_readdir w t dirPath = Throw e ->
  listEntries w remaining dirPath depth t
  = (Ret (indentation depth ++ str "Error reading directory: "
          ++ messageOrUnknown e ++ [10]),
     t ++ [EvReaddir dirPath]).
Proof.
  intros H. destruct remaining; cbn [listEntries];
    unfold tryCatch, bind, readdir, perform; rewrite H; reflexivity.
Qed.

(** So is a directory whose first entry is a file that [stat] refuses. *)
Lemma listEntries_unstattable (remaining : nat) (dirPath : jsstring)
  (depth : nat) (t : trace) (entries rest : list Dirent) (file : Dirent)
  (e : exn) :
  fs_readdir w t dirPath = Ret entries ->
  sortEntries w entries = file :: rest ->
  d_isDirectory file = false ->
  fs_stat w (t ++ [EvReaddir dirPath])
    (Path.joinEntry dirPath (d_name file)) = Throw e ->
  listEntries w remaining dirPath depth t
  = (Ret (indentation depth ++ str "Error reading directory: "
          ++ messageOrUnknown e ++ [10]),
     t ++ [EvReaddir dirPath;
           EvStat (Path.joinEntry dirPath (d_name file))]).
Proof.
  intros Hdir Hsort Hfile Hstat.
  destruct remaining; cbn [listEntries];
    unfold tryCatch; unfold bind at 1; unfold readdir, perform;
    rewrite Hdir, Hsort, Hfile; unfold bind at 1; unfold stat, perform;
    rewrite Hstat, <- app_assoc; reflexivity.
Qed.

(** [execute] once the path is a string and the verdict of [validatePath]
    is known. *)
Lemma folder_execute_validated (parameters : jsval) (p : jsstring)
  (t t1 : trace) (v : Validation.t) :
  getProp w parameters (str "path") t = (Ret (VStr p), t) ->
  validatePath w (VStr p) t = (Ret v, t1) ->
  execute w parameters t
  = if Validation.valid v then
      match listDirectoryContents w (Path.resolve (process_cwd w) p) 0 3 t1
      with
      | (Ret contents, t2) => (Ret (succeeded contents), t2)
      | (Throw e, t2) => (Ret (failed e), t2)
      end
    else
      (Ret {| success := false;
              output := [];
              error := Some (default [] (Validation.error v)) |}, t1).
Proof.
  intros Hp Hv. unfold execute, tryCatch. unfold bind at 1. rewrite Hp.
  unfold bind at 1. rewrite logged_pure. cbn [interpolates].
  unfold bind at 1. rewrite Hv.
  destruct (Validation.valid v); cbn [negb]; [|reflexivity].
  unfold bind at 1. rewrite path_resolve_pure. unfold bind, ret.
  destruct (listDirectoryContents w (Path.resolve (process_cwd w) p) 0 3 t1)
    as [[contents|e] t2]; reflexivity.
Qed.

(** Once [validatePath] has accepted the directory, the listing tool
    succeeds, and its output is what [listDirectoryContents] makes of the
    resolved path down to three levels. A directory that cannot be read
    does not fail the tool: at the top the whole output is the line
    [Error reading directory:] with the message of the failure, and the
    only effect after validation is the attempt to read it; at any level
    the directory contributes that line at its depth, and so does a
    directory whose first entry is a file that [stat] refuses. *)
Theorem listing_succeeds_once_validated (parameters path : jsval)
  (t t1 : trace) :
  getProp w parameters (str "path") t = (Ret path, t) ->
  validatePath w path t = (Ret Validation.accepted, t1) ->
  (exists p contents t',
      path = VStr p
      /\ t1 = t ++ [EvStat (Path.resolve (process_cwd w) p)]
      /\ listDirectoryContents w (Path.resolve (process_cwd w) p) 0 3 t1
         = (Ret contents, t')
      /\ execute w parameters t
         = (Ret {| success := true; output := contents; error := None |},
            t')
      /\ (forall e,
             fs_readdir w t1 (Path.resolve (process_cwd w) p) = Throw e ->
             contents = str "Error reading directory: "
                        ++ messageOrUnknown e ++ [10]
             /\ t' = t1 ++ [EvReaddir (Path.resolve (process_cwd w) p)]))
  /\ (forall remaining dirPath depth t0 e,
         fs_readdir w t0 dirPath = Throw e ->
         listEntries w remaining dirPath depth t0
         = (Ret (indentation depth ++ str "Error reading directory: "
                 ++ messageOrUnknown e ++ [10]),
            t0 ++ [EvReaddir dirPath]))
  /\ (forall remaining dirPath depth t0 entries file rest e,
         fs_readdir w t0 dirPath = Ret entries ->
         sortEntries w entries = file :: rest ->
         d_isDirectory file = false ->
         fs_stat w (t0 ++ [EvReaddir dirPath])
           (Path.joinEntry dirPath (d_name file)) = Throw e ->
         listEntries w remaining dirPath depth t0
         = (Ret (indentation depth ++ str "Error reading directory: "
                 ++ messageOrUnknown e ++ [10]),
            t0 ++ [EvReaddir dirPath;
                   EvStat (Path.joinEntry dirPath (d_name file))])).
Proof.
  intros Hp Hv.
  split; [|split; [intros; now apply listEntries_unreadable
                  |intros; now apply (listEntries_unstattable _ _ _ _
                                        entries rest)]].
  destruct (folder_validatePath_accepts w path t t1 Hv)
    as (p & stats & -> & -> & _).
  rewrite (folder_execute_validated parameters p t _ _ Hp Hv).
  cbn [Validation.valid Validation.accepted].
  unfold listDirectoryContents. cbn [Nat.ltb Nat.leb Nat.sub].
  destruct (listEntries_Returns 3 (Path.resolve (process_cwd w) p) 0
              (t ++ [EvStat (Path.resolve (process_cwd w) p)]))
    as (contents & t' & E & _).
  exists p, contents, t'. rewrite E.
  split; [reflexivity|]. split; [reflexivity|]. split; [reflexivity|].
  split; [reflexivity|].
  intros e He. rewrite (listEntries_unreadable _ _ _ _ e He) in E.
  injection E as <- <-. split; reflexivity.
Qed.

End ListingFacts.

(** [listing_succeeds_once_validated] at work: the working directory of
    the sample deployment, a directory that the process may not read. *)
Lemma listing_succeeds_witness :
  FolderIndexingTool.execute Sample.unreadable
    (VObj [(str "path", VStr (str "."))]) []
  = (Ret {| success := true;
            output := str "Error reading directory: EACCES: permission denied"
                      ++ [10];
            error := None |},
     [EvStat (str "/home/app"); EvReaddir (str "/home/app")]).
Proof.
  destruct (proj1 (listing_succeeds_once_validated Sample.unreadable
                     (VObj [(str "path", VStr (str "."))]) (VStr (str "."))
                     [] [EvStat (str "/home/app")] eq_refl eq_refl))
    as (p & contents & t' & Hp & _ & _ & He & Hr).
  injection Hp as <-.
  destruct (Hr (JsError (str "EACCES: permission denied")) eq_refl)
    as [-> ->].
  exact He.
Defined.

(** [validateFile_accepts_sound] at work: the notes of the sample
    deployment. *)
Lemma validateFile_accepts_witness :
  exists p stats,
    VStr Sample.notes = VStr p
    /\ [EvStat Sample.notes]
       = [] ++ [EvStat (Path.resolve (process_cwd Sample.world) p)]
    /\ fs_stat Sample.world [] (Path.resolve (process_cwd Sample.world) p)
       = Ret stats
    /\ isFile stats = true
    /\ (forall ceiling,
           maxFileSize (config Sample.world) = Some ceiling ->
           (size stats <= ceiling)%Z)
    /\ looksTraversing (Path.resolve (process_cwd Sample.world) p) = false
    /\ (Path.extname (Path.resolve (process_cwd Sample.world) p) = []
        \/ In (Path.extname (Path.resolve (process_cwd Sample.world) p))
              (allowedExtensions (config Sample.world)))
    /\ isAllowed Sample.world (Path.resolve (process_cwd Sample.world) p)
       = true.
Proof.
  apply (validateFile_accepts_sound Sample.world (VStr Sample.notes) []
           [EvStat Sample.notes]).
  vm_compute. reflexivity.
Defined.

(** ** The contract of [execute], failure by failure *)

Section ContractFacts.

Import ToolRegistry Design.

Variable w : World.



End ContractFacts.



(** ** The effects of the tools *)

Section EffectFacts.

Import Effects.

Lemma Emits_ret {A} (Q : event -> Prop) (a : A) : Emits Q (ret a).
Proof. intros t. exists []. now rewrite app_nil_r. Qed.

Lemma Emits_throw {A} (Q : event -> Prop) (e : exn) : Emits Q (@throw A e).
Proof. intros t. exists []. now rewrite app_nil_r. Qed.

Lemma Emits_lift {A} (Q : event -> Prop) (o : outcome A) : Emits Q (lift o).
Proof. intros t. exists []. now rewrite app_nil_r. Qed.

Lemma Emits_perform {A} (Q : event -> Prop) (ev : event)
  (answer : trace -> outcome A) :
  Q ev -> Emits Q (perform ev answer).
Proof. intros H t. exists [ev]. split; [reflexivity | now constructor]. Qed.

Lemma Emits_bind {A B} (Q : event -> Prop) (m : M A) (k : A -> M B) :
  Emits Q m -> (forall a, Emits Q (k a)) -> Emits Q (bind m k).
Proof.
  intros Hm Hk t. destruct (Hm t) as (ev1 & E1 & Q1). unfold bind.
  destruct (m t) as [[a|e] t1]; simpl in E1; subst t1.
  - destruct (Hk a (t ++ ev1)) as (ev2 & E2 & Q2).
    exists (ev1 ++ ev2). rewrite E2, app_assoc. split; [reflexivity|].
    now apply Forall_app.
  - now exists ev1.
Qed.

(** After an effect, only the answers that the platform can give there
    need to be followed. *)
Lemma Emits_bind_perform {A B} (Q : event -> Prop) (ev : event)
  (answer : trace -> outcome A) (k : A -> M B) :
  Q ev ->
  (forall t a, answer t = Ret a -> Emits Q (k a)) ->
  Emits Q (bind (perform ev answer) k).
Proof.
  intros Hev Hk t. unfold bind, perform.
  destruct (answer t) as [a|e] eqn:E.
  - destruct (Hk t a E (t ++ [ev])) as (evs & E2 & Q2).
    exists (ev :: evs). rewrite E2, <- app_assoc. split; [reflexivity|].
    now constructor.
  - exists [ev]. split; [reflexivity | now repeat constructor].
Qed.

Lemma Emits_bind_ret {A B} (Q : event -> Prop) (a : A) (k : A -> M B) :
  Emits Q (k a) -> Emits Q (bind (ret a) k).
Proof. intros H t. exact (H t). Qed.

Lemma Emits_tryCatch {A} (Q : event -> Prop) (body : M A)
  (handler : exn -> M A) :
  Emits Q body -> (forall e, Emits Q (handler e)) ->
  Emits Q (tryCatch body handler).
Proof.
  intros Hb Hh t. destruct (Hb t) as (ev1 & E1 & Q1). unfold tryCatch.
  destruct (body t) as [[a|e] t1]; simpl in E1; subst t1.
  - now exists ev1.
  - destruct (Hh e (t ++ ev1)) as (ev2 & E2 & Q2).
    exists (ev1 ++ ev2). rewrite E2, app_assoc. split; [reflexivity|].
    now apply Forall_app.
Qed.

Lemma Emits_weaken {A} (P Q : event -> Prop) (m : M A) :
  (forall ev, P ev -> Q ev) -> Emits P m -> Emits Q m.
Proof.
  intros H Hm t. destruct (Hm t) as (evs & E & HP).
  exists evs. split; [exact E|]. eapply Forall_impl; eauto.
Qed.

Lemma Emits_getProp (Q : event -> Prop) (w : World) (v : jsval)
  (k : jsstring) :
  Emits Q (getProp w v k).
Proof. destruct v; simpl; first [apply Emits_ret | apply Emits_throw]. Qed.

Lemma Emits_logged (Q : event -> Prop) (w : World) (v : jsval) :
  Emits Q (logged w v).
Proof.
  unfold logged. destruct (interpolates v);
    first [apply Emits_ret | apply Emits_throw].
Qed.

Lemma Emits_asString (Q : event -> Prop) (w : World) (v : jsval) :
  Emits Q (asString w v).
Proof. destruct v; simpl; first [apply Emits_ret | apply Emits_throw]. Qed.

Lemma Emits_path_resolve (Q : event -> Prop) (w : World) (v : jsval) :
  Emits Q (path_resolve w v).
Proof.
  unfold path_resolve. apply Emits_bind; [apply Emits_asString|].
  intros a. apply Emits_ret.
Qed.

End EffectFacts.

(** Follow a body through its steps, leaving the effects to be judged. *)
Ltac emits :=
  repeat first
    [ apply Emits_ret
    | apply Emits_throw
    | apply Emits_lift
    | apply Emits_getProp
    | apply Emits_asString
    | apply Emits_logged
    | apply Emits_path_resolve
    | apply Emits_perform; exact I
    | apply Emits_tryCatch; [|intros ?]
    | apply Emits_bind; [|intros ?]
    | progress cbv zeta
    | match goal with
      | |- Effects.Emits _ (if ?b then _ else _) => destruct b
      | |- Effects.Emits _ (let '(_, _) := ?p in _) => destruct p
      | |- Effects.Emits _ (match ?x with Some _ => _ | None => _ end) =>
          destruct x
      end ].

(** ** Paths below a directory *)

Section PathFacts.

Import Effects.

Lemma split_free (sep : N) (s : jsstring) :
  existsb (N.eqb sep) s = false -> split sep s = [s].
Proof.
  induction s as [|c s IH]; simpl; [reflexivity|].
  intros H. apply orb_false_iff in H as [Hc Hs].
  rewrite N.eqb_sym, Hc, (IH Hs). reflexivity.
Qed.

Lemma split_app_sep (sep : N) (a b : jsstring) :
  existsb (N.eqb sep) a = false ->
  split sep (a ++ sep :: b) = a :: split sep b.
Proof.
  induction a as [|c a IH]; simpl.
  - intros _. now rewrite N.eqb_refl.
  - intros H. apply orb_false_iff in H as [Hc Ha].
    rewrite N.eqb_sym, Hc, (IH Ha). reflexivity.
Qed.

Lemma split_cons_sep (sep : N) (b : jsstring) :
  split sep (sep :: b) = [] :: split sep b.
Proof. simpl. now rewrite N.eqb_refl. Qed.

(** No piece of [s.split(sep)] holds the separator. *)
Lemma split_pieces_free (sep : N) (s : jsstring) :
  Forall (fun piece => existsb (N.eqb sep) piece = false) (split sep s).
Proof.
  induction s as [|c s IH]; simpl.
  - now repeat constructor.
  - destruct (c =? sep) eqn:Hc.
    + now constructor.
    + destruct (split sep s) as [|piece pieces].
      * repeat constructor. simpl. now rewrite N.eqb_sym, Hc.
      * inversion IH as [|? ? Hp Hps]; subst. constructor; [|exact Hps].
        simpl. now rewrite N.eqb_sym, Hc.
Qed.

Lemma plainName_inv (name : jsstring) :
  plainName name = true ->
  existsb (N.eqb Path.slash) name = false
  /\ bool_decide (name = []) || bool_decide (name = [Path.period]) = false
  /\ bool_decide (name = [Path.period; Path.period]) = false.
Proof.
  unfold plainName. intros H.
  apply andb_true_iff in H as [H H2]. apply andb_true_iff in H as [H H1].
  apply andb_true_iff in H as [Ht Hs].
  apply negb_true_iff in Hs, H1, H2.
  repeat split; [exact Hs | | exact H2].
  rewrite H1, orb_false_r. apply bool_decide_eq_false_2.
  intros ->. discriminate.
Qed.

Lemma plainName_intro (name : jsstring) :
  existsb (N.eqb Path.slash) name = false ->
  bool_decide (name = []) || bool_decide (name = [Path.period]) = false ->
  bool_decide (name = [Path.period; Path.period]) = false ->
  plainName name = true.
Proof.
  intros Hs H1 H2. apply orb_false_iff in H1 as [H0 H1].
  unfold plainName. rewrite Hs, H1, H2.
  destruct name; [|reflexivity].
  rewrite bool_decide_eq_true_2 in H0; [discriminate | reflexivity].
Qed.

Lemma normalizeSegments_empty (segs acc : list jsstring) :
  Path.normalizeSegments ([] :: segs) acc = Path.normalizeSegments segs acc.
Proof. reflexivity. Qed.

(** Plain segments pass [normalizeString] as they are. *)
Lemma normalizeSegments_plain (segs acc : list jsstring) :
  Forall (fun name => plainName name = true) segs ->
  Path.normalizeSegments segs acc = rev acc ++ segs.
Proof.
  intros H. revert acc.
  induction H as [|seg segs Hseg _ IH]; intros acc; simpl.
  - now rewrite app_nil_r.
  - destruct (plainName_inv seg Hseg) as (_ & H1 & H2).
    rewrite H1, H2, IH. simpl. now rewrite <- app_assoc.
Qed.

(** What is left by [normalizeString] is plain. *)
Lemma normalizeSegments_Forall (segs acc : list jsstring) :
  Forall (fun piece => existsb (N.eqb Path.slash) piece = false) segs ->
  Forall (fun name => plainName name = true) acc ->
  Forall (fun name => plainName name = true)
    (Path.normalizeSegments segs acc).
Proof.
  intros H. revert acc.
  induction H as [|seg segs Hseg _ IH]; intros acc Hacc; simpl.
  - now apply Forall_rev.
  - match goal with
    | |- context [if ?b then _ else _] => destruct b eqn:H1
    end; [now apply IH|].
    match goal with
    | |- context [if ?b then _ else _] => destruct b eqn:H2
    end.
    + apply IH. destruct Hacc; [constructor | assumption].
    + apply IH. constructor; [|exact Hacc].
      now apply plainName_intro.
Qed.

Lemma split_join_name (segs : list jsstring) (name : jsstring) :
  Forall (fun name => plainName name = true) segs ->
  plainName name = true ->
  split Path.slash (join [Path.slash] segs ++ Path.slash :: name)
  = match segs with
    | [] => [[]; name]
    | _ => segs ++ [name]
    end.
Proof.
  intros H Hname.
  destruct (plainName_inv name Hname) as (Hfree & _).
  induction H as [|p ps Hp Hps IH].
  - simpl join. simpl app. rewrite split_cons_sep.
    now rewrite split_free.
  - destruct (plainName_inv p Hp) as (Hpfree & _).
    destruct ps as [|q qs].
    + simpl join. rewrite split_app_sep by exact Hpfree.
      now rewrite split_free.
    + change (join [Path.slash] (p :: q :: qs))
        with (p ++ [Path.slash] ++ join [Path.slash] (q :: qs)).
      rewrite <- !app_assoc.
      change ([Path.slash]
              ++ join [Path.slash] (q :: qs) ++ Path.slash :: name)
        with (Path.slash
              :: (join [Path.slash] (q :: qs) ++ Path.slash :: name)).
      rewrite split_app_sep by exact Hpfree. now rewrite IH.
Qed.

(** Joining a plain name to a directory goes one level down. *)
Lemma joinEntry_plain (root : list jsstring) (name : jsstring) :
  Forall (fun name => plainName name = true) root ->
  plainName name = true ->
  Path.joinEntry (pathOf root) name = pathOf (root ++ [name]).
Proof.
  intros Hroot Hname. unfold Path.joinEntry, pathOf. do 2 f_equal.
  change ((Path.slash :: join [Path.slash] root) ++ [Path.slash] ++ name)
    with (Path.slash
          :: (join [Path.slash] root ++ Path.slash :: name)).
  rewrite split_cons_sep.
  rewrite (split_join_name root name Hroot Hname).
  rewrite normalizeSegments_empty.
  destruct root as [|p ps].
  - rewrite normalizeSegments_empty.
    rewrite normalizeSegments_plain; [reflexivity|].
    now repeat constructor.
  - rewrite normalizeSegments_plain; [reflexivity|].
    apply Forall_app. split; [exact Hroot | now repeat constructor].
Qed.

(** A resolved path is made of plain segments. *)
Lemma resolvedSegments_plain (w : World) (p : jsstring) :
  Forall (fun name => plainName name = true) (resolvedSegments w p).
Proof.
  unfold resolvedSegments. apply normalizeSegments_Forall.
  - apply split_pieces_free.
  - constructor.
Qed.

Lemma below_deeper (n : nat) (root : list jsstring) (name path : jsstring) :
  plainName name = true ->
  below n (root ++ [name]) path -> below (S n) root path.
Proof.
  intros Hname (names & Hlen & Hnames & ->).
  exists (name :: names). repeat split.
  - simpl. lia.
  - now constructor.
  - now rewrite <- app_assoc.
Qed.

Lemma listingWithin_deeper (n : nat) (root : list jsstring) (name : jsstring)
  (ev : event) :
  plainName name = true ->
  listingWithin n (root ++ [name]) ev -> listingWithin (S n) root ev.
Proof.
  intros Hname. destruct ev; simpl; try tauto; now apply below_deeper.
Qed.

Lemma below_root (n : nat) (root : list jsstring) :
  below n root (pathOf root).
Proof.
  exists []. rewrite app_nil_r. repeat split; [simpl; lia | constructor].
Qed.

Lemma below_entry (n : nat) (root : list jsstring) (name : jsstring) :
  plainName name = true -> below (S n) root (pathOf (root ++ [name])).
Proof.
  intros Hname. exists [name].
  repeat split; [simpl; lia | now repeat constructor].
Qed.

End PathFacts.

Section ToolEffects.

Import Effects.

Variable w : World.

(** The listing looks at directories and their entries, and does nothing
    else. *)
Lemma listEntries_looksAtDirectories (remaining : nat) :
  forall dirPath depth,
    Emits looksAtDirectories
      (FolderIndexingTool.listEntries w remaining dirPath depth).
Proof.
  induction remaining as [|r IH]; intros dirPath depth;
    cbn [FolderIndexingTool.listEntries];
    (apply Emits_tryCatch; [|intros e; apply Emits_ret]);
    (apply Emits_bind; [apply Emits_perform; exact I|]);
    intros entries;
    match goal with
    | |- Emits ?Q (?loop ?es ?res) =>
        cut (forall sorted result, Emits Q (loop sorted result));
        [intros L; apply L|]
    end;
    intros sorted; induction sorted as [|entry rest IHl]; intros result;
    try apply Emits_ret;
    (destruct (d_isDirectory entry) eqn:Hdir;
     [| apply Emits_bind;
        [ apply Emits_perform; exact I | intros stats; apply IHl ] ]).
  - apply IHl.
  - apply Emits_bind; [|intros sub; apply IHl].
    apply Emits_tryCatch; [|intros e; apply Emits_ret]. apply IH.
Qed.

Lemma sortEntries_Forall (P : Dirent -> Prop) (entries : list Dirent) :
  Forall P entries -> Forall P (FolderIndexingTool.sortEntries w entries).
Proof.
  unfold FolderIndexingTool.sortEntries.
  induction 1 as [|x l Hx _ IH]; simpl; [constructor|].
  now apply insertEntry_Forall.
Qed.

(** On a file system whose directories hold plain names, reading a
    directory [remaining] levels above the ceiling stays within
    [remaining] levels below it. *)
Lemma listEntries_within (remaining : nat) :
  plainEntries w ->
  forall root depth,
    Forall (fun name => plainName name = true) root ->
    Emits (listingWithin remaining root)
      (FolderIndexingTool.listEntries w remaining (pathOf root) depth).
Proof.
  intros Hplain.
  induction remaining as [|r IH]; intros root depth Hroot;
    cbn [FolderIndexingTool.listEntries];
    (apply Emits_tryCatch; [|intros e; apply Emits_ret]);
    (apply Emits_bind_perform; [apply below_root|]);
    intros t entries Hentries;
    pose proof (sortEntries_Forall _ _ (Hplain t _ _ Hentries)) as Hsorted;
    revert Hsorted;
    match goal with
    | |- _ -> Emits ?Q (?loop ?es ?res) =>
        cut (forall sorted result,
                Forall (fun entry => plainName (d_name entry) = true) sorted ->
                Emits Q (loop sorted result));
        [intros L; apply L|]
    end;
    intros sorted; induction sorted as [|entry rest IHl];
    intros result Hsorted;
    try apply Emits_ret;
    inversion Hsorted as [|? ? Hentry Hrest]; subst;
    rewrite (joinEntry_plain root (d_name entry) Hroot Hentry);
    (destruct (d_isDirectory entry) eqn:Hdir;
     [| apply Emits_bind;
        [ apply Emits_perform; now apply below_entry
        | intros stats; now apply IHl ] ]).
  - now apply IHl.
  - apply Emits_bind; [|intros sub; now apply IHl].
    apply Emits_tryCatch; [|intros e; apply Emits_ret].
    apply (Emits_weaken (listingWithin r (root ++ [d_name entry]))).
    + intros ev. now apply listingWithin_deeper.
    + apply IH. apply Forall_app. split; [exact Hroot|].
      now repeat constructor.
Qed.

(** On a file system whose directories hold plain names, the listing
    reads no directory more than three levels below the one it is asked
    for: every directory it reads is the requested one followed by at most
    three names, every entry it looks at with [stat] by at most four; it
    reads the content of no file and spawns nothing. This holds of
    [listDirectoryContents] from any directory, and of the tool for the
    directory that [path.resolve] makes of its parameter. *)
Theorem listing_depth_bounded :
  plainEntries w ->
  (forall root,
      Forall (fun name => plainName name = true) root ->
      Emits (listingWithin 3 root)
        (FolderIndexingTool.listDirectoryContents w (pathOf root) 0 3))
  /\ (forall parameters p,
         getProp w parameters (str "path") = ret (VStr p) ->
         Path.resolve (process_cwd w) p = pathOf (resolvedSegments w p)
         /\ Emits (listingWithin 3 (resolvedSegments w p))
              (FolderIndexingTool.execute w parameters)).
Proof.
  intros Hplain. split.
  - intros root Hroot. unfold FolderIndexingTool.listDirectoryContents.
    cbn [Nat.ltb Nat.leb Nat.sub]. now apply listEntries_within.
  - intros parameters p Hp. split; [reflexivity|].
    pose proof (resolvedSegments_plain w p) as Hroot.
    unfold FolderIndexingTool.execute. rewrite Hp.
    apply Emits_tryCatch; [|intros e; apply Emits_ret].
    apply Emits_bind_ret.
    apply Emits_bind; [apply Emits_logged|]. intros _.
    apply Emits_bind.
    + unfold FolderIndexingTool.validatePath, path_resolve, asString.
      apply Emits_tryCatch; [|intros e; apply Emits_ret].
      apply Emits_bind_ret. unfold stat.
      apply Emits_bind;
        [apply Emits_perform; exact (below_root 4 (resolvedSegments w p))|].
      intros stats. emits.
    + intros validationResult.
      destruct (negb (Validation.valid validationResult));
        [apply Emits_throw|].
      unfold path_resolve, asString.
      apply Emits_bind_ret.
      apply Emits_bind; [|intros contents; apply Emits_ret].
      unfold FolderIndexingTool.listDirectoryContents.
      cbn [Nat.ltb Nat.leb Nat.sub].
      now apply (listEntries_within 3 Hplain (resolvedSegments w p) 0).
Qed.

(** Each tool keeps to its own kind of effects: the web search performs
    none; the terminal tool only spawns; the search tool only probes that
    the path is there and spawns; the listing tool only looks at
    directories and their entries; the file-read tool only looks at files
    and reads them. None of them calls the model or another tool. *)
Theorem tools_keep_to_their_effects (parameters : jsval) :
  Emits noEffect (WebSearchTool.execute w parameters)
  /\ Emits spawns (TerminalCommandTool.execute w parameters)
  /\ Emits probesOrSpawns (FileSystemGrepTool.execute w parameters)
  /\ Emits looksAtDirectories (FolderIndexingTool.execute w parameters)
  /\ Emits looksAtFiles (ReadFileTool.execute w parameters).
Proof.
  repeat split.
  - unfold WebSearchTool.execute, WebSearchTool.getMockSearchResults. emits.
  - unfold TerminalCommandTool.execute, exec. emits.
  - unfold FileSystemGrepTool.execute, FileSystemGrepTool.validatePath,
      access, exec. emits.
  - unfold FolderIndexingTool.execute.
    apply Emits_tryCatch; [|intros e; apply Emits_ret].
    apply Emits_bind; [apply Emits_getProp|]. intros path.
    apply Emits_bind; [apply Emits_logged|]. intros _.
    apply Emits_bind;
      [unfold FolderIndexingTool.validatePath, stat; emits|].
    intros validationResult.
    destruct (negb (Validation.valid validationResult));
      [apply Emits_throw|].
    apply Emits_bind; [apply Emits_path_resolve|]. intros absolutePath.
    apply Emits_bind; [|intros contents; apply Emits_ret].
    apply listEntries_looksAtDirectories.
  - unfold ReadFileTool.execute, ReadFileTool.validateFile,
      ReadFileTool.readFileContent, stat, readFile_utf8, readFile. emits.
Qed.

End ToolEffects.

(** [listing_depth_bounded] at work: in a tree without a bottom, the
    listing of [/home/app] reads four directories and stops. *)
Lemma listing_depth_witness :
  Effects.Emits (Effects.listingWithin 3 [str "home"; str "app"])
    (FolderIndexingTool.listDirectoryContents Sample.deep
       (str "/home/app") 0 3)
  /\ snd (FolderIndexingTool.listDirectoryContents Sample.deep
            (str "/home/app") 0 3 [])
     = [EvReaddir (str "/home/app");
        EvReaddir (str "/home/app/a");
        EvReaddir (str "/home/app/a/a");
        EvReaddir (str "/home/app/a/a/a")].
Proof.
  split.
  - refine (proj1 (listing_depth_bounded Sample.deep _)
              [str "home"; str "app"] _).
    + intros t dir entries H. injection H as <-.
      repeat constructor.
    + repeat constructor.
  - vm_compute. reflexivity.
Defined.

(** ** The file validator, the other way round *)

Section ValidatorComplete.

Variable w : World.

(** [validateFile] accepts every string path whose resolved form is
    answered by [stat] to be a regular file not above the ceiling, holds
    neither [..] nor [~], has no extension or an allowed one, and continues
    one of the roots. When the configured ceiling is not a number, no size
    is above it. *)
Theorem validateFile_accepts_complete (p : jsstring) (t : trace)
  (stats : Stats) :
  fs_stat w t (Path.resolve (process_cwd w) p) = Ret stats ->
  isFile stats = true ->
  (forall ceiling,
      maxFileSize (config w) = Some ceiling -> (size stats <= ceiling)%Z) ->
  looksTraversing (Path.resolve (process_cwd w) p) = false ->
  (Path.extname (Path.resolve (process_cwd w) p) = []
   \/ In (Path.extname (Path.resolve (process_cwd w) p))
         (allowedExtensions (config w))) ->
  isAllowed w (Path.resolve (process_cwd w) p) = true ->
  ReadFileTool.validateFile w (VStr p) t
  = (Ret Validation.accepted,
     t ++ [EvStat (Path.resolve (process_cwd w) p)]).
Proof.
  intros Hstat Hfile Hsize Htr Hext Hal.
  unfold ReadFileTool.validateFile, tryCatch, bind, path_resolve, asString,
    bind, ret, stat, perform.
  rewrite Hstat, Hfile, Htr, Hal. cbn [negb].
  assert (Hex : ReadFileTool.exceeds (size stats) (maxFileSize (config w))
                = None).
  { unfold ReadFileTool.exceeds.
    destruct (maxFileSize (config w)) as [m|]; [|reflexivity].
    specialize (Hsize m eq_refl).
    destruct (m <? size stats)%Z eqn:E; [|reflexivity].
    apply Z.ltb_lt in E. lia. }
  rewrite Hex.
  assert (Hok : negb (arrayIncludes (allowedExtensions (config w))
                        (Path.extname (Path.resolve (process_cwd w) p)))
                && negb (bool_decide
                           (Path.extname (Path.resolve (process_cwd w) p)
                            = [])) = false).
  { destruct Hext as [E | Hin].
    - rewrite E. simpl. apply andb_false_r.
    - apply arrayIncludes_In in Hin. now rewrite Hin. }
  rewrite Hok. reflexivity.
Qed.

End ValidatorComplete.

(** [validateFile_accepts_complete] at work: the notes of the sample
    deployment. *)
Lemma validateFile_complete_witness :
  ReadFileTool.validateFile Sample.world (VStr Sample.notes) []
  = (Ret Validation.accepted, [EvStat Sample.notes]).
Proof.
  apply (validateFile_accepts_complete Sample.world Sample.notes []
           (mkStats true false 10 (str "2024-01-01T00:00:00.000Z"))).
  - vm_compute. reflexivity.
  - reflexivity.
  - intros ceiling H. vm_compute in H. injection H as <-. simpl. lia.
  - vm_compute. reflexivity.
  - right. apply arrayIncludes_In. vm_compute. reflexivity.
  - vm_compute. reflexivity.
Defined.

(** ** The settings *)

Section ConfigFacts.

(** A setting that is unset or empty counts for nothing: the defaults
    apply. *)
Theorem loadConfig_defaults (env : gmap jsstring jsstring) :
  (forall name,
      In name ["MAX_FILE_SIZE"; "ALLOWED_FILE_EXTENSIONS";
               "SANDBOX_DIRECTORY"]%string ->
      env !! str name = None \/ env !! str name = Some []) ->
  loadConfig env = defaultConfig.
Proof.
  intros H.
  assert (E : forall name fallback,
             In name ["MAX_FILE_SIZE"; "ALLOWED_FILE_EXTENSIONS";
                      "SANDBOX_DIRECTORY"]%string ->
             envOr env name fallback = fallback).
  { intros name fallback Hn. unfold envOr.
    destruct (H name Hn) as [E1 | E1]; unfold jsstring in *;
      now rewrite E1. }
  unfold loadConfig.
  rewrite !E by (simpl; tauto).
  vm_compute. reflexivity.
Qed.

End ConfigFacts.

(** [loadConfig_defaults] at work: an environment that sets an empty
    sandbox directory. *)
Lemma loadConfig_defaults_witness :
  loadConfig (<[str "SANDBOX_DIRECTORY" := []]> ∅) = defaultConfig.
Proof.
  apply loadConfig_defaults.
  intros name [<- | [<- | [<- | []]]].
  - left. vm_compute. reflexivity.
  - left. vm_compute. reflexivity.
  - right. vm_compute. reflexivity.
Defined.

(** ** The patterns of a log *)

Section AnalyzerFacts.

Import CodeAnalyzer.

Lemma dedupeFrom_spec (l seen : list jsstring) :
  List.NoDup (dedupeFrom seen l)
  /\ (forall x, In x (dedupeFrom seen l) -> In x l /\ ~ In x seen).
Proof.
  revert seen. induction l as [|x l IH]; intros seen; simpl.
  - split; [constructor | tauto].
  - destruct (arrayIncludes seen x) eqn:E.
    + destruct (IH seen) as [Hn Hs]. split; [exact Hn|].
      intros y Hy. destruct (Hs y Hy). tauto.
    + destruct (IH (x :: seen)) as [Hn Hs]. split.
      * constructor; [|exact Hn]. intros Hx.
        destruct (Hs x Hx) as [_ Hnot]. apply Hnot. now left.
      * intros y [<- | Hy].
        -- split; [now left|]. intros Hin.
           apply arrayIncludes_In in Hin. congruence.
        -- destruct (Hs y Hy) as [Hl Hnot]. split; [now right|].
           intros Hin. apply Hnot. now right.
Qed.

Lemma linePatterns_labels (line : jsstring) (x : jsstring) :
  In x (linePatterns line) -> In x logLabels.
Proof.
  unfold linePatterns, logLabels.
  destruct (truthy (trim line)); [|intros []].
  destruct (matchesPrefix isoDate line), (test bracketedLevel line),
    (test ipAddress line); simpl; tauto.
Qed.

(** The patterns of a log are drawn from three labels, each at most once:
    however long the log is, at most three patterns come out, and a log
    whose first fifty lines are blank gives none. *)
Theorem extractLogPatterns_labels (content : jsstring) :
  List.NoDup (extractLogPatterns content)
  /\ (forall x, In x (extractLogPatterns content) -> In x logLabels)
  /\ (length (extractLogPatterns content) <= 3)%nat
  /\ (Forall (fun line => forallb isWhiteSpace line = true)
        (take 50 (split 10 content)) ->
      extractLogPatterns content = []).
Proof.
  unfold extractLogPatterns.
  destruct (dedupeFrom_spec
              (flat_map linePatterns (take 50 (split 10 content))) [])
    as [Hn Hs].
  assert (Hl : forall x,
             In x (dedupeFrom []
                     (flat_map linePatterns (take 50 (split 10 content)))) ->
             In x logLabels).
  { intros x Hx. destruct (Hs x Hx) as [Hin _].
    apply in_flat_map in Hin as (line & _ & Hin).
    now apply (linePatterns_labels line). }
  split; [exact Hn|]. split; [exact Hl|]. split.
  - apply (List.NoDup_incl_length Hn Hl).
  - intros Hb.
    assert (E : flat_map linePatterns (take 50 (split 10 content)) = []).
    { clear Hn Hs Hl.
      induction Hb as [|line l Hline _ IH]; simpl; [reflexivity|].
      rewrite IH, app_nil_r. unfold linePatterns.
      now rewrite (trim_blank line Hline). }
    now rewrite E.
Qed.

(** The log of the test of the analyzer gives the three labels, in the
    order in which its lines bring them. *)
Example extractLogPatterns_sample :
  extractLogPatterns
    (str "2024-01-15 10:30:15 [INFO] Server started" ++ [10]
     ++ str "2024-01-15 10:30:22 [ERROR] Database connection failed" ++ [10]
     ++ str "192.168.1.100 - GET /api/users 200")
  = logLabels.
Proof. vm_compute. reflexivity. Qed.

End AnalyzerFacts.
